(** * workerclient: the execution engine of a load-test worker

    A shallow embedding of the Go package [workerclient]
    (result.go, test_case.go, case_runner.go, utils.go, worker_runner.go)
    and the properties of its result records, step loop, ramp schedule,
    latency aggregator and concurrency slicing, of the loop that starts
    the executors, and of the registry, status push and polling cycle of
    the worker.

    Conventions of the embedding:
    - Go's [uint64] and [int64] are [Z] with the wrap-around written out
      ([u64], [i64]); Go's [/] on signed integers is [Z.quot];
    - [map[string]string] is [gmap string string]; reading a missing key
      yields the empty string ([map_get]); a nil map is [None];
    - [time.Now().UnixMilli()] reads a [Clock], one reading per call;
    - user callbacks are functions threading a user state [U]; a callback
      that receives a map may update it, so it returns the map;
    - pointers to records are the records themselves; the interface
      [IResultV1] offers getters only, so hooks that receive a record
      observe it; where a property depends on two pointers to one
      object ([AddStep]), the objects are held in a store;
    - what another goroutine or the coordinator decides is an argument:
      the values read from a shared flag, the answers of the rate
      limiters, the answer to a status push. Sends on channels and
      waits for the limiter are taken to complete; the HTTP exchange
      itself is not modelled. *)

From Stdlib Require Import ZArith Lia.
From stdpp Require Import gmap strings list fin_maps pretty.

Set Warnings "-register-all".
Local Open Scope Z_scope.

(** ** Machine integers *)

Module Int.

Definition two64 : Z := 2 ^ 64.
Definition two63 : Z := 2 ^ 63.

(** Conversion to [uint64] and arithmetic on it. *)
Definition u64 (z : Z) : Z := z mod two64.

(** Conversion to [int64] and arithmetic on it. *)
Definition i64 (z : Z) : Z := (z + two63) mod two64 - two63.

Definition in_u64 (z : Z) : Prop := 0 <= z < two64.
Definition in_i64 (z : Z) : Prop := - two63 <= z < two63.

End Int.

(** ** time *)

Module Time.

(** [time.Duration] counts nanoseconds in an [int64]. *)
Definition Millisecond : Z := 1000000.
Definition Second : Z := 1000000000.

(** The wall clock: the n-th call of [time.Now().UnixMilli()] returns
    [readings n]. *)
Record Clock := mkClock { readings : nat -> Z; cursor : nat }.

Definition UnixMilli (c : Clock) : Z * Clock :=
  (readings c (cursor c), mkClock (readings c) (S (cursor c))).

(** A clock that returns the listed readings, then stays at [last]. *)
Definition clock_of (l : list Z) (last : Z) : Clock :=
  mkClock (fun n => nth n l last) 0.

(** [int(time.Now().UnixMilli() / 1000 / 60)] *)
Definition minute_of (ms : Z) : Z := Z.quot (Z.quot ms 1000) 60.

End Time.

(** ** Maps of strings *)

Abbreviation Params := (gmap string string).

(** [m[k]] on a Go map: the zero value when the key is missing. *)
Definition map_get (m : Params) (k : string) : string :=
  default EmptyString (m !! k).

(** [fmt.Sprintf("%v", n)] on an integer. *)
Definition sprint (n : Z) : string := pretty n.

(** ** result.go *)

Definition InnerVarName : string := "__name".
Definition InnerVarGoroutineId : string := "__goroutine_id".
Definition InnerVarExecutorIndex : string := "__executor_index".
Definition InnerVarWorkerTotal : string := "__worker_total".
Definition InnerVarWorkerIndex : string := "__worker_index".
Definition InnerVarWorkerSize : string := "__worker_size".

(** An element of a [[]interface{}]: a value that implements [IResultV1],
    or one that does not. *)
Inductive Dyn (R : Type) : Type :=
  | DynResult (r : R)
  | DynOther (desc : string).
Arguments DynResult {R} r.
Arguments DynOther {R} desc.

Inductive Result : Type := mkResult {
  Name : string;
  Url : string;
  Method : string;
  RequestHeader : Params;
  RequestBody : string;
  SentBytes : Z;
  ResponseCode : Z;
  ResponseHeader : Params;
  ResponseBody : string;
  ReceivedBytes : Z;
  FailureMessage : string;
  Success : bool;
  BeginTime : Z;
  EndTime : Z;
  SubResults : list (Dyn Result);
  SubIndex : Z
}.

(** The zero value [&Result{}]. *)
Definition Result_zero : Result :=
  mkResult "" "" "" ∅ "" 0 0 ∅ "" 0 "" false 0 0 [] 0.

(** Field assignments [r.F = v]. *)
Definition set_Name (v : string) (r : Result) : Result :=
  mkResult v (Url r) (Method r) (RequestHeader r) (RequestBody r)
    (SentBytes r) (ResponseCode r) (ResponseHeader r) (ResponseBody r)
    (ReceivedBytes r) (FailureMessage r) (Success r) (BeginTime r)
    (EndTime r) (SubResults r) (SubIndex r).

Definition set_RequestHeader (v : Params) (r : Result) : Result :=
  mkResult (Name r) (Url r) (Method r) v (RequestBody r)
    (SentBytes r) (ResponseCode r) (ResponseHeader r) (ResponseBody r)
    (ReceivedBytes r) (FailureMessage r) (Success r) (BeginTime r)
    (EndTime r) (SubResults r) (SubIndex r).

Definition set_ResponseHeader (v : Params) (r : Result) : Result :=
  mkResult (Name r) (Url r) (Method r) (RequestHeader r) (RequestBody r)
    (SentBytes r) (ResponseCode r) v (ResponseBody r)
    (ReceivedBytes r) (FailureMessage r) (Success r) (BeginTime r)
    (EndTime r) (SubResults r) (SubIndex r).

Definition set_ResponseCode (v : Z) (r : Result) : Result :=
  mkResult (Name r) (Url r) (Method r) (RequestHeader r) (RequestBody r)
    (SentBytes r) v (ResponseHeader r) (ResponseBody r)
    (ReceivedBytes r) (FailureMessage r) (Success r) (BeginTime r)
    (EndTime r) (SubResults r) (SubIndex r).

Definition set_Success (v : bool) (r : Result) : Result :=
  mkResult (Name r) (Url r) (Method r) (RequestHeader r) (RequestBody r)
    (SentBytes r) (ResponseCode r) (ResponseHeader r) (ResponseBody r)
    (ReceivedBytes r) (FailureMessage r) v (BeginTime r)
    (EndTime r) (SubResults r) (SubIndex r).

Definition set_BeginTime (v : Z) (r : Result) : Result :=
  mkResult (Name r) (Url r) (Method r) (RequestHeader r) (RequestBody r)
    (SentBytes r) (ResponseCode r) (ResponseHeader r) (ResponseBody r)
    (ReceivedBytes r) (FailureMessage r) (Success r) v
    (EndTime r) (SubResults r) (SubIndex r).

Definition set_EndTime (v : Z) (r : Result) : Result :=
  mkResult (Name r) (Url r) (Method r) (RequestHeader r) (RequestBody r)
    (SentBytes r) (ResponseCode r) (ResponseHeader r) (ResponseBody r)
    (ReceivedBytes r) (FailureMessage r) (Success r) (BeginTime r)
    v (SubResults r) (SubIndex r).

Definition set_SubResults (v : list (Dyn Result)) (r : Result) : Result :=
  mkResult (Name r) (Url r) (Method r) (RequestHeader r) (RequestBody r)
    (SentBytes r) (ResponseCode r) (ResponseHeader r) (ResponseBody r)
    (ReceivedBytes r) (FailureMessage r) (Success r) (BeginTime r)
    (EndTime r) v (SubIndex r).

Definition set_SubIndex (v : Z) (r : Result) : Result :=
  mkResult (Name r) (Url r) (Method r) (RequestHeader r) (RequestBody r)
    (SentBytes r) (ResponseCode r) (ResponseHeader r) (ResponseBody r)
    (ReceivedBytes r) (FailureMessage r) (Success r) (BeginTime r)
    (EndTime r) (SubResults r) v.

(** [AcquireResult]: the two time stamps are two calls of
    [time.Now()]. *)
Definition AcquireResult (name : string) (c : Time.Clock)
  : Result * Time.Clock :=
  let result := Result_zero in
  let result := set_Name name result in
  let result := set_RequestHeader ∅ result in
  let result := set_ResponseHeader ∅ result in
  let result := set_ResponseCode 0 result in
  let result := set_Success true result in
  let '(t1, c) := Time.UnixMilli c in
  let result := set_BeginTime t1 result in
  let '(t2, c) := Time.UnixMilli c in
  let result := set_EndTime t2 result in
  (result, c).

(** The getters of [IResultV1] used by the engine. *)
Definition GetName (r : Result) : string := Name r.
Definition GetResponseCode (r : Result) : Z := ResponseCode r.
Definition IsSuccess (r : Result) : bool := Success r.
Definition GetBeginTime (r : Result) : Z := BeginTime r.
Definition GetEndTime (r : Result) : Z := EndTime r.
Definition GetSubResults (r : Result) : list (Dyn Result) := SubResults r.

(** [Begin] and [End] (named [Result_Begin], [Result_End] here). *)
Definition Result_Begin (r : Result) (c : Time.Clock)
  : Result * Time.Clock :=
  let '(t, c) := Time.UnixMilli c in (set_BeginTime t r, c).

Definition Result_End (r : Result) (c : Time.Clock)
  : Result * Time.Clock :=
  let r := set_Success (ResponseCode r =? 200) r in
  let '(t, c) := Time.UnixMilli c in
  (set_EndTime t r, c).

(** [AddSub]: returns the parent with the child appended, and the
    child. *)
Definition AddSub (name : string) (useNamePrefix : bool) (r : Result)
    (c : Time.Clock) : Result * Result * Time.Clock :=
  let '(name, r) :=
    if String.eqb name ""
    then (Name r +:+ "-" +:+ sprint (SubIndex r),
          set_SubIndex (Int.i64 (SubIndex r + 1)) r)
    else if useNamePrefix then (Name r +:+ "-" +:+ name, r)
    else (name, r) in
  let '(sub, c) := AcquireResult name c in
  (set_SubResults (SubResults r ++ [DynResult sub]) r, sub, c).

(** ** test_case.go *)

Record CaseRunnerInfo := mkCaseRunnerInfo {
  WorkerName : string;
  MaxConcurrencyInThisWoker : Z;
  RampingSeconds : Z;
  DurationMinutes : Z;
  WorkerTotal : Z;
  WorkerIndex : Z;
  WorkerSize : Z
}.

Record CaseParams := mkCaseParams {
  GlobalParams : Params;
  CoroutineParams : Params;
  CaseRunnerInfo_of : CaseRunnerInfo
}.

(** How a call ends: with a value, with a Go panic, or (for the loops
    that run until the case is stopped) with the fuel of the model
    used up. *)
Inductive Outcome (A : Type) : Type :=
  | Done (a : A)
  | Panicked
  | OutOfFuel.
Arguments Done {A} a.
Arguments Panicked {A}.
Arguments OutOfFuel {A}.

(** What the body of the [range] loop does next. *)
Inductive Flow := Next | Break.

Section Engine.

(** The state that the user's callbacks close over. *)
Context {U : Type}.

(** A nil function field is [None]. *)
Record TestStep := mkTestStep {
  stepIndex : string;
  StepName : string;
  ReqPluginFunc : option (Params -> U -> option Result * Params * U);
  GenReqParamsFunc : option (CaseParams -> U -> option Params * U);
  ContinueWhenFailed : bool;
  ExecWhenFunc : option (CaseParams -> Params -> U -> bool * Params * U);
  PreFunc : option (CaseParams -> Params -> U -> Params * U);
  PostFunc : option (CaseParams -> Params -> Result -> U -> Params * U);
  RpsLimitFunc : option (CaseRunnerInfo -> Params -> Z)
}.

Record TestCase := mkTestCase {
  CaseName : string;
  Teststeps : list TestStep;
  TearDown : option (Params -> U -> U)
}.

Definition NewTestCase (caseName : string) : TestCase :=
  mkTestCase caseName [] None.

Definition GetStepIndex (ts : TestStep) : string := stepIndex ts.

Definition AddStep (tc : TestCase) (ts : TestStep) : TestCase :=
  let execWhen :=
    match ExecWhenFunc ts with
    | None => Some (fun _ reqParams u => (true, reqParams, u))
    | f => f
    end in
  let pre :=
    match PreFunc ts with
    | None => Some (fun _ reqParams u => (reqParams, u))
    | f => f
    end in
  let post :=
    match PostFunc ts with
    | None => Some (fun _ reqParams _ u => (reqParams, u))
    | f => f
    end in
  let rps :=
    match RpsLimitFunc ts with
    | None => Some (fun _ _ => 0)
    | f => f
    end in
  let ts :=
    mkTestStep (sprint (Z.of_nat (length (Teststeps tc)))) (StepName ts)
      (ReqPluginFunc ts) (GenReqParamsFunc ts) (ContinueWhenFailed ts)
      execWhen pre post rps in
  mkTestCase (CaseName tc) (Teststeps tc ++ [ts]) (TearDown tc).

(** What an executor does, in order. *)
Inductive Event :=
  | EvGenParams (ts : TestStep)
  | EvExecWhen (ts : TestStep) (reqParams : Params) (b : bool)
  | EvWait (key : string)
  | EvPre (ts : TestStep) (reqParams : Params)
  | EvPlugin (ts : TestStep) (reqParams : Params) (res : option Result)
  | EvPost (ts : TestStep) (result : Result)
  | EvPush (result : Result)
  | EvSleep (d : Z)
  | EvTearDown (coroutineParams : Params).

(** What the other goroutines do to the objects an executor shares
    with them, seen from the executor: the value it finds at its n-th
    read of a shared object. [IsRunning] is the flag of the Case
    Runner, [ResChansAttached] tells whether [output.ResChans] is
    non-nil, [HasKey] whether the limiter has a bucket for a step. *)
Record Shared := mkShared {
  IsRunning : nat -> bool;
  ResChansAttached : nat -> bool;
  HasKey : string -> bool
}.

Record Exec := mkExec {
  user : U;
  reads : nat;
  trace : list Event
}.

Definition ExecM (A : Type) : Type := Exec -> Outcome A * Exec.

#[global] Instance ExecM_ret : MRet ExecM :=
  fun A a st => (Done a, st).

#[global] Instance ExecM_bind : MBind ExecM :=
  fun A B k m st =>
    match m st with
    | (Done a, st) => k a st
    | (Panicked, st) => (Panicked, st)
    | (OutOfFuel, st) => (OutOfFuel, st)
    end.

Definition panic {A} : ExecM A := fun st => (Panicked, st).

Definition emit (e : Event) : ExecM unit :=
  fun st => (Done tt, mkExec (user st) (reads st) (trace st ++ [e])).

Definition read_shared {A} (f : nat -> A) : ExecM A :=
  fun st => (Done (f (reads st)), mkExec (user st) (S (reads st)) (trace st)).

(** Calling a user callback [f] on the user state. *)
Definition call {A} (f : U -> A * U) : ExecM A :=
  fun st => let '(a, u) := f (user st) in
            (Done a, mkExec u (reads st) (trace st)).

(** Calling a function field: a nil function panics. *)
Definition deref {A} (f : option A) : ExecM A :=
  match f with Some f => mret f | None => panic end.

(** [interface{}(sr).(IResultV1)] for every element, in order. *)
Fixpoint assert_results (subResults : list (Dyn Result))
  : option (list Result) :=
  match subResults with
  | [] => Some []
  | DynResult sr :: rest =>
      match assert_results rest with
      | Some results => Some (sr :: results)
      | None => None
      end
  | DynOther _ :: _ => None
  end.

(** Lines 101-110 of [Run]: the records to report for [res]. *)
Definition collect_results (res : Result) : ExecM (list Result) :=
  let subResults := GetSubResults res in
  if decide (length subResults = 0%nat) then mret [res]
  else match assert_results subResults with
       | Some results => mret results
       | None => panic
       end.

(** Lines 112-119 of [Run]. *)
Fixpoint report_results (sh : Shared) (caseParams : CaseParams)
    (ts : TestStep) (reqParams : Params) (results : list Result)
    (ok : bool) : ExecM bool :=
  match results with
  | [] => mret ok
  | result :: rest =>
      post ← deref (PostFunc ts);
      reqParams ← call (post caseParams reqParams result);
      emit (EvPost ts result);;
      let ok := IsSuccess result && ok in
      attached ← read_shared (ResChansAttached sh);
      (if attached : bool then emit (EvPush result) else mret tt);;
      report_results sh caseParams ts reqParams rest ok
  end.

(** The body of the [range] loop of [Run] for the step [ts]. *)
Definition run_step (sh : Shared) (caseParams : CaseParams)
    (ts : TestStep) : ExecM Flow :=
  running ← read_shared (IsRunning sh);
  if negb running then mret Break else
  gen ← deref (GenReqParamsFunc ts);
  reqParams ← call (gen caseParams);
  emit (EvGenParams ts);;
  match reqParams with
  | None => panic
  | Some reqParams =>
    let reqParams := <[InnerVarName := StepName ts]> reqParams in
    let reqParams :=
      <[InnerVarGoroutineId :=
          map_get (CoroutineParams caseParams) InnerVarGoroutineId]>
        reqParams in
    let reqParams :=
      <[InnerVarExecutorIndex :=
          map_get (CoroutineParams caseParams) InnerVarExecutorIndex]>
        reqParams in
    execWhen ← deref (ExecWhenFunc ts);
    '(b, reqParams') ← call (execWhen caseParams reqParams);
    emit (EvExecWhen ts reqParams b);;
    let reqParams := reqParams' in
    if negb b then mret Next else
    (if HasKey sh (GetStepIndex ts)
     then emit (EvWait (GetStepIndex ts)) else mret tt);;
    running ← read_shared (IsRunning sh);
    if negb running then mret Break else
    pre ← deref (PreFunc ts);
    emit (EvPre ts reqParams);;
    reqParams ← call (pre caseParams reqParams);
    plugin ← deref (ReqPluginFunc ts);
    '(res, reqParams') ← call (plugin reqParams);
    emit (EvPlugin ts reqParams res);;
    let reqParams := reqParams' in
    match res with
    | None => panic
    | Some res =>
      results ← collect_results res;
      ok ← report_results sh caseParams ts reqParams results true;
      if negb ok && negb (ContinueWhenFailed ts) then mret Break
      else mret Next
    end
  end.

(** The [range] loop over the steps: one iteration of the executor. *)
Fixpoint run_steps (sh : Shared) (caseParams : CaseParams)
    (steps : list TestStep) : ExecM Flow :=
  match steps with
  | [] => mret Next
  | ts :: rest =>
      flow ← run_step sh caseParams ts;
      match flow with
      | Break => mret Break
      | Next => run_steps sh caseParams rest
      end
  end.

(** The outer [for] loop of [Run]; [fuel] bounds the number of
    iterations of the model. *)
Fixpoint run_loop (fuel : nat) (sh : Shared) (caseParams : CaseParams)
    (tc : TestCase) : ExecM unit :=
  match fuel with
  | O => fun st => (OutOfFuel, st)
  | S fuel =>
      running ← read_shared (IsRunning sh);
      if negb running then mret tt else
      run_steps sh caseParams (Teststeps tc);;
      emit (EvSleep (100 * Time.Millisecond));;
      run_loop fuel sh caseParams tc
  end.

Definition Run (fuel : nat) (tc : TestCase)
    (globalParams coroutineParams : Params) (sh : Shared)
    (info : CaseRunnerInfo) : ExecM unit :=
  let caseParams := mkCaseParams globalParams coroutineParams info in
  run_loop fuel sh caseParams tc;;
  match TearDown tc with
  | Some tearDown =>
      call (fun u => (tt, tearDown coroutineParams u));;
      emit (EvTearDown coroutineParams)
  | None => mret tt
  end.

End Engine.

Arguments TestStep U : clear implicits.
Arguments TestCase U : clear implicits.
Arguments Event U : clear implicits.
Arguments Exec U : clear implicits.

(** ** types.go and utils.go: sketch keys and serialised sketches *)

Module Key.

Record CallTimeMapKey := mkKey {
  TaskId : string;
  MetricName : string;
  IsWholeCase : bool;
  WorkerName : string;
  CaseName : string;
  StepName : string;
  Success : bool;
  StatusCode : Z;
  Ts : Z
}.

(** [outKey := k; outKey.Ts = ts] *)
Definition with_Ts (ts : Z) (k : CallTimeMapKey) : CallTimeMapKey :=
  mkKey (TaskId k) (MetricName k) (IsWholeCase k) (WorkerName k)
    (CaseName k) (StepName k) (Success k) (StatusCode k) ts.

#[global] Instance eq_dec : EqDecision CallTimeMapKey.
Proof. solve_decision. Defined.

#[global] Instance countable : Countable CallTimeMapKey.
Proof.
  refine (inj_countable'
    (fun k => (TaskId k, MetricName k, IsWholeCase k, WorkerName k,
               CaseName k, StepName k, Success k, StatusCode k, Ts k))
    (fun '(a, b, c, d, e, f, g, h, i) => mkKey a b c d e f g h i) _).
  by intros [].
Defined.

End Key.

Abbreviation CallTimeMapKey := Key.CallTimeMapKey.

(** [strings.HasSuffix]. *)
Definition HasSuffix (s suffix : string) : bool :=
  (String.length suffix <=? String.length s)%nat &&
  String.eqb
    (String.substring (String.length s - String.length suffix)
       (String.length suffix) s)
    suffix.

(** The part of [github.com/caio/go-tdigest] that the package calls. The
    library is a dependency, not part of the package, and stays
    abstract: a type of sketches, the empty sketch of [New], [Add] and
    [AddWeighted] (their errors are discarded by every caller), and the
    centroids that [ForEachCentroid] walks, in ascending order of the
    mean. *)
Class TDigestLib := {
  float64 : Type;
  float64_of_int64 : Z -> float64;
  TDigest : Type;
  tdigest_New : TDigest;
  tdigest_Add : TDigest -> float64 -> TDigest;
  tdigest_AddWeighted : TDigest -> float64 -> Z -> TDigest;
  tdigest_Centroids : TDigest -> list (float64 * Z)
}.

Section Sketches.

Context `{TDigestLib}.

Record TDNode := mkTDNode { Mean : float64; Count : Z }.

Record CallTimeMetric := mkCallTimeMetric {
  Metric_Key : CallTimeMapKey;
  Metric_Value : list TDNode
}.

(** [td.ForEachCentroid(f)]: calls [f] on the centroids in order until
    it answers false. *)
Fixpoint ForEachCentroid {A} (centroids : list (float64 * Z))
    (f : float64 -> Z -> A -> bool * A) (acc : A) : A :=
  match centroids with
  | [] => acc
  | (mean, count) :: rest =>
      let '(continue, acc) := f mean count acc in
      if continue : bool then ForEachCentroid rest f acc else acc
  end.

Definition SerializeTDigest (td : TDigest) : list TDNode :=
  ForEachCentroid (tdigest_Centroids td)
    (fun mean count rslice => (true, rslice ++ [mkTDNode mean count]))
    [].

Definition UnserializeTDigest (nodes : list TDNode) : TDigest :=
  foldl (fun td n => tdigest_AddWeighted td (Mean n) (Count n))
    tdigest_New nodes.

End Sketches.

(** ** case_runner.go *)

Module Ramp.

(** The arguments of [ratelimiter.NewDefaultLimiter]. *)
Record Limiter := mkLimiter {
  rampingLimit : Z;
  rampingLimitDuration : Z
}.

(** The inner [for] loop of lines 100-106; [fuel] bounds the number of
    times its head is reached, [N] is [MaxConcurrencyInThisWoker] and
    [R] is [RampingSeconds]. *)
Fixpoint widen (fuel : nat) (N R : Z)
    (rampingLimit rampingLimitDuration : Z) : option Limiter :=
  match fuel with
  | O => None
  | S fuel =>
      if 0 <? rampingLimit
      then Some (mkLimiter rampingLimit rampingLimitDuration)
      else
        let rampingLimitDuration :=
          Int.i64 (rampingLimitDuration + Time.Second) in
        let rampingLimit :=
          Int.u64
            (N * Int.u64 (Z.quot rampingLimitDuration Time.Second)) / R in
        widen fuel N R rampingLimit rampingLimitDuration
  end.

(** Lines 95-107. *)
Definition limiter (fuel : nat) (info : CaseRunnerInfo)
  : option Limiter :=
  let rampingLimit := 10000 in
  let rampingLimitDuration := Time.Millisecond * 10 in
  if 0 <? RampingSeconds info then
    let rampingLimitDuration := Time.Second in
    let rampingLimit :=
      MaxConcurrencyInThisWoker info / RampingSeconds info in
    widen fuel (MaxConcurrencyInThisWoker info) (RampingSeconds info)
      rampingLimit rampingLimitDuration
  else Some (mkLimiter rampingLimit rampingLimitDuration).

End Ramp.

Module CaseRunner.

Record t (U : Type) := mk {
  Info : CaseRunnerInfo;
  TestCase_of : TestCase U;
  GlobalParams : Params;
  IsRunning : bool;
  ActiveConcurrencyCount : Z;
  CoordinatorApi : string
}.
Arguments mk {U}.
Arguments Info {U}.
Arguments TestCase_of {U}.
Arguments GlobalParams {U}.
Arguments IsRunning {U}.
Arguments ActiveConcurrencyCount {U}.
Arguments CoordinatorApi {U}.

End CaseRunner.

Section Launch.

Context {U : Type}.

(** Lines 66-72 of [Run]: the steps that get a bucket in the limiter. A
    nil [RpsLimitFunc] panics. *)
Fixpoint limiter_keys (steps : list (TestStep U)) (info : CaseRunnerInfo)
    (globalParams : Params) : option (list string) :=
  match steps with
  | [] => Some []
  | ts :: rest =>
      match RpsLimitFunc ts with
      | None => None
      | Some f =>
          let rps := f info globalParams in
          match limiter_keys rest info globalParams with
          | None => None
          | Some keys =>
              Some (if 0 <? rps then GetStepIndex ts :: keys else keys)
          end
      end
  end.

(** Lines 122-128 of [Run]: the map of the executor of index [i]. *)
Definition coroutineParams_of (cr : CaseRunner.t U) (i : Z) : Params :=
  let info := CaseRunner.Info cr in
  <[InnerVarGoroutineId :=
      CaseName (CaseRunner.TestCase_of cr) +:+ "-" +:+ sprint i]>
  (<[InnerVarExecutorIndex := sprint i]>
  (<[InnerVarWorkerTotal := sprint (WorkerTotal info)]>
  (<[InnerVarWorkerIndex := sprint (WorkerIndex info)]>
  (<[InnerVarWorkerSize := sprint (WorkerSize info)]> ∅)))).

(** The executor of index [i], as [Run] starts it in line 129. *)
Definition executor (fuel : nat) (cr : CaseRunner.t U) (i : Z)
    (sh : Shared) : ExecM unit :=
  Run fuel (CaseRunner.TestCase_of cr) (CaseRunner.GlobalParams cr)
    (coroutineParams_of cr i) sh (CaseRunner.Info cr).

End Launch.

(** *** The aggregator: [HandleOuput] *)

Section Aggregator.

Context `{TDigestLib} {U : Type}.

(** The state of the fold loop: the local variables [callTimeMap] and
    [lastTs], the batches sent on [MetricsChan] so far (sends are taken
    to complete), and the clock. *)
Record Agg := mkAgg {
  callTimeMap : gmap CallTimeMapKey TDigest;
  lastTs : Z;
  MetricsChan : list (list CallTimeMetric);
  clock : Time.Clock
}.

(** Lines 177-218: the four keys of a record. *)
Definition keys_of (cr : CaseRunner.t U) (res : Result)
  : list CallTimeMapKey :=
  let workerName := WorkerName (CaseRunner.Info cr) in
  let caseName := CaseName (CaseRunner.TestCase_of cr) in
  [ Key.mkKey "" "step_call" true workerName caseName "_NONE_"
      (IsSuccess res) (GetResponseCode res) 0;
    Key.mkKey "" "step_call_integral" true workerName caseName "_NONE_"
      (IsSuccess res) (GetResponseCode res) 0;
    Key.mkKey "" "step_call" false workerName caseName (GetName res)
      (IsSuccess res) (GetResponseCode res) 0;
    Key.mkKey "" "step_call_integral" false workerName caseName
      (GetName res) (IsSuccess res) (GetResponseCode res) 0 ].

(** The sample of a record: [res.GetEndTime() - res.GetBeginTime()], an
    [int64], before its conversion to [float64]. *)
Definition latency (res : Result) : Z :=
  Int.i64 (GetEndTime res - GetBeginTime res).

(** Lines 220-225: the body of the loop over the keys. *)
Definition add_sample (res : Result)
    (m : gmap CallTimeMapKey TDigest) (key : CallTimeMapKey)
  : gmap CallTimeMapKey TDigest :=
  let v := match m !! key with
           | Some v => v
           | None => tdigest_New
           end in
  <[key := tdigest_Add v (float64_of_int64 (latency res))]> m.

(** Lines 161-171: the pass over the map at a change of minute. Go's
    [range] visits every entry of the map once, in an order of its
    own; deleting the entry being visited is allowed. *)
Definition rollover_pass (lastTs : Z) (m : gmap CallTimeMapKey TDigest)
  : list CallTimeMetric * gmap CallTimeMapKey TDigest :=
  foldl (fun '(metrics, m) '(k, v) =>
           (metrics ++
              [mkCallTimeMetric (Key.with_Ts lastTs k) (SerializeTDigest v)],
            if negb (HasSuffix (Key.MetricName k) "_integral")
            then delete k m else m))
    ([], m) (map_to_list m).

(** Lines 231-239: the pass over the map after the channel is closed. *)
Definition final_pass (nowts : Z) (m : gmap CallTimeMapKey TDigest)
  : list CallTimeMetric * gmap CallTimeMapKey TDigest :=
  foldl (fun '(metrics, m) '(k, v) =>
           (metrics ++
              [mkCallTimeMetric (Key.with_Ts nowts k) (SerializeTDigest v)],
            delete k m))
    ([], m) (map_to_list m).

(** [if len(metrics) > 0 { cr.MetricsChan <- metrics }] *)
Definition send (metrics : list CallTimeMetric)
    (chan : list (list CallTimeMetric)) : list (list CallTimeMetric) :=
  if decide (0 < length metrics)%nat then chan ++ [metrics] else chan.

(** Lines 158-226: the body of the loop over the channel, for the
    record [res]. *)
Definition consume (cr : CaseRunner.t U) (st : Agg) (res : Result)
  : Agg :=
  let '(now, c) := Time.UnixMilli (clock st) in
  let ts := Time.minute_of now in
  let st :=
    if decide (lastTs st ≠ ts) then
      let '(metrics, m) := rollover_pass (lastTs st) (callTimeMap st) in
      mkAgg m ts (send metrics (MetricsChan st)) c
    else mkAgg (callTimeMap st) (lastTs st) (MetricsChan st) c in
  mkAgg (foldl (add_sample res) (callTimeMap st) (keys_of cr res))
    (lastTs st) (MetricsChan st) (clock st).

(** Lines 155-156. *)
Definition Agg_init (c : Time.Clock) : Agg :=
  let '(now, c) := Time.UnixMilli c in
  mkAgg ∅ (Time.minute_of now) [] c.

(** Lines 157-227: the loop over the records received until the
    channel is closed. *)
Definition fold_loop (cr : CaseRunner.t U) (ResChans : list Result)
    (c : Time.Clock) : Agg :=
  foldl (consume cr) (Agg_init c) ResChans.

(** Lines 229-242. *)
Definition final_flush (st : Agg) : Agg :=
  let '(now, c) := Time.UnixMilli (clock st) in
  let nowts := Time.minute_of now in
  let '(metrics, m) := final_pass nowts (callTimeMap st) in
  mkAgg m (lastTs st) (send metrics (MetricsChan st)) c.

Definition HandleOuput (cr : CaseRunner.t U) (ResChans : list Result)
    (c : Time.Clock) : Agg :=
  final_flush (fold_loop cr ResChans c).

End Aggregator.

(** ** types.go: the answer of the coordinator *)

Module CaseBaseInfo.
Record t := mk {
  Name : string;
  GlobalParams : Params;
  TotalMaxConcurrency : Z;
  RampingSeconds : Z;
  DurationMinutes : Z;
  WorkName : string;
  WorkerConcurrency : Z;
  TaskId : string
}.
End CaseBaseInfo.

Module TestCaseInfo.
Record t := mk {
  BaseInfo : option CaseBaseInfo.t;
  WorkerTotal : Z
}.
End TestCaseInfo.

Module TestCaseSummary.
Record t := mk {
  Name : string;
  Status : string;
  ActiveConcurrencyCount : Z;
  TaskId : string
}.
End TestCaseSummary.

Module WorkerBaseInfo.
Record t := mk {
  Name : string;
  ID : string;
  Index : Z;
  Status : string;
  TestCases : list TestCaseSummary.t
}.
End WorkerBaseInfo.

Module Worker.
Record t := mk {
  BaseInfo : option WorkerBaseInfo.t;
  LastAciveAt : Z
}.
End Worker.

Module RspWorkerPushStatus.
Record t := mk {
  Worker_of : option Worker.t;
  ShouldRunCase : bool;
  ShouldStopCase : bool;
  TestCaseInfo_of : option TestCaseInfo.t
}.
End RspWorkerPushStatus.

(** ** worker_runner.go *)

Module WorkerRunner.

(** [Worker] and its [BaseInfo] are allocated by [NewWorkerRunner],
    so the base info is held directly. *)
Record t (U : Type) := mk {
  BaseInfo : WorkerBaseInfo.t;
  CoordinatorApi : string;
  CaseMaps : gmap string (TestCase U);
  RunningCaseRunner : option (CaseRunner.t U)
}.
Arguments mk {U}.
Arguments BaseInfo {U}.
Arguments CoordinatorApi {U}.
Arguments CaseMaps {U}.
Arguments RunningCaseRunner {U}.

(** What a call of [RealRun] starts. [Recovered] is a panic caught by
    the deferred [recover]. *)
Inductive Action (U : Type) :=
  | NoAction
  | Launch (cr : CaseRunner.t U)
  | StopRunChannel (cr : CaseRunner.t U)
  | Recovered.
Arguments NoAction {U}.
Arguments Launch {U}.
Arguments StopRunChannel {U}.
Arguments Recovered {U}.

End WorkerRunner.

Section WorkerRunnerOps.

Context {U : Type}.

Definition set_Index (i : Z) (rw : WorkerRunner.t U) : WorkerRunner.t U :=
  let b := WorkerRunner.BaseInfo rw in
  WorkerRunner.mk
    (WorkerBaseInfo.mk (WorkerBaseInfo.Name b) (WorkerBaseInfo.ID b) i
       (WorkerBaseInfo.Status b) (WorkerBaseInfo.TestCases b))
    (WorkerRunner.CoordinatorApi rw) (WorkerRunner.CaseMaps rw)
    (WorkerRunner.RunningCaseRunner rw).

Definition set_Status (s : string) (rw : WorkerRunner.t U)
  : WorkerRunner.t U :=
  let b := WorkerRunner.BaseInfo rw in
  WorkerRunner.mk
    (WorkerBaseInfo.mk (WorkerBaseInfo.Name b) (WorkerBaseInfo.ID b)
       (WorkerBaseInfo.Index b) s (WorkerBaseInfo.TestCases b))
    (WorkerRunner.CoordinatorApi rw) (WorkerRunner.CaseMaps rw)
    (WorkerRunner.RunningCaseRunner rw).

Definition set_RunningCaseRunner (cr : option (CaseRunner.t U))
    (rw : WorkerRunner.t U) : WorkerRunner.t U :=
  WorkerRunner.mk (WorkerRunner.BaseInfo rw)
    (WorkerRunner.CoordinatorApi rw) (WorkerRunner.CaseMaps rw) cr.

(** [NewWorkerRunner]; [id] is the fresh UUID. *)
Definition NewWorkerRunner (workerName coordinatorApi id : string)
  : WorkerRunner.t U :=
  WorkerRunner.mk (WorkerBaseInfo.mk workerName id (-1) "idle" [])
    coordinatorApi ∅ None.

(** [AddTestCase]; registering a name twice panics. *)
Definition AddTestCase (tc : TestCase U) (rw : WorkerRunner.t U)
  : option (WorkerRunner.t U) :=
  match WorkerRunner.CaseMaps rw !! CaseName tc with
  | Some _ => None
  | None =>
      let b := WorkerRunner.BaseInfo rw in
      Some (WorkerRunner.mk
        (WorkerBaseInfo.mk (WorkerBaseInfo.Name b) (WorkerBaseInfo.ID b)
           (WorkerBaseInfo.Index b) (WorkerBaseInfo.Status b)
           (WorkerBaseInfo.TestCases b ++
              [TestCaseSummary.mk (CaseName tc) "idle" 0 ""]))
        (WorkerRunner.CoordinatorApi rw)
        (<[CaseName tc := tc]> (WorkerRunner.CaseMaps rw))
        (WorkerRunner.RunningCaseRunner rw))
  end.

(** [RealRun], given the answer [rspWPS] of [PushStatus] (nil is
    [None]). A nil pointer followed inside the answer panics; the
    deferred [recover] ends the call there. *)
Definition RealRun (rspWPS : option RspWorkerPushStatus.t)
    (rw : WorkerRunner.t U) : WorkerRunner.t U * WorkerRunner.Action U :=
  match rspWPS with
  | None => (rw, WorkerRunner.NoAction)
  | Some rspWPS =>
    match RspWorkerPushStatus.Worker_of rspWPS ≫= Worker.BaseInfo with
    | None => (rw, WorkerRunner.Recovered)
    | Some workerInfo =>
      let rw := set_Index (WorkerBaseInfo.Index workerInfo) rw in
      if RspWorkerPushStatus.ShouldRunCase rspWPS then
        match RspWorkerPushStatus.TestCaseInfo_of rspWPS with
        | None => (rw, WorkerRunner.Recovered)
        | Some testCaseInfo =>
          match TestCaseInfo.BaseInfo testCaseInfo with
          | None => (rw, WorkerRunner.Recovered)
          | Some baseInfo =>
            match WorkerRunner.CaseMaps rw !! CaseBaseInfo.Name baseInfo with
            | None => (rw, WorkerRunner.NoAction)
            | Some tc =>
              let rmc := Int.i64 (CaseBaseInfo.TotalMaxConcurrency baseInfo) in
              let workerConc :=
                Int.i64 (CaseBaseInfo.WorkerConcurrency baseInfo) in
              let widx := WorkerBaseInfo.Index (WorkerRunner.BaseInfo rw) in
              let remaining :=
                Int.i64 (rmc - Int.i64 (workerConc * widx)) in
              if remaining <=? 0 then (rw, WorkerRunner.NoAction) else
              let currentWorkerConcurrency :=
                if remaining <? workerConc then Int.u64 remaining
                else Int.u64 workerConc in
              let rw := set_Status "running" rw in
              let caseRunnerInfo :=
                mkCaseRunnerInfo
                  (WorkerBaseInfo.Name (WorkerRunner.BaseInfo rw))
                  currentWorkerConcurrency
                  (CaseBaseInfo.RampingSeconds baseInfo)
                  (CaseBaseInfo.DurationMinutes baseInfo)
                  (TestCaseInfo.WorkerTotal testCaseInfo)
                  (Int.u64 widx)
                  (CaseBaseInfo.WorkerConcurrency baseInfo) in
              let cr :=
                CaseRunner.mk caseRunnerInfo tc
                  (CaseBaseInfo.GlobalParams baseInfo) false 0
                  (WorkerRunner.CoordinatorApi rw) in
              (set_RunningCaseRunner (Some cr) rw, WorkerRunner.Launch cr)
            end
          end
        end
      else if RspWorkerPushStatus.ShouldStopCase rspWPS then
        match WorkerRunner.RunningCaseRunner rw with
        | Some cr => (rw, WorkerRunner.StopRunChannel cr)
        | None => (rw, WorkerRunner.NoAction)
        end
      else (rw, WorkerRunner.NoAction)
    end
  end.

End WorkerRunnerOps.


(** ** The claims of the specification, in its words *)

(** The window of the ramp: [w] whole seconds, the smallest for which the
    budget [N * w / R] is positive. *)
Definition smallest_window (N R w : Z) : Prop :=
  1 <= w /\ 0 < N * w / R /\ forall v, 1 <= v < w -> N * v / R = 0.

(** What the specification says of the ramp with [R > 0]: the limiter
    gets the budget of the smallest window, per that window. *)
Definition ramp_claim (info : CaseRunnerInfo) : Prop :=
  exists fuel w,
    smallest_window (MaxConcurrencyInThisWoker info) (RampingSeconds info) w /\
    Ramp.limiter fuel info =
      Some (Ramp.mkLimiter
              (MaxConcurrencyInThisWoker info * w / RampingSeconds info)
              (w * Time.Second)).

(** The slice of a worker as the specification computes it. *)
Definition effective (T C i : Z) : Z := Z.max 0 (Z.min C (T - C * i)).

(** ** Concrete configurations *)

Definition info_of (N R : Z) : CaseRunnerInfo :=
  mkCaseRunnerInfo "worker-1" N R 1 1 0 N.

Definition response (T C R i : Z) : RspWorkerPushStatus.t :=
  RspWorkerPushStatus.mk
    (Some (Worker.mk (Some (WorkerBaseInfo.mk "worker-1" "id-1" i "idle" [])) 0))
    true false
    (Some (TestCaseInfo.mk
             (Some (CaseBaseInfo.mk "api_test" ∅ T R 1 "worker-1" C "task-1"))
             1)).

Definition worker_with_case : WorkerRunner.t unit :=
  default (NewWorkerRunner "worker-1" "http://coordinator:8080" "id-1")
    (AddTestCase (NewTestCase "api_test")
       (NewWorkerRunner "worker-1" "http://coordinator:8080" "id-1")).

(** ** Reading the aggregator *)

Section AggregatorSpec.

Context `{TDigestLib} {U : Type}.

(** An integral metric: one whose name ends in [_integral]. *)
Definition is_integral (k : CallTimeMapKey) : bool :=
  HasSuffix (Key.MetricName k) "_integral".

(** A sketch after one more sample. *)
Definition absorb (v : TDigest) (x : Z) : TDigest :=
  tdigest_Add v (float64_of_int64 x).

(** The sketch that was created for the first sample of [l] and has
    taken the samples of [l] in order; no sketch when [l] is empty. *)
Definition sketch_of (l : list Z) : option TDigest :=
  match l with
  | [] => None
  | _ => Some (foldl absorb tdigest_New l)
  end.

(** The samples that the records [rs] contribute to the key [k]. *)
Definition samples_for (cr : CaseRunner.t U) (k : CallTimeMapKey)
    (rs : list Result) : list Z :=
  latency <$> filter (fun res => k ∈ keys_of cr res) rs.

(** The minute at which each record is received: the clock is read once
    for each. *)
Fixpoint observe (c : Time.Clock) (rs : list Result)
  : list (Z * Result) :=
  match rs with
  | [] => []
  | r :: rs =>
      let '(now, c) := Time.UnixMilli c in
      (Time.minute_of now, r) :: observe c rs
  end.

(** The current minute and the records received since the minute last
    changed. *)
Definition window_step (acc : Z * list (Z * Result)) (o : Z * Result)
  : Z * list (Z * Result) :=
  if decide (acc.1 ≠ o.1) then (o.1, [o]) else (acc.1, acc.2 ++ [o]).

Definition window (t0 : Z) (obs : list (Z * Result))
  : Z * list (Z * Result) :=
  foldl window_step (t0, []) obs.

(** Every sketch of a map, serialised under its key stamped [ts]. *)
Definition batch (ts : Z) (m : gmap CallTimeMapKey TDigest)
  : list CallTimeMetric :=
  (fun kv => mkCallTimeMetric (Key.with_Ts ts kv.1) (SerializeTDigest kv.2))
    <$> map_to_list m.

(** A pass over a map that emits every entry and deletes those that
    [drop] selects. *)
Definition pass (ts : Z) (drop : CallTimeMapKey -> bool)
    (m : gmap CallTimeMapKey TDigest)
  : list CallTimeMetric * gmap CallTimeMapKey TDigest :=
  foldl (fun '(metrics, m) '(k, v) =>
           (metrics ++
              [mkCallTimeMetric (Key.with_Ts ts k) (SerializeTDigest v)],
            if drop k : bool then delete k m else m))
    ([], m) (map_to_list m).

End AggregatorSpec.

(** ** Reading the trace of an executor *)

Section Traces.

Context {U : Type}.

(** The calls of the plugin: the step, the map it was handed and the
    record it returned. *)
Definition plugin_calls (evs : list (Event U))
  : list (TestStep U * Params * option Result) :=
  omap (fun e => match e with
                 | EvPlugin ts m res => Some (ts, m, res)
                 | _ => None
                 end) evs.

(** The maps handed to [ExecWhenFunc], with the step. *)
Definition exec_when_calls (evs : list (Event U))
  : list (TestStep U * Params) :=
  omap (fun e => match e with
                 | EvExecWhen ts m _ => Some (ts, m)
                 | _ => None
                 end) evs.

(** The records handed to [PostFunc], in order. *)
Definition posted (evs : list (Event U)) : list Result :=
  omap (fun e => match e with EvPost _ r => Some r | _ => None end) evs.

(** The records sent on the output channel, in order. *)
Definition pushed (evs : list (Event U)) : list Result :=
  omap (fun e => match e with EvPush r => Some r | _ => None end) evs.

(** The events added to the trace between two states. *)
Definition events_since (st st' : Exec U) : list (Event U) :=
  drop (length (trace st)) (trace st').

Definition tick (st : Exec U) : Exec U :=
  mkExec (user st) (S (reads st)) (trace st).

Definition slept (st : Exec U) : Exec U :=
  mkExec (user st) (reads st)
    (trace st ++ [EvSleep (100 * Time.Millisecond)]).

End Traces.

(** The sub-records of a list of interface values. *)
Definition results_of (subResults : list (Dyn Result)) : list Result :=
  omap (fun d => match d with DynResult r => Some r | DynOther _ => None end)
    subResults.

(** The records the specification wants reported for [res]: the record
    itself when it has no sub-records, its sub-records otherwise. *)
Definition reported (res : Result) : list Result :=
  match SubResults res with
  | [] => [res]
  | subResults => results_of subResults
  end.

(** The three keys that [Run] writes into the map of a request. *)
Definition has_reserved (stepName : string) (coroutineParams m : Params)
  : Prop :=
  m !! InnerVarName = Some stepName /\
  m !! InnerVarGoroutineId =
    Some (map_get coroutineParams InnerVarGoroutineId) /\
  m !! InnerVarExecutorIndex =
    Some (map_get coroutineParams InnerVarExecutorIndex).

(** A hook that leaves the three keys of the map as it found them. *)
Definition keeps_reserved (m m' : Params) : Prop :=
  m' !! InnerVarName = m !! InnerVarName /\
  m' !! InnerVarGoroutineId = m !! InnerVarGoroutineId /\
  m' !! InnerVarExecutorIndex = m !! InnerVarExecutorIndex.

Definition hooks_keep_reserved {U} (ts : TestStep U) : Prop :=
  (forall f caseParams m u,
     ExecWhenFunc ts = Some f -> keeps_reserved m (f caseParams m u).1.2) /\
  (forall f caseParams m u,
     PreFunc ts = Some f -> keeps_reserved m (f caseParams m u).1).

(** A call of [ExecWhenFunc], or of the plugin, whose map holds the
    three keys. *)
Definition exec_when_ok {U} (coroutineParams : Params)
    (c : TestStep U * Params) : Prop :=
  has_reserved (StepName c.1) coroutineParams c.2.

Definition plugin_call_ok {U} (coroutineParams : Params)
    (c : TestStep U * Params * option Result) : Prop :=
  has_reserved (StepName c.1.1) coroutineParams c.1.2.

(** The three keys with the values that [CaseRunner.Run] gives the
    executor of index [i]. *)
Definition carries_identity (caseName : string) (i : Z) (stepName : string)
    (m : Params) : Prop :=
  m !! InnerVarName = Some stepName /\
  m !! InnerVarGoroutineId = Some (caseName +:+ "-" +:+ sprint i) /\
  m !! InnerVarExecutorIndex = Some (sprint i).

(** ** Concrete cases *)

(** The request plugin of the README: acquire, begin, set the status,
    end. *)
Definition status_plugin (name : string) (code : Z)
  : Params -> Time.Clock -> option Result * Params * Time.Clock :=
  fun params c =>
    let '(result, c) := AcquireResult name c in
    let '(result, c) := Result_Begin result c in
    let result := set_ResponseCode code result in
    let '(result, c) := Result_End result c in
    (Some result, params, c).

(** A plugin that returns the record as acquired. *)
Definition bare_plugin (name : string)
  : Params -> Time.Clock -> option Result * Params * Time.Clock :=
  fun params c =>
    let '(result, c) := AcquireResult name c in (Some result, params, c).

Definition ended (name : string) (code : Z) (c : Time.Clock)
  : Result * Time.Clock :=
  let '(result, c) := AcquireResult name c in
  Result_End (set_ResponseCode code result) c.

(** A parent with three sub-records of status 200, 200 and 500. *)
Definition batch_plugin
  : Params -> Time.Clock -> option Result * Params * Time.Clock :=
  fun params c =>
    let '(parent, c) := AcquireResult "batch" c in
    let '(s0, c) := ended "batch-0" 200 c in
    let '(s1, c) := ended "batch-1" 200 c in
    let '(s2, c) := ended "batch-2" 500 c in
    (Some (set_SubResults [DynResult s0; DynResult s1; DynResult s2] parent),
     params, c).

(** A parent whose only sub-record has a sub-record of its own. *)
Definition nested_plugin
  : Params -> Time.Clock -> option Result * Params * Time.Clock :=
  fun params c =>
    let '(parent, c) := AcquireResult "batch" c in
    let '(item, c) := AcquireResult "batch-item" c in
    let '(item, _, c) := AddSub "part" true item c in
    (Some (set_SubResults [DynResult item] parent), params, c).

Definition login_params
  : CaseParams -> Time.Clock -> option Params * Time.Clock :=
  fun _ c =>
    (Some (<["username" := "test"]> (<["password" := "123456"]> ∅)), c).

Definition step_of (name : string)
    (plugin : Params -> Time.Clock -> option Result * Params * Time.Clock)
  : TestStep Time.Clock :=
  mkTestStep "" name (Some plugin) (Some login_params) false
    None None None None.

Definition case_of (name : string) (steps : list (TestStep Time.Clock))
  : TestCase Time.Clock :=
  foldl AddStep (NewTestCase name) steps.

Definition runner_of (tc : TestCase Time.Clock) : CaseRunner.t Time.Clock :=
  CaseRunner.mk (info_of 4 0) tc ∅ true 0 "http://coordinator:8080".

Definition login_case : TestCase Time.Clock :=
  case_of "api_test" [step_of "login" (status_plugin "login" 200)].

Definition checkout_case : TestCase Time.Clock :=
  case_of "checkout"
    [step_of "create" (status_plugin "create" 500);
     step_of "pay" (status_plugin "pay" 200)].

Definition batch_case : TestCase Time.Clock :=
  case_of "batch" [step_of "batch" batch_plugin].

Definition bare_case : TestCase Time.Clock :=
  case_of "bare" [step_of "ping" (bare_plugin "ping")].

Definition nested_case : TestCase Time.Clock :=
  case_of "nested" [step_of "batch" nested_plugin].

(** The case is stopped after [n] reads of its flag; the output channel
    stays attached and no step is rate limited. *)
Definition running_for (n : nat) : Shared :=
  mkShared (fun k => (k <? n)%nat) (fun _ => true) (fun _ => false).

Definition start : Exec Time.Clock := mkExec (Time.clock_of [] 0) 0 [].

Definition params_of (tc : TestCase Time.Clock) : CaseParams :=
  mkCaseParams ∅ (coroutineParams_of (runner_of tc) 0) (info_of 4 0).

(** The first step of a case, as [AddStep] registered it. *)
Definition first_step (tc : TestCase Time.Clock) : TestStep Time.Clock :=
  default (step_of "" (bare_plugin "")) (head (Teststeps tc)).

(** ** A sketch library for running the aggregator *)

(** An exact stand-in for the sketch library: one centroid of count 1 or
    more per distinct sample, kept in ascending order; means are
    integers. It serves to run [HandleOuput] on concrete records. *)
Fixpoint exact_insert (mean count : Z) (l : list (Z * Z)) : list (Z * Z) :=
  match l with
  | [] => [(mean, count)]
  | (mean', count') :: rest =>
      if mean <? mean' then (mean, count) :: l
      else if mean =? mean' then (mean', Int.u64 (count' + count)) :: rest
      else (mean', count') :: exact_insert mean count rest
  end.

Definition exact_digest : TDigestLib := {|
  float64 := Z;
  float64_of_int64 := fun x => x;
  TDigest := list (Z * Z);
  tdigest_New := [];
  tdigest_Add := fun td x => exact_insert x 1 td;
  tdigest_AddWeighted := fun td x n => if n =? 0 then td else exact_insert x n td;
  tdigest_Centroids := fun td => td
|}.

(** Two calls that end at different minutes, and the clock of the
    aggregator: started at 0 ms, it receives the first record at 1 s and
    the second at 61 s, and sees the channel closed at 62 s. *)
Definition sample_records : list Result :=
  [(ended "login" 200 (Time.clock_of [100; 100; 140] 140)).1;
   (ended "login" 500 (Time.clock_of [60100; 60100; 60190] 60190)).1].

Definition aggregator_clock : Time.Clock :=
  Time.clock_of [0; 1000; 61000; 62000] 62000.

(** ** result.go: numbered sub-records *)

(** [n] calls of [AddSub("", false)] on the same record, one after the
    other. *)
Fixpoint add_unnamed (n : nat) (r : Result) (c : Time.Clock)
  : Result * Time.Clock :=
  match n with
  | O => (r, c)
  | S n => let '(r, _, c) := AddSub "" false r c in add_unnamed n r c
  end.

(** ** test_case.go: [AddStep] on step objects *)

Section StepObjects.
Context {U : Type}.

(** Lines 43-61 of [AddStep]: what the call writes into the step it is
    given, for a case that holds [n] steps. *)
Definition registered (n : nat) (ts : TestStep U) : TestStep U :=
  let execWhen :=
    match ExecWhenFunc ts with
    | None => Some (fun _ reqParams u => (true, reqParams, u))
    | f => f
    end in
  let pre :=
    match PreFunc ts with
    | None => Some (fun _ reqParams u => (reqParams, u))
    | f => f
    end in
  let post :=
    match PostFunc ts with
    | None => Some (fun _ reqParams _ u => (reqParams, u))
    | f => f
    end in
  let rps :=
    match RpsLimitFunc ts with
    | None => Some (fun _ _ => 0)
    | f => f
    end in
  mkTestStep (sprint (Z.of_nat n)) (StepName ts)
    (ReqPluginFunc ts) (GenReqParamsFunc ts) (ContinueWhenFailed ts)
    execWhen pre post rps.

(** A case as Go holds it: [Teststeps] is a slice of pointers, and
    [AddStep] writes through the pointer it is given. [at_store] maps
    the address of a step to the contents of the step. *)
Record CaseAt := mkCaseAt {
  at_steps : list nat;
  at_store : gmap nat (TestStep U)
}.

(** [tc.AddStep(ts)] for the pointer [p]; a pointer to no step is nil,
    and the call panics. *)
Definition AddStep_at (p : nat) (tc : CaseAt) : option CaseAt :=
  match at_store tc !! p with
  | None => None
  | Some ts =>
      Some (mkCaseAt (at_steps tc ++ [p])
              (<[p := registered (length (at_steps tc)) ts]> (at_store tc)))
  end.

(** The calls [tc.AddStep(p)] for the pointers of [ps], in order. *)
Fixpoint AddSteps_at (ps : list nat) (tc : CaseAt) : option CaseAt :=
  match ps with
  | [] => Some tc
  | p :: ps =>
      match AddStep_at p tc with
      | None => None
      | Some tc => AddSteps_at ps tc
      end
  end.

(** The steps of the case, as [Run] reads them through the pointers. *)
Definition steps_at (tc : CaseAt) : list (TestStep U) :=
  omap (fun p => at_store tc !! p) (at_steps tc).

(** The steps with a bucket in the limiter, by position: those whose
    [RpsLimitFunc] is set and returns a positive rate. *)
Definition limited_steps (steps : list (TestStep U)) (info : CaseRunnerInfo)
    (globalParams : Params) : list string :=
  omap (fun '(i, ts) =>
          match RpsLimitFunc ts with
          | Some f =>
              if 0 <? f info globalParams then Some (sprint (Z.of_nat i))
              else None
          | None => None
          end)
    (imap pair steps).

End StepObjects.
Arguments CaseAt U : clear implicits.

(** ** test_case.go: steps that cannot panic *)

Section Readiness.
Context {U : Type}.

(** The calls of [TearDown], with the map handed to each. *)
Definition teardowns (evs : list (Event U)) : list Params :=
  omap (fun e => match e with EvTearDown m => Some m | _ => None end) evs.

(** An event of a pass through a step. *)
Definition step_event (e : Event U) : Prop :=
  match e with
  | EvSleep _ | EvTearDown _ => False
  | _ => True
  end.

(** A step whose generator and plugin are set and do their part: the
    generator returns a map, the plugin returns a record whose
    sub-records all implement [IResultV1]. *)
Definition provides_results (ts : TestStep U) : Prop :=
  (exists gen, GenReqParamsFunc ts = Some gen /\
     forall caseParams u, is_Some (gen caseParams u).1) /\
  (exists plugin, ReqPluginFunc ts = Some plugin /\
     forall m u, exists r,
       (plugin m u).1.1 = Some r /\
       is_Some (assert_results (SubResults r))).

(** A step that cannot panic: it provides results, and the three hooks
    that [AddStep] defaults are set. *)
Definition step_ready (ts : TestStep U) : Prop :=
  provides_results ts /\
  is_Some (ExecWhenFunc ts) /\ is_Some (PreFunc ts) /\
  is_Some (PostFunc ts).

(** The calls of [PreFunc]. *)
Definition pre_calls (evs : list (Event U)) : list (TestStep U * Params) :=
  omap (fun e => match e with EvPre ts m => Some (ts, m) | _ => None end)
    evs.

End Readiness.

(** ** case_runner.go: the loop of [Run] that starts the executors *)

Module Launcher.

(** What the loop finds: the n-th answer of
    [rampingLimiter.ShouldAllow(1)], and the value of [cr.IsRunning] at
    the n-th read of the flag, which [StopRunChannel] clears from
    another goroutine. *)
Record World := mkWorld {
  ShouldAllow : nat -> bool;
  IsRunning : nat -> bool
}.

(** The state of the loop: the calls of [ShouldAllow] and the reads of
    the flag made so far, the pauses of 25 ms taken, the executors
    started (index and [coroutineParams], in order) and
    [cr.ActiveConcurrencyCount]. *)
Record St := mkSt {
  asked : nat;
  reads : nat;
  pauses : nat;
  started : list (Z * Params);
  ActiveConcurrencyCount : Z
}.

Definition init : St := mkSt 0 0 0 [] 0.

End Launcher.

Section LauncherOps.

Context {U : Type}.

(** Lines 110-117 of [Run]: wait for a token of the ramp limiter, or
    for the case to be stopped; [fuel] bounds the number of rounds of
    the model. *)
Fixpoint await (fuel : nat) (w : Launcher.World) (st : Launcher.St)
  : option Launcher.St :=
  match fuel with
  | O => None
  | S fuel =>
      let allowed := Launcher.ShouldAllow w (Launcher.asked st) in
      let st :=
        Launcher.mkSt (S (Launcher.asked st)) (Launcher.reads st)
          (Launcher.pauses st) (Launcher.started st)
          (Launcher.ActiveConcurrencyCount st) in
      if allowed then Some st
      else
        let running := Launcher.IsRunning w (Launcher.reads st) in
        let st :=
          Launcher.mkSt (Launcher.asked st) (S (Launcher.reads st))
            (Launcher.pauses st) (Launcher.started st)
            (Launcher.ActiveConcurrencyCount st) in
        if negb running then Some st
        else
          await fuel w
            (Launcher.mkSt (Launcher.asked st) (Launcher.reads st)
               (S (Launcher.pauses st)) (Launcher.started st)
               (Launcher.ActiveConcurrencyCount st))
  end.

(** Lines 109-133 of [Run]: the loop over the executors, from the index
    [i]; [int] has 64 bits. [rounds] bounds the number of times the head
    of the loop is reached in the model. *)
Fixpoint launch (rounds fuel : nat) (w : Launcher.World)
    (cr : CaseRunner.t U) (i : Z) (st : Launcher.St)
  : option Launcher.St :=
  match rounds with
  | O => None
  | S rounds =>
      if negb (i <? Int.i64 (MaxConcurrencyInThisWoker (CaseRunner.Info cr)))
      then Some st
      else
        match await fuel w st with
        | None => None
        | Some st =>
            let running := Launcher.IsRunning w (Launcher.reads st) in
            let st :=
              Launcher.mkSt (Launcher.asked st) (S (Launcher.reads st))
                (Launcher.pauses st) (Launcher.started st)
                (Launcher.ActiveConcurrencyCount st) in
            if negb running then Some st
            else
              let coroutineParams := coroutineParams_of cr i in
              let st :=
                Launcher.mkSt (Launcher.asked st) (Launcher.reads st)
                  (Launcher.pauses st)
                  (Launcher.started st ++ [(i, coroutineParams)])
                  (Int.i64 (Launcher.ActiveConcurrencyCount st + 1)) in
              launch rounds fuel w cr (Int.i64 (i + 1)) st
        end
  end.

(** What [Run] has set up when it returns: the keys it created in the
    limiter of the steps, the arguments of the ramp limiter, and the
    state in which the loop over the executors ended. *)
Record Launched := mkLaunched {
  rpsKeys : list string;
  rampingLimiter : Ramp.Limiter;
  launcher : Launcher.St
}.

(** [CaseRunner.Run], lines 46-134, without the goroutines it starts for
    the aggregator, the sender and the dispatcher of the limiter. *)
Definition CaseRunner_Run (rounds fuel : nat) (w : Launcher.World)
    (cr : CaseRunner.t U) : Outcome Launched :=
  match limiter_keys (Teststeps (CaseRunner.TestCase_of cr))
          (CaseRunner.Info cr) (CaseRunner.GlobalParams cr) with
  | None => Panicked
  | Some keys =>
      match Ramp.limiter fuel (CaseRunner.Info cr) with
      | None => OutOfFuel
      | Some rampingLimiter =>
          match launch rounds fuel w cr 0 Launcher.init with
          | None => OutOfFuel
          | Some st => Done (mkLaunched keys rampingLimiter st)
          end
      end
  end.

(** The executors of index 0 to [k - 1], as [Run] starts them. *)
Definition executors_upto (cr : CaseRunner.t U) (k : Z)
  : list (Z * Params) :=
  (fun i => (i, coroutineParams_of cr i)) <$> seqZ 0 k.

End LauncherOps.

(** ** worker_runner.go: the status push and the polling cycle *)

Section Polling.

Context {U : Type}.

Definition set_TestCases (l : list TestCaseSummary.t)
    (rw : WorkerRunner.t U) : WorkerRunner.t U :=
  let b := WorkerRunner.BaseInfo rw in
  WorkerRunner.mk
    (WorkerBaseInfo.mk (WorkerBaseInfo.Name b) (WorkerBaseInfo.ID b)
       (WorkerBaseInfo.Index b) (WorkerBaseInfo.Status b) l)
    (WorkerRunner.CoordinatorApi rw) (WorkerRunner.CaseMaps rw)
    (WorkerRunner.RunningCaseRunner rw).

(** Lines 300-308 of [PushStatus]: the body of the loop over the
    summaries, which are updated in place. *)
Definition summarise (runningCaseName : string) (activeConcurrencyCount : Z)
    (tc : TestCaseSummary.t) : TestCaseSummary.t :=
  if String.eqb (TestCaseSummary.Name tc) runningCaseName
  then TestCaseSummary.mk (TestCaseSummary.Name tc) "running"
         activeConcurrencyCount (TestCaseSummary.TaskId tc)
  else TestCaseSummary.mk (TestCaseSummary.Name tc) "idle" 0
         (TestCaseSummary.TaskId tc).

(** [PushStatus]. The running Case Runner is the object that
    [rw.RunningCaseRunner] points to, with the values that its fields
    hold at the call. [post] is the exchange with the coordinator for
    the base info sent: [None] when [PostJSON] returns an error, the
    [Data] of the decoded answer otherwise (nil when it has none). *)
Definition PushStatus
    (post : WorkerBaseInfo.t -> option (option RspWorkerPushStatus.t))
    (rw : WorkerRunner.t U)
  : WorkerRunner.t U * option RspWorkerPushStatus.t :=
  let rw :=
    match WorkerRunner.RunningCaseRunner rw with
    | Some cr =>
        if negb (CaseRunner.IsRunning cr)
        then set_Status "idle" (set_RunningCaseRunner None rw)
        else rw
    | None => rw
    end in
  let '(runningCaseName, activeConcurrencyCount) :=
    match WorkerRunner.RunningCaseRunner rw with
    | Some cr =>
        (CaseName (CaseRunner.TestCase_of cr),
         CaseRunner.ActiveConcurrencyCount cr)
    | None => (EmptyString, 0)
    end in
  let rw :=
    set_TestCases
      (summarise runningCaseName activeConcurrencyCount <$>
         WorkerBaseInfo.TestCases (WorkerRunner.BaseInfo rw)) rw in
  let params := WorkerRunner.BaseInfo rw in
  match post params with
  | None => (rw, None)
  | Some data => (rw, data)
  end.

(** One round of [WorkerRunner.Run]: [RealRun] with the [PushStatus]
    that it starts with. *)
Definition poll
    (post : WorkerBaseInfo.t -> option (option RspWorkerPushStatus.t))
    (rw : WorkerRunner.t U) : WorkerRunner.t U * WorkerRunner.Action U :=
  let '(rw, rspWPS) := PushStatus post rw in
  RealRun rspWPS rw.

(** The goroutines of a Case Runner write its flag and its count of
    executors. *)
Definition runner_now (isRunning : bool) (activeConcurrencyCount : Z)
    (cr : CaseRunner.t U) : CaseRunner.t U :=
  CaseRunner.mk (CaseRunner.Info cr) (CaseRunner.TestCase_of cr)
    (CaseRunner.GlobalParams cr) isRunning activeConcurrencyCount
    (CaseRunner.CoordinatorApi cr).

(** The states of a worker: made by [NewWorkerRunner], given cases with
    [AddTestCase], polled, while the goroutines of the Case Runner it
    holds write the fields of the runner. *)
Inductive reachable : WorkerRunner.t U -> Prop :=
  | reach_new workerName coordinatorApi id :
      reachable (NewWorkerRunner workerName coordinatorApi id)
  | reach_add tc rw rw' :
      reachable rw -> AddTestCase tc rw = Some rw' -> reachable rw'
  | reach_poll post rw :
      reachable rw -> reachable (poll post rw).1
  | reach_runner rw cr isRunning activeConcurrencyCount :
      reachable rw ->
      WorkerRunner.RunningCaseRunner rw = Some cr ->
      reachable
        (set_RunningCaseRunner
           (Some (runner_now isRunning activeConcurrencyCount cr)) rw).

(** The names of the summaries of a worker. *)
Definition summary_names (rw : WorkerRunner.t U) : list string :=
  TestCaseSummary.Name <$> WorkerBaseInfo.TestCases (WorkerRunner.BaseInfo rw).

(** What the operations of a worker keep: every registered case has one
    summary, under the name it is registered with; the Case Runner held
    runs a registered case; the status is "running" when a Case Runner
    is held and "idle" otherwise. *)
Definition consistent (rw : WorkerRunner.t U) : Prop :=
  NoDup (summary_names rw) /\
  (forall name, name ∈ summary_names rw <->
                is_Some (WorkerRunner.CaseMaps rw !! name)) /\
  (forall name tc, WorkerRunner.CaseMaps rw !! name = Some tc ->
                   CaseName tc = name) /\
  (forall cr, WorkerRunner.RunningCaseRunner rw = Some cr ->
     WorkerRunner.CaseMaps rw !! CaseName (CaseRunner.TestCase_of cr) =
       Some (CaseRunner.TestCase_of cr)) /\
  WorkerBaseInfo.Status (WorkerRunner.BaseInfo rw) =
    match WorkerRunner.RunningCaseRunner rw with
    | Some _ => "running"
    | None => "idle"
    end.

End Polling.

(** A worker that runs the case "api_test" with two executors started,
    and an answer of the coordinator that asks it to stop. *)
Definition running_worker : WorkerRunner.t unit :=
  let rw :=
    (poll (fun _ => Some (Some (response 10 4 0 2))) worker_with_case).1 in
  match WorkerRunner.RunningCaseRunner rw with
  | Some cr => set_RunningCaseRunner (Some (runner_now true 2 cr)) rw
  | None => rw
  end.

Definition stop_response : RspWorkerPushStatus.t :=
  RspWorkerPushStatus.mk
    (Some (Worker.mk (Some (WorkerBaseInfo.mk "worker-1" "id-1" 2 "idle" []))
             0))
    false true None.

(** ** case_runner.go: the dispatcher of the rate limiter *)

Module Dispatcher.

(** What the dispatcher finds: the n-th answer of
    [Limter.ShouldAllow(k, 1)] and the value of [cr.IsRunning] at the
    n-th read of the flag. *)
Record World := mkWorld {
  ShouldAllow : string -> nat -> bool;
  IsRunning : nat -> bool
}.

(** The state of the dispatcher: the queue of every limited step (a
    queue of [github.com/eapache/queue], first in first out, holds the
    channels of the executors that wait, here numbers), the channels
    that were sent [true], in order, the calls of [ShouldAllow] and the
    reads of the flag made so far, the pauses of 10 ms taken, and
    [isHit]. *)
Record St := mkSt {
  QMap : gmap string (list nat);
  released : list nat;
  asked : nat;
  reads : nat;
  pauses : nat;
  isHit : bool
}.

End Dispatcher.

(** Lines 78-87 of [Run]: the body of the loop over [QMap], for the
    key [k]. *)
Definition serve (w : Dispatcher.World) (st : Dispatcher.St) (k : string)
  : Dispatcher.St :=
  match Dispatcher.QMap st !! k with
  | Some (ch :: rest) =>
      let aw := Dispatcher.ShouldAllow w k (Dispatcher.asked st) in
      let st :=
        Dispatcher.mkSt (Dispatcher.QMap st) (Dispatcher.released st)
          (S (Dispatcher.asked st)) (Dispatcher.reads st)
          (Dispatcher.pauses st) (Dispatcher.isHit st) in
      let '(go, st) :=
        if aw then (true, st)
        else
          (negb (Dispatcher.IsRunning w (Dispatcher.reads st)),
           Dispatcher.mkSt (Dispatcher.QMap st) (Dispatcher.released st)
             (Dispatcher.asked st) (S (Dispatcher.reads st))
             (Dispatcher.pauses st) (Dispatcher.isHit st)) in
      if go : bool then
        Dispatcher.mkSt (<[k := rest]> (Dispatcher.QMap st))
          (Dispatcher.released st ++ [ch]) (Dispatcher.asked st)
          (Dispatcher.reads st) (Dispatcher.pauses st) true
      else st
  | _ => st
  end.

(** Lines 76-91 of [Run]: one round of the dispatcher. Go's [range]
    visits every key of the map once, in an order of its own. *)
Definition sweep (w : Dispatcher.World) (st : Dispatcher.St)
  : Dispatcher.St :=
  let st :=
    Dispatcher.mkSt (Dispatcher.QMap st) (Dispatcher.released st)
      (Dispatcher.asked st) (Dispatcher.reads st) (Dispatcher.pauses st)
      false in
  let st := foldl (serve w) st (map_to_list (Dispatcher.QMap st)).*1 in
  if negb (Dispatcher.isHit st)
  then Dispatcher.mkSt (Dispatcher.QMap st) (Dispatcher.released st)
         (Dispatcher.asked st) (Dispatcher.reads st)
         (S (Dispatcher.pauses st)) (Dispatcher.isHit st)
  else st.

(** [n] rounds of the dispatcher, while no executor joins a queue. *)
Fixpoint sweeps (n : nat) (w : Dispatcher.World) (st : Dispatcher.St)
  : Dispatcher.St :=
  match n with
  | O => st
  | S n => sweeps n w (sweep w st)
  end.

(** ** case_runner.go: the batches of the aggregator *)

Section BatchSpec.
Context `{TDigestLib}.

(** A batch as the coordinator can use it: not empty, one metric per
    key, every key stamped with the same minute [ts], and every key one
    of the keys of a record of [rs]. *)
Definition well_formed_batch {U} (cr : CaseRunner.t U) (rs : list Result)
    (b : list CallTimeMetric) : Prop :=
  b <> [] /\
  NoDup (Metric_Key <$> b) /\
  exists ts,
    Forall (fun metric =>
              Key.Ts (Metric_Key metric) = ts /\
              exists r, r ∈ rs /\
                Key.with_Ts 0 (Metric_Key metric) ∈ keys_of cr r) b.

End BatchSpec.

(** ** More concrete cases *)

(** The case of the README with a [TearDown]; a step that
    [ExecWhenFunc] declines; a step without a plugin. *)
Definition teardown_case : TestCase Time.Clock :=
  mkTestCase "api_test" (Teststeps login_case) (Some (fun _ c => c)).

Definition declined_step : TestStep Time.Clock :=
  mkTestStep "0" "login" (Some (status_plugin "login" 200))
    (Some login_params) false
    (Some (fun _ reqParams c => (false, reqParams, c))) None None None.

Definition unfinished_step : TestStep Time.Clock :=
  mkTestStep "" "login" None (Some login_params) false None None None None.

(** A case that is not stopped, with a ramp limiter that grants every
    request; and a case that is stopped after [n] reads of its flag,
    with a ramp limiter that grants nothing. *)
Definition unhindered : Launcher.World :=
  Launcher.mkWorld (fun _ => true) (fun _ => true).

Definition stopped_after (n : nat) : Launcher.World :=
  Launcher.mkWorld (fun _ => false) (fun k => (k <? n)%nat).

(** ** Tactics *)

(** One step of the symbolic execution of a monadic program in the
    hypothesis [H]: a case analysis on the innermost value that decides
    a [match]. *)
Ltac exec_destruct H :=
  match type of H with
  | context [match ?x with _ => _ end] =>
      lazymatch x with
      | context [match _ with _ => _ end] => fail
      | _ => destruct x eqn:?
      end
  end.

(** * Properties *)

(** ** Machine integers *)

Lemma u64_small z : 0 <= z < Int.two64 -> Int.u64 z = z.
Proof. intros Hz. unfold Int.u64. by apply Z.mod_small. Qed.

Lemma i64_small z : - Int.two63 <= z < Int.two63 -> Int.i64 z = z.
Proof.
  intros Hz. unfold Int.i64, Int.two64, Int.two63 in *.
  rewrite Z.mod_small; lia.
Qed.

Lemma u64_range z : 0 <= Int.u64 z < Int.two64.
Proof. unfold Int.u64, Int.two64. apply Z.mod_pos_bound. lia. Qed.

(** ** Result records *)

Lemma AcquireResult_fields name c :
  let r := (AcquireResult name c).1 in
  Name r = name /\ Success r = true /\ ResponseCode r = 0 /\
  BeginTime r = Time.readings c (Time.cursor c) /\
  EndTime r = Time.readings c (S (Time.cursor c)) /\
  SubResults r = [].
Proof. by destruct c. Qed.

(** C3, as the code has it: [End] sets the success flag from the response
    code whatever the flag held before, so a value written before [End]
    is lost; a value written after [End] is the one the record carries. *)
Theorem End_sets_success_from_code (r : Result) (c : Time.Clock) (b : bool) :
  Success (Result_End (set_Success b r) c).1 = (ResponseCode r =? 200) /\
  Success (Result_End r c).1 = (ResponseCode r =? 200) /\
  ResponseCode (Result_End r c).1 = ResponseCode r /\
  Success (set_Success b (Result_End r c).1) = b.
Proof. by destruct r, c. Qed.

(** C3 fails as stated: a plugin that gets status 500, writes
    [Success = true] and then calls [End] is left with [Success = false];
    one that gets status 200 and writes [false] is left with [true]. *)
Lemma End_discards_override :
  let c := Time.clock_of [10; 10; 25] 25 in
  let r := (AcquireResult "login" c).1 in
  Success (Result_End (set_Success true (set_ResponseCode 500 r)) c).1 = false /\
  Success (Result_End (set_Success false (set_ResponseCode 200 r)) c).1 = true.
Proof. split; reflexivity. Qed.

(** ** The ramp schedule *)

Lemma widen_idle fuel R d : 0 < R -> Ramp.widen fuel 0 R 0 d = None.
Proof.
  intros HR. revert d. induction fuel as [|fuel IH]; intros d; [done|].
  cbn [Ramp.widen]. rewrite Z.mul_0_l. unfold Int.u64 at 1.
  rewrite Z.mod_0_l by (unfold Int.two64; lia).
  rewrite Z.div_0_l by lia. apply IH.
Qed.

(** When no multiple of [N], reduced to 64 bits, reaches [R], the budget
    stays at zero and the loop goes on. *)
Lemma widen_stuck N R :
  (forall u, Int.u64 (N * u) < R) ->
  forall fuel d, Ramp.widen fuel N R 0 d = None.
Proof.
  intros Hlt fuel. induction fuel as [|fuel IH]; intros d; [done|].
  cbn [Ramp.widen]. rewrite Z.ltb_irrefl.
  rewrite Z.div_small; [apply IH|].
  split; [apply u64_range | apply Hlt].
Qed.

Lemma u64_mul_pow2 k u :
  0 <= k <= 64 -> Int.u64 (2 ^ k * u) = 2 ^ k * (u mod 2 ^ (64 - k)).
Proof.
  intros Hk. unfold Int.u64, Int.two64.
  replace (2 ^ 64) with (2 ^ k * 2 ^ (64 - k)).
  - rewrite Z.mul_mod_distr_l; [done| |]; apply Z.pow_nonzero; lia.
  - rewrite <- Z.pow_add_r by lia. f_equal. lia.
Qed.

Lemma widen_step fuel N R w :
  0 <= N < Int.two63 -> 1 <= R <= 9223372036 -> 1 <= w < R ->
  N * w / R = 0 ->
  Ramp.widen (S fuel) N R (N * w / R) (w * Time.Second) =
  Ramp.widen fuel N R (N * (w + 1) / R) ((w + 1) * Time.Second).
Proof.
  intros HN HR Hw H0. cbn [Ramp.widen]. rewrite H0, Z.ltb_irrefl.
  assert (N * w < R) as Hlt.
  { apply Z.div_small_iff in H0; lia. }
  unfold Int.two63, Time.Second in *.
  replace (w * 1000000000 + 1000000000) with ((w + 1) * 1000000000) by lia.
  rewrite (i64_small ((w + 1) * 1000000000))
    by (unfold Int.two63; lia).
  rewrite Z.quot_mul by lia.
  rewrite (u64_small (w + 1)) by (unfold Int.two64; lia).
  rewrite u64_small; [done|]. unfold Int.two64. nia.
Qed.

Lemma widen_reaches N R :
  1 <= N < Int.two63 -> 1 <= R <= 9223372036 ->
  forall n w,
    1 <= w <= R -> R <= w + Z.of_nat n ->
    (forall v, 1 <= v < w -> N * v / R = 0) ->
    exists w', smallest_window N R w' /\ w' <= R /\
      Ramp.widen (S n) N R (N * w / R) (w * Time.Second) =
      Some (Ramp.mkLimiter (N * w' / R) (w' * Time.Second)).
Proof.
  intros HN HR n. induction n as [|n IH]; intros w Hw Hn Hmin.
  - assert (w = R) as -> by lia. exists R.
    assert (0 < N * R / R) by (rewrite Z.div_mul by lia; lia).
    repeat split; [lia|done|done|lia|].
    cbn [Ramp.widen]. by destruct (Z.ltb_spec 0 (N * R / R)); [|lia].
  - destruct (Z.ltb_spec 0 (N * w / R)) as [Hpos|Hzero].
    + exists w. repeat split; [lia|done|done|lia|].
      cbn [Ramp.widen]. by destruct (Z.ltb_spec 0 (N * w / R)); [|lia].
    + assert (N * w / R = 0) as H0.
      { pose proof (Z.div_pos (N * w) R). nia. }
      assert (w < R) as HwR.
      { destruct (decide (w = R)) as [->|]; [|lia].
        rewrite Z.div_mul in H0 by lia. lia. }
      rewrite widen_step by (done || lia).
      apply IH; [lia|lia|].
      intros v Hv. destruct (decide (v = w)) as [->|]; [done|].
      apply Hmin. lia.
Qed.

Lemma limiter_idle (info : CaseRunnerInfo) :
  0 < RampingSeconds info -> MaxConcurrencyInThisWoker info = 0 ->
  forall fuel, Ramp.limiter fuel info = None.
Proof.
  intros HR HN fuel. unfold Ramp.limiter. rewrite HN.
  destruct (Z.ltb_spec 0 (RampingSeconds info)); [|lia].
  rewrite Z.div_0_l by lia. by apply widen_idle.
Qed.

Lemma limiter_reaches (info : CaseRunnerInfo) :
  let N := MaxConcurrencyInThisWoker info in
  let R := RampingSeconds info in
  1 <= N < Int.two63 -> 1 <= R <= 9223372036 ->
  exists w,
    smallest_window N R w /\ w <= R /\
    Ramp.limiter (S (Z.to_nat R)) info =
    Some (Ramp.mkLimiter (N * w / R) (w * Time.Second)).
Proof.
  intros N R HN HR.
  destruct (widen_reaches N R HN HR (Z.to_nat R) 1) as (w & Hw & HwR & Heq).
  { lia. } { lia. } { intros v Hv. lia. }
  rewrite Z.mul_1_r, Z.mul_1_l in Heq.
  exists w. split_and!; [done..|].
  unfold Ramp.limiter. fold N R. by destruct (Z.ltb_spec 0 R); [|lia].
Qed.

(** C7, as the code has it. With [R = 0] the limiter is 10000 per 10 ms.
    With [R > 0], for a ramp of at most 9223372036 seconds (the window,
    a [time.Duration], then fits in an [int64]) and a concurrency below
    2^63 (the product then fits in a [uint64]), the limiter gets the
    budget [N * w / R] per window of [w] seconds, [w] the smallest
    window with a positive budget; the loop needs at most [R] rounds. *)
Theorem ramp_limiter_in_range (info : CaseRunnerInfo) :
  let N := MaxConcurrencyInThisWoker info in
  let R := RampingSeconds info in
  (R = 0 ->
   forall fuel,
     Ramp.limiter fuel info =
     Some (Ramp.mkLimiter 10000 (10 * Time.Millisecond))) /\
  (1 <= N < Int.two63 -> 1 <= R <= 9223372036 ->
   exists w,
     smallest_window N R w /\ w <= R /\
     Ramp.limiter (S (Z.to_nat R)) info =
     Some (Ramp.mkLimiter (N * w / R) (w * Time.Second)) /\
     ramp_claim info).
Proof.
  intros N R. split.
  - intros HR fuel. unfold Ramp.limiter. fold R. by rewrite HR.
  - intros HN HR.
    destruct (limiter_reaches info HN HR) as (w & Hw & HwR & Hlim).
    exists w. split_and!; [done..|].
    exists (S (Z.to_nat R)), w. split; done.
Qed.

Lemma ramp_limiter_in_range_witness :
  (forall fuel,
     Ramp.limiter fuel (info_of 4 0) =
     Some (Ramp.mkLimiter 10000 (10 * Time.Millisecond))) /\
  exists w,
    smallest_window 3 10 w /\ w <= 10 /\
    Ramp.limiter 11 (info_of 3 10) =
    Some (Ramp.mkLimiter (3 * w / 10) (w * Time.Second)) /\
    ramp_claim (info_of 3 10).
Proof.
  split.
  - apply (proj1 (ramp_limiter_in_range (info_of 4 0))). reflexivity.
  - apply (proj2 (ramp_limiter_in_range (info_of 3 10))).
    + unfold Int.two63; simpl; lia.
    + simpl; lia.
Defined.

(** ** The step loop of an executor *)

Section EngineFacts.

Context {U : Type}.

Implicit Types (st : Exec U) (ts : TestStep U) (evs : list (Event U)).

Lemma events_since_app st st' evs :
  trace st' = trace st ++ evs -> events_since st st' = evs.
Proof. unfold events_since. intros ->. by rewrite drop_app_length. Qed.

Lemma assert_results_Some subResults results :
  assert_results subResults = Some results ->
  results = results_of subResults /\ map DynResult results = subResults.
Proof.
  revert results. induction subResults as [|[r|d] rest IH]; intros results.
  - by intros [= <-].
  - cbn. destruct (assert_results rest) as [rs|]; [|done].
    intros [= <-]. destruct (IH rs eq_refl) as [-> Hmap].
    split; [done|]. cbn. by rewrite Hmap.
  - done.
Qed.

Lemma collect_results_Done res results st st' :
  collect_results res st = (Done results, st') ->
  st' = st /\ results = reported res /\
  (SubResults res = [] -> results = [res]) /\
  (SubResults res <> [] -> map DynResult results = SubResults res).
Proof.
  unfold collect_results, GetSubResults. intros Hrun.
  destruct (decide (length (SubResults res) = 0%nat)) as [Hlen|Hlen].
  - apply nil_length_inv in Hlen. unfold reported. rewrite Hlen.
    injection Hrun as <- <-. done.
  - destruct (assert_results (SubResults res)) as [rs|] eqn:Hrs; [|done].
    injection Hrun as <- <-. apply assert_results_Some in Hrs as [-> Hmap].
    unfold reported. destruct (SubResults res) as [|d subs] eqn:Hsub; done.
Qed.

Lemma collect_results_state res st o st' :
  collect_results res st = (o, st') ->
  st' = st /\
  forall results, o = Done results ->
    results = reported res /\
    (SubResults res <> [] -> map DynResult (reported res) = SubResults res).
Proof.
  intros Hrun. destruct o as [results| |].
  - apply collect_results_Done in Hrun as (-> & -> & _ & Hmap).
    split; [done|]. by intros ? [= <-].
  - unfold collect_results in Hrun. split; [|done].
    destruct (decide _); [done|].
    destruct (assert_results _); by injection Hrun.
  - unfold collect_results in Hrun.
    destruct (decide _); [done|]. by destruct (assert_results _).
Qed.

(** The loop over the records to report: every record goes to [PostFunc]
    and its success is folded into [ok]; it goes on the output channel
    when the channel is attached at that moment. *)
Lemma report_results_trace sh caseParams ts results :
  forall reqParams ok st o st',
    report_results sh caseParams ts reqParams results ok st = (o, st') ->
    exists evs,
      trace st' = trace st ++ evs /\
      plugin_calls evs = [] /\
      exec_when_calls evs = [] /\
      forall ok',
        o = Done ok' ->
        posted evs = results /\
        ok' = forallb IsSuccess results && ok /\
        ((forall n, ResChansAttached sh n = true) -> pushed evs = results).
Proof.
  induction results as [|r rest IH]; intros reqParams ok st o st' Hrun.
  - cbn in Hrun. injection Hrun as <- <-. exists [].
    rewrite app_nil_r. split_and!; try done.
    by intros ok' [= <-].
  - cbn [report_results] in Hrun.
    unfold mbind, ExecM_bind, deref, call, emit, read_shared, panic, mret,
      ExecM_ret in Hrun.
    destruct (PostFunc ts) as [post|]; cbn in Hrun.
    2:{ injection Hrun as <- <-. exists []. rewrite app_nil_r.
        split_and!; done. }
    destruct (post caseParams reqParams r (user st)) as [m u] eqn:Hpost.
    cbn in Hrun.
    destruct (ResChansAttached sh (reads st)) eqn:Hatt; cbn in Hrun.
    + apply IH in Hrun as (evs & Htr & Hpl & Hew & Hdone). cbn in Htr.
      exists (EvPost ts r :: EvPush r :: evs).
      rewrite Htr, <- !app_assoc. split_and!; try done.
      intros ok' Hok. destruct (Hdone ok' Hok) as (Hp & -> & Hpush).
      split_and!.
      * unfold posted in *. cbn. by rewrite Hp.
      * cbn. unfold IsSuccess.
        by destruct (Success r), (forallb _ rest), ok.
      * intros Hall. unfold pushed in *. cbn. by rewrite Hpush.
    + apply IH in Hrun as (evs & Htr & Hpl & Hew & Hdone). cbn in Htr.
      exists (EvPost ts r :: evs).
      rewrite Htr, <- !app_assoc. split_and!; try done.
      intros ok' Hok. destruct (Hdone ok' Hok) as (Hp & -> & Hpush).
      split_and!.
      * unfold posted in *. cbn. by rewrite Hp.
      * cbn. unfold IsSuccess.
        by destruct (Success r), (forallb _ rest), ok.
      * intros Hall. rewrite Hall in Hatt. done.
Qed.

Lemma wait_step (b : bool) (e : Event U) st :
  (if b then emit e else mret tt) st =
  (Done tt, mkExec (user st) (reads st) (trace st ++ if b then [e] else [])).
Proof. destruct b; cbn; [done|]. rewrite app_nil_r. by destruct st. Qed.

Lemma has_reserved_injected stepName coroutineParams (m : Params) :
  has_reserved stepName coroutineParams
    (<[InnerVarExecutorIndex :=
         map_get coroutineParams InnerVarExecutorIndex]>
       (<[InnerVarGoroutineId :=
            map_get coroutineParams InnerVarGoroutineId]>
          (<[InnerVarName := stepName]> m))).
Proof.
  unfold has_reserved. split_and!.
  - by rewrite !lookup_insert_ne, lookup_insert_eq by done.
  - by rewrite lookup_insert_ne, lookup_insert_eq by done.
  - by rewrite lookup_insert_eq.
Qed.

Lemma keeps_reserved_has stepName coroutineParams m m' :
  has_reserved stepName coroutineParams m -> keeps_reserved m m' ->
  has_reserved stepName coroutineParams m'.
Proof.
  intros (H1 & H2 & H3) (K1 & K2 & K3). unfold has_reserved.
  by rewrite K1, K2, K3.
Qed.

(** What one pass through the body of the [range] loop adds to the
    trace. *)
Lemma run_step_trace sh caseParams ts st o st' :
  run_step sh caseParams ts st = (o, st') ->
  exists evs,
    trace st' = trace st ++ evs /\
    Forall (fun c => c.1 = ts /\
              has_reserved (StepName ts) (CoroutineParams caseParams) c.2)
      (exec_when_calls evs) /\
    (hooks_keep_reserved ts ->
     Forall (fun c => c.1.1 = ts /\
               has_reserved (StepName ts) (CoroutineParams caseParams) c.1.2)
       (plugin_calls evs)) /\
    ((plugin_calls evs = [] /\ posted evs = [] /\ pushed evs = []) \/
     (exists m res,
        plugin_calls evs = [(ts, m, res)] /\
        forall flow, o = Done flow ->
          exists r,
            res = Some r /\
            posted evs = reported r /\
            flow = (if forallb IsSuccess (reported r) || ContinueWhenFailed ts
                    then Next else Break) /\
            ((forall n, ResChansAttached sh n = true) ->
             pushed evs = reported r) /\
            (SubResults r <> [] ->
             map DynResult (reported r) = SubResults r))).
Proof.
  unfold run_step. intros Hrun.
  unfold mbind, ExecM_bind, deref, call, read_shared, panic, mret,
    ExecM_ret, emit in Hrun.
  Opaque collect_results report_results.
  repeat (cbn in Hrun; exec_destruct Hrun); cbn in Hrun.
  all: try (injection Hrun as <- <-).
  all: repeat match goal with
       | H : collect_results _ _ = _ |- _ =>
           apply collect_results_state in H as [-> ?]
       | H : report_results _ _ _ _ _ _ _ = _ |- _ =>
           apply report_results_trace in H as (? & ? & ? & ? & ?)
       end.
  all: unfold plugin_calls, exec_when_calls, posted, pushed in *.
  all: cbn [trace] in *.
  all: eexists; split;
    [ repeat match goal with H : trace _ = _ |- _ => rewrite H end;
      rewrite <- ?app_assoc;
      first [reflexivity | symmetry; apply app_nil_r] | ].
  all: cbn.
  Transparent collect_results report_results.
  all: repeat match goal with
       | H : forall results, Done _ = Done results ->
               results = reported _ /\ _ |- _ =>
           destruct (H _ eq_refl) as [-> Hmap]; clear H
       | H : forall ok', Done _ = Done ok' -> _ |- _ =>
           specialize (H _ eq_refl)
       | H : omap _ _ = [] |- _ => rewrite ?H; clear H
       end.
  all: split_and!.
  all: try (intros [Hew Hpre]).
  all: repeat first
         [ apply Forall_nil
         | apply Forall_cons; split;
           [ split; [reflexivity | try apply has_reserved_injected] | ] ].
  all: try match goal with
       | Hf : ExecWhenFunc _ = Some ?f,
         He : ?f ?cp ?m ?u = (_, ?g0, _),
         Hp : PreFunc _ = Some ?pf,
         Hpe : ?pf ?cp ?g0 ?u0 = (?g1, _)
         |- has_reserved _ _ ?g1 =>
           pose proof (Hew f cp m u Hf) as K1; rewrite He in K1;
           pose proof (Hpre pf cp g0 u0 Hp) as K2; rewrite Hpe in K2;
           cbn in K1, K2;
           eapply keeps_reserved_has; [|exact K2];
           eapply keeps_reserved_has; [|exact K1];
           apply has_reserved_injected
       end.
  all: try done.
  all: try (left; split_and!; reflexivity).
  all: right; eexists _, _; (split; [reflexivity|]); intros flow Hflow;
    try discriminate Hflow.
  all: injection Hflow as <-.
  all: match goal with
       | H : _ /\ _ = forallb _ _ && true /\ _ |- _ =>
           destruct H as (Hposted & -> & Hpushed)
       end.
  all: eexists; split_and!;
    [reflexivity | exact Hposted | | exact Hpushed | exact Hmap].
  all: rewrite andb_true_r in *.
  all: by destruct (forallb IsSuccess _), (ContinueWhenFailed ts).
Qed.

Lemma run_step_reserved sh caseParams ts st o st' :
  run_step sh caseParams ts st = (o, st') ->
  exists evs,
    trace st' = trace st ++ evs /\
    Forall (exec_when_ok (CoroutineParams caseParams)) (exec_when_calls evs) /\
    (hooks_keep_reserved ts ->
     Forall (plugin_call_ok (CoroutineParams caseParams)) (plugin_calls evs)).
Proof.
  intros Hrun. apply run_step_trace in Hrun as (evs & Htr & Hew & Hpl & _).
  exists evs. split_and!; [done| |].
  - eapply Forall_impl; [exact Hew|]. intros [ts' m] [Hts ?].
    cbn in Hts. by subst ts'.
  - intros Hk. eapply Forall_impl; [exact (Hpl Hk)|].
    intros [[ts' m] res] [Hts ?]. cbn in Hts. by subst ts'.
Qed.

Lemma run_steps_reserved sh caseParams steps :
  forall st o st',
    run_steps sh caseParams steps st = (o, st') ->
    exists evs,
      trace st' = trace st ++ evs /\
      Forall (exec_when_ok (CoroutineParams caseParams))
        (exec_when_calls evs) /\
      (Forall hooks_keep_reserved steps ->
       Forall (plugin_call_ok (CoroutineParams caseParams))
         (plugin_calls evs)).
Proof.
  induction steps as [|ts rest IH]; intros st o st' Hrun.
  - injection Hrun as <- <-. exists []. rewrite app_nil_r.
    split_and!; [done|constructor|intros _; constructor].
  - cbn [run_steps] in Hrun. unfold mbind, ExecM_bind in Hrun.
    destruct (run_step sh caseParams ts st) as [o1 st1] eqn:Hstep.
    apply run_step_reserved in Hstep as (evs1 & Htr1 & Hew1 & Hpl1).
    destruct o1 as [[|]| |].
    + apply IH in Hrun as (evs2 & Htr2 & Hew2 & Hpl2).
      exists (evs1 ++ evs2). rewrite Htr2, Htr1, <- app_assoc.
      unfold exec_when_calls, plugin_calls in *. rewrite !omap_app.
      split_and!; [done|by apply Forall_app|].
      intros [Hts Hrest]%Forall_cons. apply Forall_app. auto.
    + injection Hrun as <- <-. exists evs1. split_and!; [done..|].
      intros [Hts _]%Forall_cons. auto.
    + injection Hrun as <- <-. exists evs1. split_and!; [done..|].
      intros [Hts _]%Forall_cons. auto.
    + injection Hrun as <- <-. exists evs1. split_and!; [done..|].
      intros [Hts _]%Forall_cons. auto.
Qed.

Lemma run_loop_reserved sh caseParams tc fuel :
  forall st o st',
    run_loop fuel sh caseParams tc st = (o, st') ->
    exists evs,
      trace st' = trace st ++ evs /\
      Forall (exec_when_ok (CoroutineParams caseParams))
        (exec_when_calls evs) /\
      (Forall hooks_keep_reserved (Teststeps tc) ->
       Forall (plugin_call_ok (CoroutineParams caseParams))
         (plugin_calls evs)).
Proof.
  induction fuel as [|fuel IH]; intros st o st' Hrun.
  - injection Hrun as <- <-. exists []. rewrite app_nil_r.
    split_and!; [done|constructor|intros _; constructor].
  - cbn [run_loop] in Hrun.
    unfold mbind, ExecM_bind, read_shared, mret, ExecM_ret, emit in Hrun.
    cbn in Hrun. destruct (IsRunning sh (reads st)); cbn in Hrun.
    2:{ injection Hrun as <- <-. exists []. rewrite app_nil_r.
        split_and!; [done|constructor|intros _; constructor]. }
    destruct (run_steps sh caseParams (Teststeps tc) _) as [o1 st1] eqn:Hit.
    apply run_steps_reserved in Hit as (evs1 & Htr1 & Hew1 & Hpl1).
    cbn in Htr1.
    destruct o1 as [flow| |]; cycle 1.
    { injection Hrun as <- <-. by exists evs1. }
    { injection Hrun as <- <-. by exists evs1. }
    apply IH in Hrun as (evs2 & Htr2 & Hew2 & Hpl2). cbn in Htr2.
    exists (evs1 ++ EvSleep (100 * Time.Millisecond) :: evs2).
    rewrite Htr2, Htr1, <- !app_assoc.
    unfold exec_when_calls, plugin_calls in *. rewrite !omap_app. cbn.
    split_and!; [done|by apply Forall_app|].
    intros Hk. apply Forall_app. auto.
Qed.

Lemma Run_reserved fuel tc globalParams coroutineParams sh info st o st' :
  Run fuel tc globalParams coroutineParams sh info st = (o, st') ->
  exists evs,
    trace st' = trace st ++ evs /\
    Forall (exec_when_ok coroutineParams) (exec_when_calls evs) /\
    (Forall hooks_keep_reserved (Teststeps tc) ->
     Forall (plugin_call_ok coroutineParams) (plugin_calls evs)).
Proof.
  unfold Run. intros Hrun. unfold mbind, ExecM_bind in Hrun.
  destruct (run_loop fuel sh _ tc st) as [o1 st1] eqn:Hloop.
  apply run_loop_reserved in Hloop as (evs1 & Htr1 & Hew1 & Hpl1).
  cbn [CoroutineParams] in *.
  destruct o1 as [[]| |]; cycle 1.
  { injection Hrun as <- <-. by exists evs1. }
  { injection Hrun as <- <-. by exists evs1. }
  destruct (TearDown tc) as [tearDown|].
  - unfold call, emit in Hrun. cbn in Hrun. injection Hrun as <- <-.
    exists (evs1 ++ [EvTearDown coroutineParams]). cbn.
    rewrite Htr1, <- app_assoc.
    unfold exec_when_calls, plugin_calls in *. rewrite !omap_app. cbn.
    rewrite !app_nil_r. done.
  - injection Hrun as <- <-. by exists evs1.
Qed.

End EngineFacts.

Section EngineClaims.

Context {U : Type}.

Implicit Types (st : Exec U) (ts : TestStep U) (evs : list (Event U)).

Lemma coroutineParams_of_identity (cr : CaseRunner.t U) i stepName m :
  has_reserved stepName (coroutineParams_of cr i) m ->
  carries_identity (CaseName (CaseRunner.TestCase_of cr)) i stepName m.
Proof.
  intros (H1 & H2 & H3). unfold carries_identity. split_and!; [done| |].
  - rewrite H2. unfold map_get, coroutineParams_of.
    by rewrite lookup_insert_eq.
  - rewrite H3. unfold map_get, coroutineParams_of.
    by rewrite lookup_insert_ne, lookup_insert_eq by done.
Qed.

(** C1, as the code has it. In every call that an executor makes, the
    map handed to [ExecWhenFunc] holds [__name] (the name of the step),
    [__goroutine_id] and [__executor_index], with the values of the
    executor, whatever [GenReqParamsFunc] returned; the map handed to the
    plugin is the one that [ExecWhenFunc] and [PreFunc] leave, so it holds
    the three keys when these hooks keep them. The keys of the worker are
    written to [coroutineParams] only. *)
Theorem reserved_keys_of_requests (fuel : nat) (cr : CaseRunner.t U)
    (i : Z) (sh : Shared) st :
  let tc := CaseRunner.TestCase_of cr in
  let evs := events_since st (executor fuel cr i sh st).2 in
  Forall (fun c => carries_identity (CaseName tc) i (StepName c.1) c.2)
    (exec_when_calls evs) /\
  (Forall hooks_keep_reserved (Teststeps tc) ->
   Forall (fun c => carries_identity (CaseName tc) i (StepName c.1.1) c.1.2)
     (plugin_calls evs)).
Proof.
  intros tc evs. subst evs. unfold executor.
  destruct (Run fuel _ _ _ sh _ st) as [o st'] eqn:Hrun.
  apply Run_reserved in Hrun as (evs & Htr & Hew & Hpl).
  cbn [snd]. rewrite (events_since_app _ _ _ Htr). split.
  - eapply Forall_impl; [exact Hew|]. intros [ts m] Hc.
    by apply coroutineParams_of_identity.
  - intros Hk. eapply Forall_impl; [exact (Hpl Hk)|]. intros [[ts m] res] Hc.
    by apply coroutineParams_of_identity.
Qed.

End EngineClaims.

Lemma default_hooks_keep_reserved {U} (tc : TestCase U) (ts : TestStep U) :
  ExecWhenFunc ts = None -> PreFunc ts = None ->
  Forall hooks_keep_reserved (Teststeps tc) ->
  Forall hooks_keep_reserved (Teststeps (AddStep tc ts)).
Proof.
  intros He Hp Hall. unfold AddStep. cbn. rewrite He, Hp.
  apply Forall_app. split; [done|]. constructor; [|constructor].
  split; cbn; by intros f caseParams m u [= <-].
Qed.

Lemma reserved_keys_of_requests_witness :
  Forall (fun c => carries_identity "api_test" 0 (StepName c.1.1) c.1.2)
    (plugin_calls
       (events_since start
          (executor 2 (runner_of login_case) 0 (running_for 3) start).2)).
Proof.
  apply (proj2 (reserved_keys_of_requests 2 (runner_of login_case) 0
                  (running_for 3) start)).
  apply (default_hooks_keep_reserved (NewTestCase "api_test"));
    [reflexivity | reflexivity | constructor].
Defined.

(** C1 fails as stated: with the parameter generator of the README the
    plugin is called once, with a map that holds the two keys of the
    generator and the three keys that [Run] writes, and none of
    [__worker_total], [__worker_index], [__worker_size] or
    [__worker_concurrency]. *)
Lemma worker_keys_not_injected :
  exists ts res,
    let m : Params :=
      <[InnerVarExecutorIndex := "0"]>
        (<[InnerVarGoroutineId := "api_test-0"]>
           (<[InnerVarName := "login"]>
              (<["username" := "test"]> (<["password" := "123456"]> ∅)))) in
    plugin_calls
      (events_since start
         (executor 2 (runner_of login_case) 0 (running_for 3) start).2)
    = [(ts, m, res)] /\
    m !! InnerVarWorkerTotal = None /\
    m !! InnerVarWorkerIndex = None /\
    m !! InnerVarWorkerSize = None /\
    m !! "__worker_concurrency" = None.
Proof.
  eexists _, _. cbv zeta. split; [vm_compute; reflexivity|].
  split_and!; vm_compute; reflexivity.
Qed.

Section StepClaims.

Context {U : Type}.

Implicit Types (st : Exec U) (ts : TestStep U) (tc : TestCase U).

(** C2, as the code has it. While the output channel is attached, a pass
    through a step that ends without a panic pushes, for the record [res]
    that the plugin returned: [res] itself, once, when it has no
    sub-records; its k sub-records, in order, each once, and not [res],
    when it has k >= 1 of them. A sub-record is pushed as it is, with the
    sub-records of its own that it may carry: the flattening is one
    level deep. *)
Theorem plugin_record_flattened_one_level sh caseParams ts st flow st' :
  (forall n, ResChansAttached sh n = true) ->
  run_step sh caseParams ts st = (Done flow, st') ->
  Forall (fun c =>
            exists res,
              c.2 = Some res /\
              pushed (events_since st st') = reported res /\
              (SubResults res = [] ->
               pushed (events_since st st') = [res]) /\
              (SubResults res <> [] ->
               map DynResult (pushed (events_since st st')) = SubResults res))
    (plugin_calls (events_since st st')).
Proof.
  intros Hatt Hrun.
  apply run_step_trace in Hrun as (evs & Htr & _ & _ & Hcalls).
  rewrite (events_since_app _ _ _ Htr).
  destruct Hcalls as [(-> & _)|(m & res & -> & Hdone)]; [constructor|].
  destruct (Hdone flow eq_refl) as (r & -> & _ & _ & Hpush & Hmap).
  constructor; [|constructor]. exists r. cbn.
  rewrite (Hpush Hatt). split_and!; [done..| |done].
  intros Hnil. unfold reported. by rewrite Hnil.
Qed.

Lemma run_steps_app sh caseParams (l1 l2 : list (TestStep U)) st st1 :
  run_steps sh caseParams l1 st = (Done Next, st1) ->
  run_steps sh caseParams (l1 ++ l2) st = run_steps sh caseParams l2 st1.
Proof.
  revert st. induction l1 as [|ts l1 IH]; intros st Hrun.
  - by injection Hrun as <-.
  - cbn [run_steps app] in *. unfold mbind, ExecM_bind in *.
    destruct (run_step sh caseParams ts st) as [[[|]| |] st0]; try done.
    by apply IH.
Qed.

(** C5. When the records that a step reported include a failure and the
    step does not continue on failure, the pass through that step ends
    in [break] after [PostFunc] has seen every record of the step (and the
    channel has got them, when attached); the iteration ends in the state
    that the step left, so no later step adds anything to it; after the
    pause the loop, if the case is still running, goes through the steps
    of the case again from the first. *)
Theorem failed_step_ends_iteration sh caseParams tc prefix ts rest
    st0 st1 st2 flow :
  Teststeps tc = prefix ++ ts :: rest ->
  IsRunning sh (reads st0) = true ->
  run_steps sh caseParams prefix (tick st0) = (Done Next, st1) ->
  run_step sh caseParams ts st1 = (Done flow, st2) ->
  ContinueWhenFailed ts = false ->
  Exists (fun r => IsSuccess r = false) (posted (events_since st1 st2)) ->
  flow = Break /\
  run_steps sh caseParams (Teststeps tc) (tick st0) = (Done Break, st2) /\
  (exists m res,
     plugin_calls (events_since st1 st2) = [(ts, m, Some res)] /\
     posted (events_since st1 st2) = reported res /\
     ((forall n, ResChansAttached sh n = true) ->
      pushed (events_since st1 st2) = reported res)) /\
  (forall fuel,
     run_loop (S fuel) sh caseParams tc st0 =
     run_loop fuel sh caseParams tc (slept st2)) /\
  (forall fuel,
     IsRunning sh (reads st2) = true ->
     run_loop (S fuel) sh caseParams tc (slept st2) =
     (run_steps sh caseParams (Teststeps tc) ≫= fun _ =>
      emit (EvSleep (100 * Time.Millisecond)) ≫= fun _ =>
      run_loop fuel sh caseParams tc) (tick (slept st2))).
Proof.
  intros Hsteps Hrunning Hprefix Hstep Hcwf Hfail.
  pose proof Hstep as Htrace.
  apply run_step_trace in Htrace as (evs & Htr & _ & _ & Hcalls).
  rewrite (events_since_app _ _ _ Htr) in *.
  destruct Hcalls as [(_ & Hposted & _)|(m & res & Hcall & Hdone)].
  { rewrite Hposted in Hfail. by apply Exists_nil in Hfail. }
  destruct (Hdone flow eq_refl) as (r & -> & Hposted & Hflow & Hpush & _).
  assert (forallb IsSuccess (reported r) = false) as Hnot.
  { rewrite Hposted in Hfail. apply Exists_exists in Hfail as (x & Hx & Hf).
    apply not_true_is_false. intros Hall.
    rewrite forallb_forall in Hall.
    apply list_elem_of_In in Hx. rewrite (Hall x Hx) in Hf. done. }
  rewrite Hnot, Hcwf in Hflow. cbn in Hflow. subst flow.
  assert (run_steps sh caseParams (Teststeps tc) (tick st0) =
          (Done Break, st2)) as Hiter.
  { rewrite Hsteps, (run_steps_app _ _ _ _ _ _ Hprefix).
    cbn [run_steps]. unfold mbind, ExecM_bind. by rewrite Hstep. }
  split_and!; [done|done| |intros fuel|intros fuel Hstill].
  - by exists m, r.
  - cbn [run_loop].
    unfold mbind, ExecM_bind, read_shared, mret, ExecM_ret, emit.
    rewrite Hrunning. cbn. fold (tick st0). by rewrite Hiter.
  - cbn [run_loop].
    unfold mbind at 1, ExecM_bind at 1, read_shared.
    cbn [slept reads]. by rewrite Hstill.
Qed.

(** C10, as the code has it. [AcquireResult] returns a record with
    [Success = true] and [ResponseCode = 0]; its two time stamps are the
    two readings of the clock that it takes, one after the other. A
    plugin that returns the record as acquired has it reported as it is
    (it has no sub-records): pushed once on the attached channel, folded
    as a success into the flag of the step, and counted by the
    aggregator under keys with [success = true] and [statusCode = 0]. *)
Theorem acquired_record_is_a_success name c :
  let r := (AcquireResult name c).1 in
  Success r = true /\ ResponseCode r = 0 /\
  BeginTime r = Time.readings c (Time.cursor c) /\
  EndTime r = Time.readings c (S (Time.cursor c)) /\
  reported r = [r] /\
  (forall (cr : CaseRunner.t U),
     Forall (fun k => Key.Success k = true /\ Key.StatusCode k = 0)
       (keys_of cr r)) /\
  (forall sh caseParams ts st flow st' m,
     (forall n, ResChansAttached sh n = true) ->
     run_step sh caseParams ts st = (Done flow, st') ->
     plugin_calls (events_since st st') = [(ts, m, Some r)] ->
     pushed (events_since st st') = [r] /\ flow = Next).
Proof.
  intros r. destruct (AcquireResult_fields name c) as (_ & Hs & Hc & Hb & He & Hsub).
  fold r in Hs, Hc, Hb, He, Hsub.
  assert (reported r = [r]) as Hrep by (unfold reported; by rewrite Hsub).
  split_and!; try done.
  - intros cr. unfold keys_of, IsSuccess, GetResponseCode.
    rewrite Hs, Hc. by repeat constructor.
  - intros sh caseParams ts st flow st' m Hatt Hrun Hcall.
    apply run_step_trace in Hrun as (evs & Htr & _ & _ & Hcalls).
    rewrite (events_since_app _ _ _ Htr) in *.
    destruct Hcalls as [(Hnil & _)|(m' & res & Hcall' & Hdone)].
    { by rewrite Hnil in Hcall. }
    rewrite Hcall in Hcall'. injection Hcall' as <- <-.
    destruct (Hdone flow eq_refl) as (r' & [= <-] & _ & Hflow & Hpush & _).
    rewrite Hrep in *. split; [by apply Hpush|].
    cbn [forallb] in Hflow. unfold IsSuccess in Hflow.
    by rewrite Hs in Hflow.
Qed.

End StepClaims.

Lemma plugin_record_flattened_one_level_witness :
  let sh := running_for 9 in
  let caseParams := params_of batch_case in
  let st' := (run_step sh caseParams (first_step batch_case) start).2 in
  Forall (fun c =>
            exists res,
              c.2 = Some res /\
              pushed (events_since start st') = reported res /\
              (SubResults res = [] ->
               pushed (events_since start st') = [res]) /\
              (SubResults res <> [] ->
               map DynResult (pushed (events_since start st')) =
               SubResults res))
    (plugin_calls (events_since start st')).
Proof.
  cbv zeta.
  apply (plugin_record_flattened_one_level (running_for 9)
           (params_of batch_case) (first_step batch_case) start Break).
  - intros n. reflexivity.
  - vm_compute. reflexivity.
Defined.

(** C2 fails as stated: the sub-record that is pushed for the parent of
    [nested_plugin] has a sub-record of its own. *)
Lemma pushed_record_with_sub_results :
  exists r,
    pushed
      (events_since start
         (run_step (running_for 9) (params_of nested_case)
            (first_step nested_case) start).2) = [r] /\
    Name r = "batch-item" /\
    length (SubResults r) = 1%nat.
Proof. eexists. split; [vm_compute; reflexivity|]. split; reflexivity. Qed.

Lemma failed_step_ends_iteration_witness :
  let sh := running_for 9 in
  let caseParams := params_of checkout_case in
  let st2 :=
    (run_step sh caseParams (first_step checkout_case) (tick start)).2 in
  run_steps sh caseParams (Teststeps checkout_case) (tick start) =
    (Done Break, st2) /\
  length (plugin_calls (events_since start st2)) = 1%nat.
Proof.
  cbv zeta. split; [|vm_compute; reflexivity].
  apply (failed_step_ends_iteration (running_for 9)
           (params_of checkout_case) checkout_case []
           (first_step checkout_case) (tail (Teststeps checkout_case))
           start (tick start) _ Break).
  - reflexivity.
  - reflexivity.
  - reflexivity.
  - vm_compute. reflexivity.
  - reflexivity.
  - vm_compute. constructor. reflexivity.
Defined.

Lemma acquired_record_is_a_success_witness :
  let r := (AcquireResult "ping" (Time.clock_of [] 0)).1 in
  pushed
    (events_since start
       (run_step (running_for 9) (params_of bare_case)
          (first_step bare_case) start).2)
  = [r].
Proof.
  cbv zeta.
  destruct (acquired_record_is_a_success (U := Time.Clock) "ping"
              (Time.clock_of [] 0)) as (_ & _ & _ & _ & _ & _ & Hrun).
  refine (proj1 (Hrun (running_for 9) (params_of bare_case)
           (first_step bare_case) start Next
           (run_step (running_for 9) (params_of bare_case)
              (first_step bare_case) start).2
           (<[InnerVarExecutorIndex := "0"]>
              (<[InnerVarGoroutineId := "bare-0"]>
                 (<[InnerVarName := "ping"]>
                    (<["username" := "test"]>
                       (<["password" := "123456"]> ∅))))) _ _ _)).
  - intros n. reflexivity.
  - vm_compute. reflexivity.
  - vm_compute. reflexivity.
Defined.

(** C10 fails as stated: when the millisecond clock advances between the
    two readings that [AcquireResult] takes, the record is returned with
    [BeginTime] before [EndTime]. *)
Lemma acquired_record_stamps_differ :
  let r := (AcquireResult "login" (Time.clock_of [1000; 1001] 1001)).1 in
  BeginTime r = 1000 /\ EndTime r = 1001 /\ BeginTime r <> EndTime r.
Proof. cbv zeta. split_and!; [reflexivity | reflexivity | by vm_compute]. Qed.

(** ** The ramp schedule beyond 64 bits *)

Lemma widen_stuck_pow2 k R :
  0 <= k <= 64 -> 2 ^ 64 - 2 ^ k < R ->
  forall fuel d, Ramp.widen fuel (2 ^ k) R 0 d = None.
Proof.
  intros Hk HR. apply widen_stuck. intros u. rewrite u64_mul_pow2 by done.
  assert (0 < 2 ^ (64 - k)) by (apply Z.pow_pos_nonneg; lia).
  pose proof (Z.mod_pos_bound u (2 ^ (64 - k)) ltac:(done)) as Hu.
  assert (2 ^ k * 2 ^ (64 - k) = 2 ^ 64) as Hpow.
  { rewrite <- Z.pow_add_r by lia. f_equal. lia. }
  assert (0 < 2 ^ k) by (apply Z.pow_pos_nonneg; lia).
  nia.
Qed.

Lemma limiter_stuck_pow2 k fuel :
  1 <= k < 64 ->
  Ramp.limiter fuel (info_of (2 ^ k) (2 ^ 64 - 1)) = None.
Proof.
  intros Hk. unfold Ramp.limiter.
  cbn [RampingSeconds MaxConcurrencyInThisWoker info_of].
  assert (1 < 2 ^ k) by (apply Z.pow_gt_1; lia).
  assert (2 ^ k <= 2 ^ 63) as Hle by (apply Z.pow_le_mono_r; lia).
  change (2 ^ 63) with 9223372036854775808 in Hle.
  assert (2 ^ 64 = 18446744073709551616) as H64 by done.
  destruct (Z.ltb_spec 0 (2 ^ 64 - 1)); [|lia].
  rewrite Z.div_small by lia.
  apply widen_stuck_pow2; lia.
Qed.

(** C7 fails as stated: with [N = 2^61] and [R = 2^64 - 1] the smallest
    window with a positive budget is 8 seconds, but [N * 8] is reduced
    to 0 in 64 bits, every later product is a multiple of [2^61] below
    [R], and the loop never gets a positive budget: no limiter is made. *)
Lemma ramp_claim_fails_on_wrap :
  smallest_window (2 ^ 61) (2 ^ 64 - 1) 8 /\
  ~ ramp_claim (info_of (2 ^ 61) (2 ^ 64 - 1)).
Proof.
  split.
  - split_and!; [lia|by vm_compute|].
    intros v Hv. apply Z.div_small.
    change (2 ^ 61) with 2305843009213693952.
    change (2 ^ 64) with 18446744073709551616. lia.
  - intros (fuel & w & _ & Hlim).
    rewrite limiter_stuck_pow2 in Hlim by lia. done.
Qed.

(** ** The slice of a worker *)

Section WorkerRunnerFacts.

Context {U : Type}.

(** What [RealRun] has computed when it starts a Case Runner. *)
Lemma RealRun_Launch rsp (rw rw' : WorkerRunner.t U) cr :
  RealRun (Some rsp) rw = (rw', WorkerRunner.Launch cr) ->
  exists wi tci b tc,
    RspWorkerPushStatus.Worker_of rsp ≫= Worker.BaseInfo = Some wi /\
    RspWorkerPushStatus.ShouldRunCase rsp = true /\
    RspWorkerPushStatus.TestCaseInfo_of rsp = Some tci /\
    TestCaseInfo.BaseInfo tci = Some b /\
    WorkerRunner.CaseMaps rw !! CaseBaseInfo.Name b = Some tc /\
    let workerConc := Int.i64 (CaseBaseInfo.WorkerConcurrency b) in
    let remaining :=
      Int.i64 (Int.i64 (CaseBaseInfo.TotalMaxConcurrency b) -
               Int.i64 (workerConc * WorkerBaseInfo.Index wi)) in
    0 < remaining /\
    MaxConcurrencyInThisWoker (CaseRunner.Info cr) =
      (if remaining <? workerConc then Int.u64 remaining
       else Int.u64 workerConc) /\
    RampingSeconds (CaseRunner.Info cr) = CaseBaseInfo.RampingSeconds b /\
    CaseRunner.TestCase_of cr = tc /\
    WorkerBaseInfo.Status (WorkerRunner.BaseInfo rw') = "running" /\
    WorkerRunner.RunningCaseRunner rw' = Some cr.
Proof.
  unfold RealRun. intros Hrun.
  destruct (RspWorkerPushStatus.Worker_of rsp ≫= Worker.BaseInfo)
    as [wi|] eqn:Hwi; [|done].
  destruct (RspWorkerPushStatus.ShouldRunCase rsp) eqn:Hshould.
  2:{ destruct (RspWorkerPushStatus.ShouldStopCase rsp); [|done].
      by destruct (WorkerRunner.RunningCaseRunner _). }
  destruct (RspWorkerPushStatus.TestCaseInfo_of rsp) as [tci|] eqn:Htci;
    [|done].
  destruct (TestCaseInfo.BaseInfo tci) as [b|] eqn:Hb; [|done].
  cbn [set_Index WorkerRunner.CaseMaps WorkerRunner.BaseInfo
       WorkerBaseInfo.Index] in Hrun.
  destruct (WorkerRunner.CaseMaps rw !! CaseBaseInfo.Name b) as [tc|] eqn:Htc;
    [|done].
  destruct (Z.leb_spec
    (Int.i64 (Int.i64 (CaseBaseInfo.TotalMaxConcurrency b) -
              Int.i64 (Int.i64 (CaseBaseInfo.WorkerConcurrency b) *
                       WorkerBaseInfo.Index wi))) 0) as [|Hpos];
    cbv beta iota zeta in Hrun; [done|].
  injection Hrun as <- <-. exists wi, tci, b, tc. by split_and!.
Qed.

(** The slice that [RealRun] computes, for a worker concurrency of at
    least 1 and values that fit in an [int64]: the slice of the
    specification; nothing is started and the status is left alone when
    it is 0, and a Case Runner with that concurrency is started, and the
    worker marked running, when it is positive. *)
Theorem RealRun_slice_in_range rsp w wi tci b tc (rw : WorkerRunner.t U) :
  let T := CaseBaseInfo.TotalMaxConcurrency b in
  let C := CaseBaseInfo.WorkerConcurrency b in
  let i := WorkerBaseInfo.Index wi in
  RspWorkerPushStatus.Worker_of rsp = Some w ->
  Worker.BaseInfo w = Some wi ->
  RspWorkerPushStatus.ShouldRunCase rsp = true ->
  RspWorkerPushStatus.TestCaseInfo_of rsp = Some tci ->
  TestCaseInfo.BaseInfo tci = Some b ->
  WorkerRunner.CaseMaps rw !! CaseBaseInfo.Name b = Some tc ->
  0 <= T < Int.two63 -> 1 <= C < Int.two63 -> 0 <= i -> C * i < Int.two63 ->
  (effective T C i = 0 ->
   RealRun (Some rsp) rw = (set_Index i rw, WorkerRunner.NoAction)) /\
  (0 < effective T C i ->
   exists cr,
     RealRun (Some rsp) rw =
       (set_RunningCaseRunner (Some cr) (set_Status "running" (set_Index i rw)),
        WorkerRunner.Launch cr) /\
     MaxConcurrencyInThisWoker (CaseRunner.Info cr) = effective T C i /\
     CaseRunner.TestCase_of cr = tc).
Proof.
  intros T C i Hw Hwi Hrun Htci Hb Htc HT HC Hi HCi.
  unfold RealRun. rewrite Hw. cbn [mbind option_bind]. rewrite Hwi, Hrun, Htci, Hb.
  cbn [set_Index WorkerRunner.CaseMaps WorkerRunner.BaseInfo
       WorkerBaseInfo.Index]. rewrite Htc.
  fold T C i. unfold Int.two63 in *.
  rewrite (i64_small T), (i64_small C) by (unfold Int.two63; lia).
  rewrite (i64_small (C * i)) by (unfold Int.two63; nia).
  rewrite (i64_small (T - C * i)) by (unfold Int.two63; nia).
  unfold effective.
  destruct (Z.leb_spec (T - C * i) 0) as [Hle|Hgt].
  - split; [done|]. lia.
  - split; [lia|]. intros _. eexists. split; [reflexivity|].
    cbn [CaseRunner.Info CaseRunner.TestCase_of MaxConcurrencyInThisWoker].
    split; [|done].
    destruct (Z.ltb_spec (T - C * i) C);
      rewrite u64_small by (unfold Int.two64; lia); lia.
Qed.

End WorkerRunnerFacts.

Lemma RealRun_slice_in_range_witness :
  RealRun (Some (response 10 4 0 3)) worker_with_case =
    (set_Index 3 worker_with_case, WorkerRunner.NoAction) /\
  exists cr,
    RealRun (Some (response 10 4 0 2)) worker_with_case =
      (set_RunningCaseRunner (Some cr)
         (set_Status "running" (set_Index 2 worker_with_case)),
       WorkerRunner.Launch cr) /\
    MaxConcurrencyInThisWoker (CaseRunner.Info cr) = effective 10 4 2 /\
    CaseRunner.TestCase_of cr = NewTestCase "api_test".
Proof.
  pose (b := CaseBaseInfo.mk "api_test" ∅ 10 0 1 "worker-1" 4 "task-1").
  split.
  - pose (wi := WorkerBaseInfo.mk "worker-1" "id-1" 3 "idle" []).
    refine (proj1 (RealRun_slice_in_range (response 10 4 0 3)
                     (Worker.mk (Some wi) 0) wi (TestCaseInfo.mk (Some b) 1) b
                     (NewTestCase "api_test")
                     worker_with_case _ _ _ _ _ _ _ _ _ _) _);
      try reflexivity; try (unfold Int.two63; cbn; lia).
  - pose (wi := WorkerBaseInfo.mk "worker-1" "id-1" 2 "idle" []).
    refine (proj2 (RealRun_slice_in_range (response 10 4 0 2)
                     (Worker.mk (Some wi) 0) wi (TestCaseInfo.mk (Some b) 1) b
                     (NewTestCase "api_test")
                     worker_with_case _ _ _ _ _ _ _ _ _ _) _);
      try reflexivity; try (unfold Int.two63; cbn; lia).
Defined.

(** C4, the code at a worker concurrency of 0. The specification's slice
    is 0, so nothing should be started; [RealRun] tests the remaining
    concurrency only (5 here), marks the worker running and starts a Case
    Runner with a concurrency of 0. *)
Theorem zero_worker_concurrency_is_launched :
  effective 5 0 0 = 0 /\
  WorkerBaseInfo.Status (WorkerRunner.BaseInfo worker_with_case) = "idle" /\
  exists cr rw',
    RealRun (Some (response 5 0 1 0)) worker_with_case =
      (rw', WorkerRunner.Launch cr) /\
    MaxConcurrencyInThisWoker (CaseRunner.Info cr) = 0 /\
    WorkerBaseInfo.Status (WorkerRunner.BaseInfo rw') = "running" /\
    WorkerRunner.RunningCaseRunner rw' = Some cr.
Proof.
  split; [reflexivity|]. split; [reflexivity|].
  eexists _, _. split; [vm_compute; reflexivity|].
  split_and!; reflexivity.
Qed.

(** A worker concurrency of 2^63 is negative as an [int64]: the slice of
    the specification is 5, the Case Runner gets 2^63. *)
Lemma huge_worker_concurrency_wraps :
  effective 5 (2 ^ 63) 0 = 5 /\
  exists cr rw',
    RealRun (Some (response 5 (2 ^ 63) 1 0)) worker_with_case =
      (rw', WorkerRunner.Launch cr) /\
    MaxConcurrencyInThisWoker (CaseRunner.Info cr) = 2 ^ 63.
Proof.
  split; [reflexivity|].
  eexists _, _. split; [vm_compute; reflexivity|]. reflexivity.
Qed.

(** C9, as the code has it. For a ramp of 1 to 9223372036 seconds and a
    concurrency below 2^63 the loop ends if and only if the concurrency
    is at least 1, and then within [R] rounds; with a concurrency of 0
    it never ends, whatever [R > 0]. A Case Runner that [RealRun] starts
    for a worker concurrency between 1 and 2^63 - 1 has a concurrency of
    at least 1. *)
Theorem widening_ends_in_range (info : CaseRunnerInfo) :
  let N := MaxConcurrencyInThisWoker info in
  let R := RampingSeconds info in
  (0 < R -> N = 0 -> forall fuel, Ramp.limiter fuel info = None) /\
  (1 <= R <= 9223372036 -> 0 <= N < Int.two63 ->
   ((exists fuel l, Ramp.limiter fuel info = Some l) <-> 1 <= N) /\
   (1 <= N -> exists l, Ramp.limiter (S (Z.to_nat R)) info = Some l)) /\
  (forall U rsp tci b (rw rw' : WorkerRunner.t U) cr,
     RealRun (Some rsp) rw = (rw', WorkerRunner.Launch cr) ->
     RspWorkerPushStatus.TestCaseInfo_of rsp = Some tci ->
     TestCaseInfo.BaseInfo tci = Some b ->
     1 <= CaseBaseInfo.WorkerConcurrency b < Int.two63 ->
     1 <= MaxConcurrencyInThisWoker (CaseRunner.Info cr) < Int.two63).
Proof.
  intros N R.
  pose proof (limiter_idle info) as Hzero. fold N R in Hzero.
  split_and!; [done| |].
  - intros HR HN.
    assert (1 <= N -> exists l, Ramp.limiter (S (Z.to_nat R)) info = Some l)
      as Hends.
    { intros HN1.
      destruct (limiter_reaches info) as (w & _ & _ & Hl);
        [fold N; lia|done|]. eauto. }
    split; [|done]. split.
    + intros (fuel & l & Hl). destruct (decide (N = 0)) as [H0|]; [|lia].
      rewrite Hzero in Hl by (done || lia). done.
    + intros HN1. destruct (Hends HN1) as [l Hl]. eauto.
  - intros V rsp tci b rw rw' cr Hrun Htci Hb HC.
    apply RealRun_Launch in Hrun
      as (wi & tci' & b' & tc & _ & _ & Htci' & Hb' & _ & Hpos & HN & _).
    rewrite Htci in Htci'. injection Htci' as <-.
    rewrite Hb in Hb'. injection Hb' as <-.
    rewrite (i64_small (CaseBaseInfo.WorkerConcurrency b)) in *
      by (unfold Int.two63 in *; lia).
    set (remaining := Int.i64 _) in *. rewrite HN.
    unfold Int.two63 in *.
    destruct (Z.ltb_spec remaining (CaseBaseInfo.WorkerConcurrency b));
      rewrite u64_small by (unfold Int.two64; lia); lia.
Qed.

Lemma widening_ends_in_range_witness :
  (forall fuel, Ramp.limiter fuel (info_of 0 5) = None) /\
  (((exists fuel l, Ramp.limiter fuel (info_of 3 10) = Some l) <-> 1 <= 3) /\
   (1 <= 3 -> exists l, Ramp.limiter 11 (info_of 3 10) = Some l)) /\
  exists cr rw',
    RealRun (Some (response 10 4 0 2)) worker_with_case =
      (rw', WorkerRunner.Launch cr) /\
    1 <= MaxConcurrencyInThisWoker (CaseRunner.Info cr) < Int.two63.
Proof.
  split; [|split].
  - apply (proj1 (widening_ends_in_range (info_of 0 5))).
    + cbn. lia.
    + reflexivity.
  - apply (proj1 (proj2 (widening_ends_in_range (info_of 3 10)))).
    + cbn. lia.
    + unfold Int.two63. cbn. lia.
  - eexists _, _. split; [vm_compute; reflexivity|].
    pose (b := CaseBaseInfo.mk "api_test" ∅ 10 0 1 "worker-1" 4 "task-1").
    refine (proj2 (proj2 (widening_ends_in_range (info_of 3 10)))
              unit (response 10 4 0 2) (TestCaseInfo.mk (Some b) 1) b
              worker_with_case _ _ _ _ _ _).
    + vm_compute; reflexivity.
    + reflexivity.
    + reflexivity.
    + unfold Int.two63. cbn. lia.
Defined.

(** C9 fails as stated. With [N = 2^62 >= 1] and [R = 2^64 - 1] the
    loop never ends: every product [N * w] is, in 64 bits, a multiple of
    [2^62] below [R]. And a worker concurrency of 0 does reach the loop
    with [N = 0]: [RealRun] starts the Case Runner (the remaining
    concurrency, 5, is positive), whose loop never ends. *)
Lemma widening_never_ends :
  1 <= 2 ^ 62 /\
  ~ (exists fuel l,
       Ramp.limiter fuel (info_of (2 ^ 62) (2 ^ 64 - 1)) = Some l) /\
  exists cr rw',
    RealRun (Some (response 5 0 1 0)) worker_with_case =
      (rw', WorkerRunner.Launch cr) /\
    MaxConcurrencyInThisWoker (CaseRunner.Info cr) = 0 /\
    RampingSeconds (CaseRunner.Info cr) = 1 /\
    ~ (exists fuel l, Ramp.limiter fuel (CaseRunner.Info cr) = Some l).
Proof.
  split_and!; [done| |].
  - intros (fuel & l & Hl). by rewrite limiter_stuck_pow2 in Hl.
  - eexists _, _. split; [vm_compute; reflexivity|].
    split_and!; [reflexivity..|].
    intros (fuel & l & Hl). rewrite limiter_idle in Hl; done.
Qed.

(** ** The aggregator *)

Section AggregatorFacts.

Context `{TDigestLib} {U : Type}.

Implicit Types (m : gmap CallTimeMapKey TDigest) (k : CallTimeMapKey).

Lemma SerializeTDigest_centroids (td : TDigest) :
  SerializeTDigest td =
  (fun c => mkTDNode c.1 c.2) <$> tdigest_Centroids td.
Proof.
  unfold SerializeTDigest.
  assert (forall cs acc,
            ForEachCentroid cs
              (fun mean count rslice => (true, rslice ++ [mkTDNode mean count]))
              acc = acc ++ ((fun c => mkTDNode c.1 c.2) <$> cs)) as Hgen.
  { induction cs as [|[mean count] cs IH]; intros acc; cbn.
    - by rewrite app_nil_r.
    - by rewrite IH, <- app_assoc. }
  by rewrite Hgen.
Qed.

Lemma pass_fold ts (drop : CallTimeMapKey -> bool)
    (l : list (CallTimeMapKey * TDigest)) :
  forall metrics m,
    foldl (fun '(metrics, m) '(k, v) =>
             (metrics ++
                [mkCallTimeMetric (Key.with_Ts ts k) (SerializeTDigest v)],
              if drop k then delete k m else m))
      (metrics, m) l =
    (metrics ++
       ((fun kv => mkCallTimeMetric (Key.with_Ts ts kv.1)
                     (SerializeTDigest kv.2)) <$> l),
     foldl (fun m kv => if drop kv.1 then delete kv.1 m else m) m l).
Proof.
  induction l as [|[k v] l IH]; intros metrics m; cbn.
  - by rewrite app_nil_r.
  - by rewrite IH, <- app_assoc.
Qed.

Lemma prune_lookup (drop : CallTimeMapKey -> bool)
    (l : list (CallTimeMapKey * TDigest)) :
  forall m k,
    foldl (fun m kv => if drop kv.1 then delete kv.1 m else m) m l !! k =
    if drop k && bool_decide (k ∈ l.*1) then None else m !! k.
Proof.
  induction l as [|[k' v] l IH]; intros m k; cbn.
  - by rewrite andb_false_r.
  - rewrite IH. destruct (decide (k = k')) as [->|Hne].
    + rewrite (bool_decide_eq_true_2 (k' ∈ k' :: l.*1)) by left.
      destruct (drop k'); cbn.
      * rewrite lookup_delete_eq. by destruct (bool_decide _).
      * done.
    + rewrite (bool_decide_ext (k ∈ k' :: l.*1) (k ∈ l.*1))
        by (rewrite elem_of_cons; tauto).
      destruct (drop k'); [|done]. by rewrite lookup_delete_ne.
Qed.

(** A pass emits every entry of the map and leaves the entries that
    [drop] does not select. *)
Lemma pass_spec ts (drop : CallTimeMapKey -> bool) m :
  pass ts drop m =
  (batch ts m, filter (fun kv => drop kv.1 = false) m).
Proof.
  unfold pass. rewrite pass_fold. cbn. f_equal.
  apply map_eq. intros k. rewrite prune_lookup, map_lookup_filter.
  destruct (m !! k) as [v|] eqn:Hk; cbn.
  - assert (k ∈ (map_to_list m).*1) as Hin.
    { apply list_elem_of_fmap. exists (k, v).
      split; [done|]. by apply elem_of_map_to_list. }
    rewrite (bool_decide_eq_true_2 _ Hin), andb_true_r.
    destruct (drop k); cbn; by case_guard.
  - by destruct (_ && _).
Qed.

Lemma rollover_pass_spec ts m :
  rollover_pass ts m =
  (batch ts m, filter (fun kv => is_integral kv.1 = true) m).
Proof.
  change (rollover_pass ts m) with (pass ts (fun k => negb (is_integral k)) m).
  rewrite pass_spec. f_equal. apply map_filter_ext. intros k v _. cbn.
  by destruct (is_integral k).
Qed.

Lemma final_pass_spec ts m : final_pass ts m = (batch ts m, ∅).
Proof.
  change (final_pass ts m) with (pass ts (fun _ => true) m).
  rewrite pass_spec. f_equal. apply map_eq. intros k.
  rewrite lookup_empty. apply map_lookup_filter_None. right. by intros.
Qed.

Lemma keys_of_NoDup (cr : CaseRunner.t U) res : NoDup (keys_of cr res).
Proof.
  unfold keys_of. repeat (apply NoDup_cons; split); [..|apply NoDup_nil_2].
  all: rewrite ?not_elem_of_cons; split_and?; try apply not_elem_of_nil.
  all: intros Heq; injection Heq; intros; discriminate.
Qed.

Lemma keys_of_integral (cr : CaseRunner.t U) res k :
  k ∈ keys_of cr res ->
  Key.MetricName k = (if is_integral k then "step_call_integral"
                      else "step_call").
Proof.
  unfold keys_of. rewrite !elem_of_cons, elem_of_nil.
  intros [->|[->|[->|[->|[]]]]]; reflexivity.
Qed.

Lemma add_sample_lookup res m a k :
  add_sample res m a !! k =
  if decide (k = a)
  then Some (absorb (default tdigest_New (m !! a)) (latency res))
  else m !! k.
Proof.
  unfold add_sample, absorb. destruct (decide (k = a)) as [->|Hne].
  - rewrite lookup_insert_eq. by destruct (m !! a).
  - by rewrite lookup_insert_ne.
Qed.

Lemma add_samples_lookup res (keys : list CallTimeMapKey) :
  NoDup keys ->
  forall m k,
    foldl (add_sample res) m keys !! k =
    if decide (k ∈ keys)
    then Some (absorb (default tdigest_New (m !! k)) (latency res))
    else m !! k.
Proof.
  induction keys as [|a keys IH]; intros Hnd m k; cbn [foldl].
  - by rewrite decide_False by apply not_elem_of_nil.
  - apply NoDup_cons in Hnd as [Ha Hnd].
    rewrite (IH Hnd), add_sample_lookup.
    destruct (decide (k = a)) as [->|Hne].
    + rewrite (decide_False (P := a ∈ keys)) by done.
      by rewrite (decide_True (P := a ∈ a :: keys)) by left.
    + destruct (decide (k ∈ keys)) as [Hin|Hout].
      * by rewrite decide_True by (by right).
      * rewrite decide_False; [done|]. by rewrite not_elem_of_cons.
Qed.

Lemma sketch_of_snoc (l : list Z) x :
  sketch_of (l ++ [x]) =
  Some (absorb (default tdigest_New (sketch_of l)) x).
Proof.
  unfold sketch_of. rewrite foldl_snoc.
  destruct l as [|y l]; [done|]. done.
Qed.

Lemma samples_for_snoc (cr : CaseRunner.t U) k rs r :
  samples_for cr k (rs ++ [r]) =
  samples_for cr k rs ++
  (if decide (k ∈ keys_of cr r) then [latency r] else []).
Proof.
  unfold samples_for. rewrite filter_app, fmap_app. f_equal.
  rewrite filter_cons, filter_nil. by destruct (decide _).
Qed.

Lemma observe_snoc c rs r :
  observe c (rs ++ [r]) =
  observe c rs ++
  [(Time.minute_of (Time.readings c (Time.cursor c + length rs)), r)].
Proof.
  revert c. induction rs as [|r' rs IH]; intros c; cbn.
  - by rewrite Nat.add_0_r.
  - rewrite IH. cbn. by rewrite Nat.add_succ_r.
Qed.

Lemma window_same_minute t0 (obs : list (Z * Result)) :
  Forall (fun o => o.1 = (window t0 obs).1) (window t0 obs).2.
Proof.
  induction obs as [|o obs IH] using rev_ind; [constructor|].
  unfold window in *. rewrite foldl_snoc. unfold window_step at 1 3.
  destruct (decide _); cbn.
  - by repeat constructor.
  - apply Forall_app. split; [done|]. repeat constructor.
    by destruct (decide ((foldl window_step (t0, []) obs).1 = o.1)).
Qed.

End AggregatorFacts.

Section AggregatorClaims.

Context `{TDigestLib} {U : Type}.

Implicit Types (st : Agg) (k : CallTimeMapKey).

(** One round of the loop over the channel. *)
Lemma consume_spec (cr : CaseRunner.t U) st res :
  let ts :=
    Time.minute_of (Time.readings (clock st) (Time.cursor (clock st))) in
  clock (consume cr st res) =
    Time.mkClock (Time.readings (clock st)) (S (Time.cursor (clock st))) /\
  lastTs (consume cr st res) = ts /\
  callTimeMap (consume cr st res) =
    foldl (add_sample res)
      (if decide (lastTs st ≠ ts)
       then filter (fun kv => is_integral kv.1 = true) (callTimeMap st)
       else callTimeMap st)
      (keys_of cr res) /\
  MetricsChan (consume cr st res) =
    (if decide (lastTs st ≠ ts)
     then send (batch (lastTs st) (callTimeMap st)) (MetricsChan st)
     else MetricsChan st).
Proof.
  intros ts. unfold consume, Time.UnixMilli. fold ts.
  destruct (decide (lastTs st ≠ ts)) as [Hne|Heq].
  - rewrite rollover_pass_spec. by cbn.
  - cbn. split_and!; try done. by apply dec_stable in Heq.
Qed.

Lemma batch_complete ts (m : gmap CallTimeMapKey TDigest) metric :
  metric ∈ batch ts m <->
  exists k v, m !! k = Some v /\
    metric = mkCallTimeMetric (Key.with_Ts ts k) (SerializeTDigest v).
Proof.
  unfold batch. rewrite list_elem_of_fmap. split.
  - intros ([k v] & -> & Hin). apply elem_of_map_to_list in Hin. eauto.
  - intros (k & v & Hk & ->). exists (k, v).
    split; [done|]. by apply elem_of_map_to_list.
Qed.

(** The state of the loop after the records [rs]: the sketch of an
    integral key holds the samples of all the records, the sketch of
    another key those of the records received since the minute last
    changed. *)
Lemma fold_loop_invariant (cr : CaseRunner.t U) c rs :
  let w :=
    window (Time.minute_of (Time.readings c (Time.cursor c)))
      (observe (Time.mkClock (Time.readings c) (S (Time.cursor c))) rs) in
  let st := fold_loop cr rs c in
  clock st =
    Time.mkClock (Time.readings c) (S (Time.cursor c) + length rs) /\
  lastTs st = w.1 /\
  forall k,
    callTimeMap st !! k =
    sketch_of (samples_for cr k (if is_integral k then rs else w.2.*2)).
Proof.
  induction rs as [|r rs IH] using rev_ind.
  - cbn. rewrite Nat.add_0_r. split_and!; [done..|].
    intros k. rewrite lookup_empty. by destruct (is_integral k).
  - cbv zeta in *. destruct IH as (Hclock & Hlast & Hmap).
    unfold fold_loop in *. rewrite foldl_snoc.
    set (st := foldl (consume cr) (Agg_init c) rs) in *.
    destruct (consume_spec cr st r) as (Hc' & Hl' & Hm' & _).
    rewrite Hclock in Hc', Hl', Hm'. cbn [Time.readings Time.cursor] in *.
    rewrite observe_snoc. cbn [Time.readings Time.cursor].
    unfold window in *. rewrite foldl_snoc.
    set (w := foldl window_step _ (observe _ rs)) in *.
    set (ts := Time.minute_of
                 (Time.readings c (S (Time.cursor c) + length rs))) in *.
    rewrite length_app, Nat.add_1_r, Nat.add_succ_r.
    split_and!; [done| |].
    + rewrite Hl'. unfold window_step. cbn [fst snd].
      by destruct (decide (w.1 ≠ ts)) as [?|?%dec_stable].
    + intros k. rewrite Hm', (add_samples_lookup _ _ (keys_of_NoDup cr r)).
      rewrite Hlast. unfold window_step. cbn [fst snd].
      destruct (decide (w.1 ≠ ts)) as [Hne|Heq]; cbn [fst snd].
      * rewrite map_lookup_filter, Hmap. cbn [fst].
        destruct (is_integral k) eqn:Hint.
        -- rewrite samples_for_snoc.
           destruct (sketch_of (samples_for cr k rs)) as [v|] eqn:Hsk;
             cbn; [rewrite option_guard_True by done; cbn|];
             destruct (decide (k ∈ keys_of cr r)).
           ++ by rewrite sketch_of_snoc, Hsk.
           ++ by rewrite app_nil_r.
           ++ by rewrite sketch_of_snoc, Hsk.
           ++ by rewrite app_nil_r.
        -- change ([(ts, r)].*2) with ([] ++ [r]).
           rewrite samples_for_snoc.
           destruct (sketch_of (samples_for cr k w.2.*2)) as [v|];
             cbn; [rewrite option_guard_False by done; cbn|];
             by destruct (decide (k ∈ keys_of cr r)).
      * rewrite Hmap. rewrite fmap_app. cbn [fmap list_fmap snd].
        destruct (is_integral k);
          rewrite samples_for_snoc;
          destruct (decide (k ∈ keys_of cr r));
          by rewrite ?sketch_of_snoc, ?app_nil_r.
Qed.

Lemma batch_length ts (m : gmap CallTimeMapKey TDigest) :
  length (batch ts m) = size m.
Proof. unfold batch. by rewrite length_fmap, length_map_to_list. Qed.

Lemma batch_nonempty ts (m : gmap CallTimeMapKey TDigest) :
  m <> ∅ -> batch ts m <> [].
Proof.
  intros Hne Hnil. apply Hne, map_size_empty_iff.
  by rewrite <- (batch_length ts), Hnil.
Qed.

Lemma send_nonempty (metrics : list CallTimeMetric) chan :
  metrics <> [] -> send metrics chan = chan ++ [metrics].
Proof.
  intros Hne. unfold send. destruct (decide _) as [|Hlen]; [done|].
  destruct metrics; [done|]. cbn in Hlen. lia.
Qed.

(** After a record the map is not empty: it holds the integral keys of
    the record. *)
Lemma fold_loop_live (cr : CaseRunner.t U) c rs :
  rs <> [] -> callTimeMap (fold_loop cr rs c) <> ∅.
Proof.
  destruct rs as [|r rs]; [done|]. intros _ Hempty.
  destruct (fold_loop_invariant cr c (r :: rs)) as (_ & _ & Hmap).
  set (k := Key.mkKey "" "step_call_integral" true
              (WorkerName (CaseRunner.Info cr))
              (CaseName (CaseRunner.TestCase_of cr)) "_NONE_"
              (IsSuccess r) (GetResponseCode r) 0).
  specialize (Hmap k). rewrite Hempty, lookup_empty in Hmap.
  change (is_integral k) with true in Hmap. cbv iota in Hmap.
  unfold samples_for in Hmap. rewrite filter_cons_True in Hmap.
  - done.
  - unfold keys_of. right. left.
Qed.


End AggregatorClaims.


(** ** Sub-records *)

Lemma AddSub_unnamed r c :
  let '(r', sub, c') := AddSub "" false r c in
  Name r' = Name r /\
  SubIndex r' = Int.i64 (SubIndex r + 1) /\
  SubResults r' = SubResults r ++ [DynResult sub] /\
  Name sub = Name r +:+ "-" +:+ sprint (SubIndex r) /\
  Success sub = true /\ ResponseCode sub = 0 /\ SubResults sub = [].
Proof. by destruct r, c. Qed.

Lemma sub_name_inj (p : string) (a : Z) :
  Inj (=) (=) (fun i : nat => p +:+ "-" +:+ sprint (a + Z.of_nat i)).
Proof.
  intros i j Heq.
  apply (inj (String.append p)) in Heq.
  apply (inj (String.append "-")) in Heq.
  unfold sprint in Heq. apply (inj pretty) in Heq. lia.
Qed.

(** Sub-records added without a name are numbered: [n] calls of
    [AddSub("", false)] on a record whose counter is [i] append [n]
    sub-records named after the record with the numbers [i] to
    [i + n - 1], in this order, and leave the counter at [i + n]; the
    names are distinct. Each is created as a success with status 0 and
    no sub-records of its own. *)
Theorem unnamed_subs_are_numbered (n : nat) (r : Result) (c : Time.Clock) :
  0 <= SubIndex r -> SubIndex r + Z.of_nat n < Int.two63 ->
  let r' := (add_unnamed n r c).1 in
  Name r' = Name r /\
  SubIndex r' = SubIndex r + Z.of_nat n /\
  exists subs,
    SubResults r' = SubResults r ++ (DynResult <$> subs) /\
    Name <$> subs =
      (fun i => Name r +:+ "-" +:+ sprint (SubIndex r + Z.of_nat i))
        <$> seq 0 n /\
    NoDup (Name <$> subs) /\
    Forall (fun s => Success s = true /\ ResponseCode s = 0 /\
                     SubResults s = []) subs.
Proof.
  intros Hlo Hhi r'. subst r'.
  assert (forall m (r0 : Result) c0,
            0 <= SubIndex r0 -> SubIndex r0 + Z.of_nat m < Int.two63 ->
            Name (add_unnamed m r0 c0).1 = Name r0 /\
            SubIndex (add_unnamed m r0 c0).1 = SubIndex r0 + Z.of_nat m /\
            exists subs,
              SubResults (add_unnamed m r0 c0).1 =
                SubResults r0 ++ (DynResult <$> subs) /\
              Name <$> subs =
                (fun i => Name r0 +:+ "-" +:+ sprint (SubIndex r0 + Z.of_nat i))
                  <$> seq 0 m /\
              Forall (fun s => Success s = true /\ ResponseCode s = 0 /\
                               SubResults s = []) subs) as Hgen.
  { clear. induction m as [|m IH]; intros r0 c0 Hlo Hhi.
    - cbn. split_and!; [done|lia|]. exists []. rewrite app_nil_r. done.
    - cbn [add_unnamed].
      pose proof (AddSub_unnamed r0 c0) as Hsub.
      destruct (AddSub "" false r0 c0) as [[r1 sub] c1].
      destruct Hsub as (Hn & Hi & Hs & Hname & Hok & Hcode & Hnil).
      rewrite i64_small in Hi by (unfold Int.two63 in *; lia).
      destruct (IH r1 c1) as (Hn' & Hi' & subs & Hs' & Hnames & Hall);
        [lia|lia|].
      split_and!; [congruence|lia|].
      exists (sub :: subs). split_and!.
      + rewrite Hs', Hs, <- app_assoc. done.
      + cbn [fmap list_fmap seq]. rewrite <- fmap_S_seq.
        cbn. f_equal.
        * rewrite Hname. do 3 f_equal. lia.
        * change (list_fmap _ _ Name subs) with (Name <$> subs).
          rewrite Hnames, <- list_fmap_compose. apply list_fmap_ext.
          intros ? i _. cbn. rewrite Hn, Hi. do 3 f_equal. lia.
      + by constructor. }
  destruct (Hgen n r c Hlo Hhi) as (Hn & Hi & subs & Hs & Hnames & Hall).
  split_and!; [done..|]. exists subs. split_and!; [done..| |done].
  rewrite Hnames. apply NoDup_fmap_2; [apply sub_name_inj|apply NoDup_seq].
Qed.

Lemma unnamed_subs_are_numbered_witness :
  let r := (AcquireResult "batch" (Time.clock_of [] 0)).1 in
  let r' := (add_unnamed 3 r (Time.clock_of [] 0)).1 in
  Name r' = "batch" /\
  SubIndex r' = 0 + 3 /\
  exists subs,
    SubResults r' = [] ++ (DynResult <$> subs) /\
    Name <$> subs =
      (fun i => "batch" +:+ "-" +:+ sprint (0 + Z.of_nat i)) <$> seq 0 3 /\
    NoDup (Name <$> subs) /\
    Forall (fun s => Success s = true /\ ResponseCode s = 0 /\
                     SubResults s = []) subs.
Proof.
  apply (unnamed_subs_are_numbered 3
           (AcquireResult "batch" (Time.clock_of [] 0)).1
           (Time.clock_of [] 0)).
  - cbn. lia.
  - unfold Int.two63. cbn. lia.
Defined.

Lemma AddSub_fields name useNamePrefix r c :
  let r' := (AddSub name useNamePrefix r c).1.1 in
  let sub := (AddSub name useNamePrefix r c).1.2 in
  SubResults r' = SubResults r ++ [DynResult sub] /\
  Name sub =
    (if String.eqb name "" then Name r +:+ "-" +:+ sprint (SubIndex r)
     else if useNamePrefix then Name r +:+ "-" +:+ name else name) /\
  Success sub = true /\ ResponseCode sub = 0 /\ SubResults sub = [] /\
  Name r' = Name r.
Proof.
  unfold AddSub. destruct (String.eqb name ""), useNamePrefix;
    by destruct r, c.
Qed.

Lemma assert_results_snoc subResults subs sub :
  assert_results subResults = Some subs ->
  assert_results (subResults ++ [DynResult sub]) = Some (subs ++ [sub]).
Proof.
  revert subs. induction subResults as [|[x|d] l IH]; intros subs.
  - by intros [= <-].
  - cbn. destruct (assert_results l) as [rs|]; [|done].
    intros [= <-]. by rewrite (IH rs eq_refl).
  - done.
Qed.

(** [AddSub] and the flattening of [Run]: a record that was given a
    sub-record is reported through its sub-records, the new one last,
    and not itself; the new sub-record is named after the parent (by
    number when no name is given, by prefix when asked) and counts as a
    success with status 0 until the plugin changes it. *)
Theorem AddSub_child_is_reported {U} name useNamePrefix r c (st : Exec U)
    subs :
  assert_results (SubResults r) = Some subs ->
  let r' := (AddSub name useNamePrefix r c).1.1 in
  let sub := (AddSub name useNamePrefix r c).1.2 in
  collect_results r' st = (Done (subs ++ [sub]), st) /\
  Name sub =
    (if String.eqb name "" then Name r +:+ "-" +:+ sprint (SubIndex r)
     else if useNamePrefix then Name r +:+ "-" +:+ name else name) /\
  forallb IsSuccess (subs ++ [sub]) = forallb IsSuccess subs /\
  ResponseCode sub = 0.
Proof.
  intros Hsubs r' sub.
  destruct (AddSub_fields name useNamePrefix r c)
    as (Hs & Hn & Hok & Hcode & _ & _).
  fold r' sub in Hs, Hn, Hok, Hcode. split_and!; [|done| |done].
  - unfold collect_results, GetSubResults. rewrite Hs.
    destruct (decide _) as [Hlen|_].
    { rewrite length_app in Hlen. cbn in Hlen. lia. }
    by rewrite (assert_results_snoc _ _ _ Hsubs).
  - rewrite forallb_app. cbn. unfold IsSuccess at 2. rewrite Hok.
    by rewrite !andb_true_r.
Qed.

Lemma AddSub_child_is_reported_witness :
  let r := (AcquireResult "batch" (Time.clock_of [] 0)).1 in
  let r' := (AddSub "item" true r (Time.clock_of [] 0)).1.1 in
  let sub := (AddSub "item" true r (Time.clock_of [] 0)).1.2 in
  collect_results r' start = (Done ([] ++ [sub]), start) /\
  Name sub = "batch-item" /\
  forallb IsSuccess ([] ++ [sub]) = forallb IsSuccess [] /\
  ResponseCode sub = 0.
Proof.
  apply (AddSub_child_is_reported "item" true
           (AcquireResult "batch" (Time.clock_of [] 0)).1
           (Time.clock_of [] 0) start []).
  reflexivity.
Defined.

(** ** Registering steps *)

Section StepObjectFacts.
Context {U : Type}.
Implicit Types (ts : TestStep U) (tc : TestCase U).

Lemma AddStep_registered tc ts :
  AddStep tc ts =
  mkTestCase (CaseName tc)
    (Teststeps tc ++ [registered (length (Teststeps tc)) ts]) (TearDown tc).
Proof. reflexivity. Qed.

Lemma AddSteps_registered name (steps : list (TestStep U)) :
  foldl AddStep (NewTestCase name) steps =
  mkTestCase name (imap registered steps) None.
Proof.
  induction steps as [|ts steps IH] using rev_ind; [done|].
  rewrite foldl_snoc, IH, AddStep_registered. cbn.
  rewrite imap_app, length_imap. cbn. by rewrite Nat.add_0_r.
Qed.

Lemma sprint_nat_inj : Inj (=) (=) (fun n : nat => sprint (Z.of_nat n)).
Proof.
  intros i j Heq. unfold sprint in Heq. apply (inj pretty) in Heq. lia.
Qed.

(** Steps registered with [AddStep], each a value of its own: they keep
    their order, name, plugin, generator and [ContinueWhenFailed]; the
    k-th gets the index k, so the indices, which are the keys of the
    limiter and of its queues, are distinct; the four optional hooks are
    set. *)
Lemma AddStep_numbers_steps_NoDup name (steps : list (TestStep U)) :
  NoDup (GetStepIndex <$>
           Teststeps (foldl AddStep (NewTestCase name) steps)).
Proof.
  rewrite AddSteps_registered. cbn. rewrite fmap_imap.
  apply NoDup_alt. intros i j x Hi Hj.
  rewrite list_lookup_imap in Hi, Hj.
  destruct (steps !! i); [|done]. destruct (steps !! j); [|done].
  cbn in Hi, Hj. injection Hi as <-. injection Hj as Hj.
  by apply sprint_nat_inj in Hj.
Qed.

Theorem AddStep_numbers_steps name (steps : list (TestStep U)) :
  let tc := foldl AddStep (NewTestCase name) steps in
  CaseName tc = name /\
  length (Teststeps tc) = length steps /\
  (forall i ts', Teststeps tc !! i = Some ts' ->
     GetStepIndex ts' = sprint (Z.of_nat i) /\
     exists ts, steps !! i = Some ts /\
       StepName ts' = StepName ts /\
       ReqPluginFunc ts' = ReqPluginFunc ts /\
       GenReqParamsFunc ts' = GenReqParamsFunc ts /\
       ContinueWhenFailed ts' = ContinueWhenFailed ts /\
       is_Some (ExecWhenFunc ts') /\ is_Some (PreFunc ts') /\
       is_Some (PostFunc ts') /\ is_Some (RpsLimitFunc ts')) /\
  NoDup (GetStepIndex <$> Teststeps tc).
Proof.
  intros tc. subst tc. rewrite AddSteps_registered. cbn.
  split_and!; [done|by rewrite length_imap| |].
  - intros i ts' Hi. rewrite list_lookup_imap in Hi.
    destruct (steps !! i) as [ts|] eqn:Hts; [|done].
    injection Hi as <-. split; [done|]. exists ts.
    split_and!; try done; cbn.
    + by destruct (ExecWhenFunc ts).
    + by destruct (PreFunc ts).
    + by destruct (PostFunc ts).
    + by destruct (RpsLimitFunc ts).
  - pose proof (AddStep_numbers_steps_NoDup name steps) as Hnd.
    by rewrite AddSteps_registered in Hnd.
Qed.

Lemma omap_store_insert (σ : gmap nat (TestStep U)) p ts (l : list nat) :
  p ∉ l ->
  omap (fun q => <[p := ts]> σ !! q) l = omap (fun q => σ !! q) l.
Proof.
  induction l as [|q l IH]; [done|]. intros Hp.
  apply not_elem_of_cons in Hp as [Hne Hp]. cbn.
  rewrite lookup_insert_ne by done. by rewrite IH.
Qed.

Lemma AddSteps_at_steps (ps : list nat) :
  forall tc : CaseAt U,
    NoDup (at_steps tc ++ ps) ->
    (forall p, p ∈ ps -> is_Some (at_store tc !! p)) ->
    exists tc' : CaseAt U,
      AddSteps_at ps tc = Some tc' /\
      at_steps tc' = at_steps tc ++ ps /\
      steps_at tc' =
        steps_at tc ++
        imap (fun i => registered (length (at_steps tc) + i))
          (omap (fun p => at_store tc !! p) ps).
Proof.
  induction ps as [|p ps IH]; intros tc Hnd Hin.
  - exists tc. by rewrite !app_nil_r.
  - destruct (Hin p) as [ts Hts]; [by left|].
    cbn [AddSteps_at]. unfold AddStep_at. rewrite Hts.
    set (tc1 := mkCaseAt _ _).
    apply NoDup_app in Hnd as (Hnd1 & Hdisj & Hnd2).
    apply NoDup_cons in Hnd2 as [Hp Hnd2].
    assert (p ∉ at_steps tc) as Hfresh.
    { intros Hel. apply (Hdisj p Hel). by left. }
    destruct (IH tc1) as (tc' & Hrun & Hsteps & Hview).
    { cbn. rewrite <- app_assoc. cbn. apply NoDup_app. split_and!; [done| |].
      - intros q Hq Hq'. apply (Hdisj q Hq). done.
      - by apply NoDup_cons. }
    { intros q Hq. cbn. destruct (decide (q = p)) as [->|Hne].
      - rewrite lookup_insert_eq. by eexists.
      - rewrite lookup_insert_ne by done. apply Hin. by right. }
    exists tc'. split_and!; [done| |].
    { rewrite Hsteps. cbn. by rewrite <- app_assoc. }
    rewrite Hview. unfold steps_at. cbn [at_steps at_store tc1].
    rewrite omap_app. cbn [omap list_omap]. rewrite lookup_insert_eq.
    rewrite !omap_store_insert by done. rewrite Hts. cbn [imap].
    rewrite <- app_assoc. cbn. rewrite Nat.add_0_r. do 2 f_equal.
    apply imap_ext. intros i x _. rewrite length_app. cbn.
    f_equal. lia.
Qed.

(** [AddStep] on pointers to distinct steps is [AddStep] on values: the
    steps that [Run] then reads through the pointers are those of the
    case built from the contents of the steps. *)
Theorem AddStep_at_distinct_steps name (ps : list nat)
    (σ : gmap nat (TestStep U)) :
  NoDup ps -> (forall p, p ∈ ps -> is_Some (σ !! p)) ->
  exists tc' : CaseAt U,
    AddSteps_at ps (mkCaseAt [] σ) = Some tc' /\
    at_steps tc' = ps /\
    steps_at tc' =
      Teststeps (foldl AddStep (NewTestCase name)
                   (omap (fun p => σ !! p) ps)) /\
    NoDup (GetStepIndex <$> steps_at tc').
Proof.
  intros Hnd Hin.
  destruct (AddSteps_at_steps ps (mkCaseAt [] σ)) as (tc' & Hrun & Hs & Hv);
    [done..|].
  assert (steps_at tc' =
          Teststeps (foldl AddStep (NewTestCase name)
                       (omap (fun p => σ !! p) ps))) as Heq.
  { rewrite Hv, AddSteps_registered. done. }
  exists tc'. split_and!; [done..|].
  rewrite Heq. apply AddStep_numbers_steps_NoDup.
Qed.

(** The same step registered twice: [AddStep] writes the second index
    into the one object, so both entries of the slice carry the index of
    the second call, and no entry carries the index of the first. The
    two entries share one bucket of the limiter. *)
Theorem AddStep_at_same_step_twice (p : nat) (tc tc1 tc2 : CaseAt U) :
  AddStep_at p tc = Some tc1 -> AddStep_at p tc1 = Some tc2 ->
  at_steps tc2 = at_steps tc ++ [p; p] /\
  exists l ts,
    steps_at tc2 = l ++ [ts; ts] /\
    GetStepIndex ts = sprint (Z.of_nat (S (length (at_steps tc)))) /\
    ~ NoDup (GetStepIndex <$> steps_at tc2).
Proof.
  unfold AddStep_at. intros H1 H2.
  destruct (at_store tc !! p) as [ts|] eqn:Hts; [|done].
  injection H1 as <-. cbn in H2. rewrite lookup_insert_eq in H2.
  injection H2 as <-. cbn. split; [by rewrite <- app_assoc|].
  unfold steps_at. cbn. rewrite <- app_assoc, omap_app. cbn.
  rewrite !lookup_insert_eq. eexists _, _. split; [reflexivity|].
  rewrite length_app. cbn. split; [do 2 f_equal; lia|].
  rewrite fmap_app. cbn. intros Hnd.
  apply NoDup_app in Hnd as (_ & _ & Hnd).
  apply NoDup_cons in Hnd as [Hnot _]. apply Hnot. by left.
Qed.

Lemma limiter_keys_registered (steps : list (TestStep U)) info globalParams :
  forall n,
    limiter_keys (imap (fun i => registered (n + i)) steps) info globalParams =
    Some (omap (fun '(i, ts) =>
                  match RpsLimitFunc ts with
                  | Some f =>
                      if 0 <? f info globalParams
                      then Some (sprint (Z.of_nat i)) else None
                  | None => None
                  end)
            (imap (fun i => pair (n + i)%nat) steps)).
Proof.
  induction steps as [|ts steps IH]; intros n; [done|].
  cbn [imap limiter_keys].
  rewrite (imap_ext _ (fun i => registered (S n + i))%nat steps)
    by (intros; cbn; f_equal; lia).
  rewrite (imap_ext (_ ∘ S) (fun i => pair (S n + i)%nat) steps)
    by (intros; cbn; f_equal; lia).
  rewrite IH. cbn [omap list_omap]. rewrite Nat.add_0_r.
  destruct (RpsLimitFunc ts) as [f|] eqn:Hf; cbn; rewrite Hf; [|done].
  by destruct (0 <? f info globalParams).
Qed.

Lemma limiter_keys_built name (steps : list (TestStep U)) info
    globalParams :
  limiter_keys (Teststeps (foldl AddStep (NewTestCase name) steps))
    info globalParams =
  Some (limited_steps steps info globalParams).
Proof.
  rewrite AddSteps_registered. cbn [Teststeps].
  apply (limiter_keys_registered steps info globalParams 0).
Qed.

(** Building the limiter in [CaseRunner.Run]: the loop panics exactly
    when a step has no [RpsLimitFunc]; for steps registered with
    [AddStep] it does not, and a step gets a bucket, under its index,
    exactly when it was given an [RpsLimitFunc] and this returns a
    positive rate. *)
Theorem limiter_keys_of_case name (steps : list (TestStep U)) info
    globalParams :
  (limiter_keys steps info globalParams = None <->
   Exists (fun ts => RpsLimitFunc ts = None) steps) /\
  limiter_keys (Teststeps (foldl AddStep (NewTestCase name) steps))
    info globalParams =
  Some (limited_steps steps info globalParams).
Proof.
  split.
  - induction steps as [|ts steps IH]; cbn.
    + split; [done|]. by intros ?%Exists_nil.
    + rewrite Exists_cons.
      destruct (RpsLimitFunc ts) as [f|]; [|by split; auto].
      destruct (limiter_keys steps info globalParams) as [keys|].
      * split; [done|]. intros [?|He]; [done|]. by apply IH in He.
      * split; [|done]. intros _. right. by apply IH.
  - apply limiter_keys_built.
Qed.

End StepObjectFacts.

(** ** The executor: panics, skipped steps, stopping *)

Section EngineMore.
Context {U : Type}.
Implicit Types (st : Exec U) (ts : TestStep U) (evs : list (Event U)).

Lemma report_results_progress sh caseParams ts results :
  forall reqParams ok st o st',
    report_results sh caseParams ts reqParams results ok st = (o, st') ->
    o <> OutOfFuel /\ (reads st <= reads st')%nat /\
    (is_Some (PostFunc ts) -> o <> Panicked) /\
    exists evs, trace st' = trace st ++ evs /\ Forall step_event evs.
Proof.
  induction results as [|r rest IH]; intros reqParams ok st o st' Hrun.
  - cbn in Hrun. injection Hrun as <- <-. split_and!; [done|lia|done|].
    exists []. by rewrite app_nil_r.
  - cbn [report_results] in Hrun.
    unfold mbind, ExecM_bind, deref, call, emit, read_shared, panic, mret,
      ExecM_ret in Hrun.
    destruct (PostFunc ts) as [post|]; cbn in Hrun.
    2:{ injection Hrun as <- <-. split_and!; [done|lia|by intros [? ?]|].
        exists []. by rewrite app_nil_r. }
    destruct (post caseParams reqParams r (user st)) as [m u] eqn:Hpost.
    cbn in Hrun.
    destruct (ResChansAttached sh (reads st)) eqn:Hatt; cbn in Hrun;
      apply IH in Hrun as (Hf & Hr & Hp & evs & Htr & Hev);
      cbn in Hr, Htr; (split_and!; [done|lia|done|]).
    + exists (EvPost ts r :: EvPush r :: evs).
      rewrite Htr, <- !app_assoc. split; [done|]. by repeat constructor.
    + exists (EvPost ts r :: evs).
      rewrite Htr, <- !app_assoc. split; [done|]. by repeat constructor.
Qed.

Lemma collect_results_ready res st :
  is_Some (assert_results (SubResults res)) ->
  exists results, collect_results res st = (Done results, st).
Proof.
  intros [rs Hrs]. unfold collect_results, GetSubResults.
  destruct (decide _); [by eexists|]. rewrite Hrs. by eexists.
Qed.

Lemma collect_results_cases res st o st' :
  collect_results res st = (o, st') ->
  st' = st /\ o <> OutOfFuel /\
  (is_Some (assert_results (SubResults res)) -> o <> Panicked).
Proof.
  intros Hrun. pose proof Hrun as Hst.
  apply collect_results_state in Hst as [-> _].
  split_and!; [done| |].
  - unfold collect_results in Hrun. destruct (decide _); [by intros ->|].
    destruct (assert_results _); by intros ->.
  - intros Hok. destruct (collect_results_ready res st Hok) as [rs Hrs].
    rewrite Hrs in Hrun. by injection Hrun as <-.
Qed.

Lemma run_step_progress sh caseParams ts st o st' :
  run_step sh caseParams ts st = (o, st') ->
  o <> OutOfFuel /\ (reads st < reads st')%nat /\
  (step_ready ts -> o <> Panicked) /\
  exists evs, trace st' = trace st ++ evs /\ Forall step_event evs.
Proof.
  unfold run_step. intros Hrun.
  unfold mbind, ExecM_bind, deref, call, read_shared, panic, mret,
    ExecM_ret, emit in Hrun.
  Opaque collect_results report_results.
  repeat (cbn in Hrun; exec_destruct Hrun); cbn in Hrun.
  all: try (injection Hrun as <- <-).
  all: repeat match goal with
       | H : collect_results _ _ = _ |- _ =>
           apply collect_results_cases in H as (-> & ? & ?)
       | H : report_results _ _ _ _ _ _ _ = _ |- _ =>
           apply report_results_progress in H as (? & ? & ? & ? & ? & ?)
       end.
  Transparent collect_results report_results.
  all: cbn [reads trace] in *.
  all: split_and!.
  all: try done.
  all: try lia.
  all: try (eexists; split;
    [ repeat match goal with H : trace _ = _ |- _ => rewrite H end;
      rewrite <- ?app_assoc;
      first [reflexivity | symmetry; apply app_nil_r]
    | repeat first [apply Forall_nil_2 | apply Forall_cons_2; [exact I|]
                   | apply Forall_app_2 | assumption] ]).
  all: intros (((gen & Hgen & Hmap) & (plugin & Hpl & Hres)) & He & Hp & Hpo).
  all: try (destruct He; congruence).
  all: try (destruct Hp; congruence).
  all: try congruence.
  all: try match goal with
       | H : is_Some (PostFunc _) -> _ |- _ => by destruct (H Hpo)
       end.
  all: try match goal with
       | Hg : GenReqParamsFunc _ = Some ?g, H : ?g ?cp ?u = (None, _) |- _ =>
           rewrite Hg in Hgen; injection Hgen as <-;
           specialize (Hmap cp u); rewrite H in Hmap; by destruct Hmap
       end.
  all: match goal with
       | Hg : ReqPluginFunc _ = Some ?g, H : ?g ?m ?u = (_, _, _) |- _ =>
           rewrite Hg in Hpl; injection Hpl as <-;
           destruct (Hres m u) as (r' & Hr' & Hsub); rewrite H in Hr';
           cbn in Hr'; simplify_eq
       end.
  all: try match goal with
       | H : is_Some (PostFunc _) -> _ |- _ => by destruct (H Hpo)
       end.
  all: match goal with
       | H : is_Some (assert_results _) -> _ |- _ => by destruct (H Hsub)
       end.
Qed.

Lemma teardowns_step_events evs :
  Forall step_event evs -> teardowns evs = [].
Proof.
  induction 1 as [|e evs He _ IH]; [done|].
  unfold teardowns in *. cbn. rewrite IH. by destruct e.
Qed.

Lemma run_steps_progress sh caseParams steps :
  forall st o st',
    run_steps sh caseParams steps st = (o, st') ->
    o <> OutOfFuel /\ (reads st <= reads st')%nat /\
    (Forall step_ready steps -> o <> Panicked) /\
    exists evs, trace st' = trace st ++ evs /\ Forall step_event evs.
Proof.
  induction steps as [|ts rest IH]; intros st o st' Hrun.
  - injection Hrun as <- <-. split_and!; [done|lia|done|].
    exists []. by rewrite app_nil_r.
  - cbn [run_steps] in Hrun. unfold mbind, ExecM_bind in Hrun.
    destruct (run_step sh caseParams ts st) as [o1 st1] eqn:Hstep.
    apply run_step_progress in Hstep as (Hf1 & Hr1 & Hp1 & evs1 & Htr1 & Hev1).
    destruct o1 as [[|]| |]; [|injection Hrun as <- <-..].
    + apply IH in Hrun as (Hf2 & Hr2 & Hp2 & evs2 & Htr2 & Hev2).
      split_and!; [done|lia| |].
      * intros [? ?]%Forall_cons. auto.
      * exists (evs1 ++ evs2). rewrite Htr2, Htr1, <- app_assoc.
        split; [done|]. by apply Forall_app.
    + split_and!; [done|lia|done|]. by exists evs1.
    + split_and!; [done|lia| |by exists evs1].
      intros [? ?]%Forall_cons. auto.
    + done.
Qed.

(** The outer loop: it adds no call of [TearDown]; it cannot panic when
    the steps are ready; and once the flag of the case stays false from
    the read [k] on, it ends within [k] more iterations. *)
Lemma run_loop_progress sh caseParams tc fuel :
  forall st o st',
    run_loop fuel sh caseParams tc st = (o, st') ->
    (forall k, (forall n, (k <= n)%nat -> IsRunning sh n = false) ->
               (k - reads st < fuel)%nat -> o <> OutOfFuel) /\
    (Forall step_ready (Teststeps tc) -> o <> Panicked) /\
    exists evs, trace st' = trace st ++ evs /\ teardowns evs = [].
Proof.
  induction fuel as [|fuel IH]; intros st o st' Hrun.
  - injection Hrun as <- <-. split_and!; [intros; lia|done|].
    exists []. by rewrite app_nil_r.
  - cbn [run_loop] in Hrun.
    unfold mbind, ExecM_bind, read_shared, mret, ExecM_ret, emit in Hrun.
    cbn in Hrun. destruct (IsRunning sh (reads st)) eqn:Hflag; cbn in Hrun.
    2:{ injection Hrun as <- <-. split_and!; [done..|].
        exists []. by rewrite app_nil_r. }
    destruct (run_steps sh caseParams (Teststeps tc) _) as [o1 st1] eqn:Hit.
    apply run_steps_progress in Hit as (Hf1 & Hr1 & Hp1 & evs1 & Htr1 & Hev1).
    cbn in Hr1, Htr1. apply teardowns_step_events in Hev1.
    destruct o1 as [flow| |]; [|injection Hrun as <- <-..].
    + apply IH in Hrun as (Hf2 & Hp2 & evs2 & Htr2 & Hev2).
      cbn in Hf2, Htr2. split_and!.
      * intros k Hk Hfuel. apply (Hf2 k Hk).
        assert (reads st < k)%nat; [|lia].
        destruct (decide (reads st < k)%nat) as [|Hge]; [done|].
        rewrite Hk in Hflag by lia. done.
      * done.
      * exists (evs1 ++ EvSleep (100 * Time.Millisecond) :: evs2).
        rewrite Htr2, Htr1, <- !app_assoc. split; [done|].
        unfold teardowns in *. rewrite omap_app. cbn.
        by rewrite Hev1, Hev2.
    + split_and!; [done| |by exists evs1].
      intros Hr. by destruct (Hp1 Hr).
    + done.
Qed.

(** Once the Case Runner is stopped, an executor leaves its loop: when
    the flag stays false from the read [k] on, [k] iterations beyond the
    reads already made are enough for [Run] to end. It ends with a panic
    or returns after [TearDown]; it returns when the steps are ready.
    The callbacks are taken to return, and so are the wait for the
    limiter and the sends on the output channel. *)
Theorem stopped_executor_returns fuel (tc : TestCase U) globalParams
    coroutineParams sh info st k :
  (forall n, (k <= n)%nat -> IsRunning sh n = false) ->
  (k - reads st < fuel)%nat ->
  let o := (Run fuel tc globalParams coroutineParams sh info st).1 in
  o <> OutOfFuel /\
  (Forall step_ready (Teststeps tc) -> o = Done tt).
Proof.
  intros Hk Hfuel o. subst o. unfold Run, mbind, ExecM_bind.
  destruct (run_loop fuel sh _ tc st) as [o1 st1] eqn:Hloop.
  apply run_loop_progress in Hloop as (Hf & Hp & _).
  specialize (Hf k Hk Hfuel).
  destruct o1 as [[]| |]; [| |done].
  2:{ split; [done|]. intros Hr. by destruct (Hp Hr). }
  by destruct (TearDown tc).
Qed.

(** A case built with [AddStep] from steps that provide results never
    panics in [Run], whatever the hooks given or left out: no nil
    function is called, no nil map written, no nil record read and no
    sub-record fails the type assertion. The callbacks are taken to
    return, and the sends on the output channel to complete. *)
Theorem registered_case_does_not_panic name (steps : list (TestStep U))
    fuel globalParams coroutineParams sh info st :
  Forall provides_results steps ->
  (Run fuel (foldl AddStep (NewTestCase name) steps) globalParams
     coroutineParams sh info st).1 <> Panicked.
Proof.
  intros Hall. unfold Run, mbind, ExecM_bind.
  destruct (run_loop fuel sh _ _ st) as [o1 st1] eqn:Hloop.
  apply run_loop_progress in Hloop as (_ & Hp & _).
  assert (o1 <> Panicked) as Hne.
  { apply Hp. rewrite AddSteps_registered. cbn [Teststeps].
    apply Forall_forall. intros ts' Hin.
    apply list_elem_of_lookup in Hin as [i Hi].
    rewrite list_lookup_imap in Hi.
    destruct (steps !! i) as [ts|] eqn:Hts; [|done]. injection Hi as <-.
    rewrite Forall_forall in Hall.
    specialize (Hall ts (list_elem_of_lookup_2 _ _ _ Hts)).
    split; [exact Hall|]. cbn.
    split_and!;
      [by destruct (ExecWhenFunc ts)|by destruct (PreFunc ts)
      |by destruct (PostFunc ts)]. }
  destruct o1 as [[]| |]; [|done..].
  rewrite AddSteps_registered. cbn [TearDown]. done.
Qed.

(** [TearDown] is called when the loop has ended without a panic, once,
    with the map of the executor, as the last thing [Run] does; a run
    that panics does not call it. *)
Theorem TearDown_once_at_the_end fuel (tc : TestCase U) globalParams
    coroutineParams sh info st o st' :
  Run fuel tc globalParams coroutineParams sh info st = (o, st') ->
  let evs := events_since st st' in
  teardowns evs =
    match o, TearDown tc with
    | Done _, Some _ => [coroutineParams]
    | _, _ => []
    end /\
  (forall tearDown,
     o = Done tt -> TearDown tc = Some tearDown ->
     last evs = Some (EvTearDown coroutineParams) /\
     exists st1,
       (run_loop fuel sh (mkCaseParams globalParams coroutineParams info)
          tc st) = (Done tt, st1) /\
       user st' = tearDown coroutineParams (user st1)).
Proof.
  intros Hrun evs. subst evs. unfold Run, mbind, ExecM_bind in Hrun.
  destruct (run_loop fuel sh _ tc st) as [o1 st1] eqn:Hloop.
  pose proof Hloop as Hl.
  apply run_loop_progress in Hl as (_ & _ & evs1 & Htr1 & Hev1).
  destruct o1 as [[]| |]; [|injection Hrun as <- <-..].
  - destruct (TearDown tc) as [tearDown|].
    + unfold call, emit in Hrun. cbn in Hrun. injection Hrun as <- <-.
      cbn [trace user].
      rewrite (events_since_app st _ (evs1 ++ [EvTearDown coroutineParams]))
        by (cbn; by rewrite Htr1, <- app_assoc).
      split.
      * unfold teardowns in *. rewrite omap_app, Hev1. done.
      * intros td _ [= <-]. rewrite last_snoc. split; [done|].
        by exists st1.
    + injection Hrun as <- <-. rewrite (events_since_app _ _ _ Htr1).
      by split.
  - rewrite (events_since_app _ _ _ Htr1). split; [by destruct (TearDown tc)|].
    done.
  - rewrite (events_since_app _ _ _ Htr1). split; [by destruct (TearDown tc)|].
    done.
Qed.

(** [AddStep] gives no default to the generator and to the plugin. A
    step registered without a generator panics at once in every pass
    made while the case runs; a step registered without a plugin panics
    in every pass that gets to the plugin, after [PreFunc] has been
    called: such a pass ends well only when the step is skipped or the
    case stopped. *)
Theorem step_without_generator_or_plugin sh caseParams (tc : TestCase U)
    ts ts' st o st' :
  last (Teststeps (AddStep tc ts)) = Some ts' ->
  run_step sh caseParams ts' st = (o, st') ->
  (GenReqParamsFunc ts = None ->
   st' = tick st /\
   o = (if IsRunning sh (reads st) then Panicked else Done Break)) /\
  (ReqPluginFunc ts = None ->
   plugin_calls (events_since st st') = [] /\
   (o = Panicked \/
    exists flow, o = Done flow /\ pre_calls (events_since st st') = [])).
Proof.
  rewrite AddStep_registered. cbn [Teststeps]. rewrite last_snoc.
  intros [= <-] Hrun. split.
  - intros Hgen.
    assert (GenReqParamsFunc (registered (length (Teststeps tc)) ts) = None)
      as Hgen' by done.
    unfold run_step in Hrun. rewrite Hgen' in Hrun.
    unfold mbind, ExecM_bind, deref, read_shared, panic, mret, ExecM_ret
      in Hrun. cbn in Hrun.
    destruct (IsRunning sh (reads st)); cbn in Hrun;
      by injection Hrun as <- <-.
  - intros Hpl.
    assert (ReqPluginFunc (registered (length (Teststeps tc)) ts) = None)
      as Hpl' by done.
    unfold run_step in Hrun. rewrite Hpl' in Hrun.
    generalize dependent (registered (length (Teststeps tc)) ts).
    intros ts' Hrun Hpl'.
    unfold mbind, ExecM_bind, deref, call, read_shared, panic, mret,
      ExecM_ret, emit in Hrun.
    repeat (cbn in Hrun; exec_destruct Hrun); cbn in Hrun.
    all: injection Hrun as <- <-.
    all: match goal with
         | |- context [events_since ?a ?b] =>
             erewrite (events_since_app a b);
             [|cbn [trace]; rewrite <- ?app_assoc;
               first [reflexivity | symmetry; apply app_nil_r]]
         end.
    all: split; [reflexivity|].
    all: first [by left | right; eexists; split; reflexivity].
Qed.

Lemma no_exec_when evs ts m b :
  exec_when_calls evs = [] -> EvExecWhen ts m b ∉ evs.
Proof.
  intros Hnil Hel. apply list_elem_of_split in Hel as (l1 & l2 & ->).
  unfold exec_when_calls in Hnil. rewrite omap_app in Hnil. cbn in Hnil.
  by apply app_eq_nil in Hnil as [_ ?].
Qed.

(** A step that [ExecWhenFunc] declines is skipped whole: the pass calls
    the generator and [ExecWhenFunc] and nothing else (no wait for the
    limiter, no [PreFunc], no plugin, no [PostFunc], nothing pushed),
    and goes on to the next step. *)
Theorem declined_step_is_skipped sh caseParams ts st o st' m :
  run_step sh caseParams ts st = (o, st') ->
  EvExecWhen ts m false ∈ events_since st st' ->
  o = Done Next /\
  events_since st st' = [EvGenParams ts; EvExecWhen ts m false] /\
  reads st' = S (reads st).
Proof.
  unfold run_step. intros Hrun Hin.
  unfold mbind, ExecM_bind, deref, call, read_shared, panic, mret,
    ExecM_ret, emit in Hrun.
  Opaque collect_results report_results.
  repeat (cbn in Hrun; exec_destruct Hrun); cbn in Hrun.
  all: try (injection Hrun as <- <-).
  all: repeat match goal with
       | H : collect_results _ _ = _ |- _ =>
           apply collect_results_cases in H as (-> & ? & ?)
       | H : report_results _ _ _ _ _ _ _ = _ |- _ =>
           apply report_results_trace in H as (? & ? & _ & ? & _)
       end.
  Transparent collect_results report_results.
  all: cbn [reads trace] in *.
  all: match type of Hin with
       | context [events_since ?a ?b] =>
           let E := fresh "E" in
           eassert (events_since a b = _) as E by
             (apply events_since_app; cbn [trace];
              repeat match goal with H : trace _ = _ |- _ => rewrite H end;
              rewrite <- ?app_assoc;
              first [reflexivity | symmetry; apply app_nil_r]);
           rewrite E in *; clear E
       end.
  all: cbn in Hin.
  all: repeat (apply elem_of_cons in Hin as [Hin|Hin];
               [try discriminate Hin|]).
  all: try (by apply elem_of_nil in Hin).
  all: try (by eapply no_exec_when in Hin).
  all: simplify_eq.
  all: try discriminate.
  all: done.
Qed.

End EngineMore.

(** ** Starting the executors *)

Section LauncherFacts.
Context {U : Type}.
Implicit Types (cr : CaseRunner.t U) (st : Launcher.St) (w : Launcher.World).

Lemma await_frame fuel w :
  forall st st',
    await fuel w st = Some st' ->
    Launcher.started st' = Launcher.started st /\
    Launcher.ActiveConcurrencyCount st' = Launcher.ActiveConcurrencyCount st /\
    (Launcher.reads st <= Launcher.reads st')%nat /\
    (Launcher.asked st < Launcher.asked st')%nat /\
    (Launcher.pauses st <= Launcher.pauses st')%nat /\
    ((forall n, Launcher.IsRunning w n = true) ->
     Launcher.ShouldAllow w (pred (Launcher.asked st')) = true) /\
    ((forall n, Launcher.ShouldAllow w n = true) ->
     Launcher.pauses st' = Launcher.pauses st /\
     Launcher.reads st' = Launcher.reads st /\
     Launcher.asked st' = S (Launcher.asked st)).
Proof.
  induction fuel as [|fuel IH]; intros st st' Hrun; [done|].
  cbn [await] in Hrun.
  destruct (Launcher.ShouldAllow w (Launcher.asked st)) eqn:Hallow.
  { injection Hrun as <-. cbn. split_and!; try done; try lia. }
  cbn in Hrun.
  destruct (Launcher.IsRunning w (Launcher.reads st)) eqn:Hflag; cbn in Hrun.
  - apply IH in Hrun as (Hs & Ha & Hr & Hq & Hp & Hall & Hallow').
    cbn in *. split_and!; try done; try lia.
    intros Hal. by rewrite Hal in Hallow.
  - injection Hrun as <-. cbn. split_and!; try done; try lia.
    + intros Hall. by rewrite Hall in Hflag.
    + intros Hal. by rewrite Hal in Hallow.
Qed.

Lemma await_ends fuel w k :
  (forall n, (k <= n)%nat -> Launcher.IsRunning w n = false) ->
  forall st, (k - Launcher.reads st < fuel)%nat -> is_Some (await fuel w st).
Proof.
  intros Hk. induction fuel as [|fuel IH]; intros st Hfuel; [lia|].
  cbn [await].
  destruct (Launcher.ShouldAllow w (Launcher.asked st)); [by eexists|].
  cbn. destruct (Launcher.IsRunning w (Launcher.reads st)) eqn:Hflag; cbn;
    [|by eexists].
  apply IH. cbn.
  assert (Launcher.reads st < k)%nat; [|lia].
  destruct (decide (Launcher.reads st < k)%nat); [done|].
  rewrite Hk in Hflag by lia. done.
Qed.

Lemma executors_upto_snoc cr k :
  0 <= k ->
  executors_upto cr (k + 1) =
  executors_upto cr k ++ [(k, coroutineParams_of cr k)].
Proof.
  intros Hk. unfold executors_upto.
  rewrite seqZ_app by lia. rewrite fmap_app. f_equal.
Qed.

Lemma launch_invariant rounds fuel w cr :
  let N := Int.i64 (MaxConcurrencyInThisWoker (CaseRunner.Info cr)) in
  forall i st st',
    launch rounds fuel w cr i st = Some st' ->
    0 <= i ->
    Launcher.started st = executors_upto cr i ->
    Launcher.ActiveConcurrencyCount st = i ->
    exists k,
      i <= k <= Z.max i N /\
      Launcher.started st' = executors_upto cr k /\
      Launcher.ActiveConcurrencyCount st' = k /\
      (Launcher.reads st <= Launcher.reads st')%nat /\
      (k < N ->
       exists n, (Launcher.reads st <= n < Launcher.reads st')%nat /\
                 Launcher.IsRunning w n = false) /\
      ((forall n, Launcher.ShouldAllow w n = true) ->
       Launcher.pauses st' = Launcher.pauses st).
Proof.
  intros N. induction rounds as [|rounds IH]; intros i st st' Hrun Hi Hs Ha;
    [done|].
  cbn [launch] in Hrun. fold N in Hrun.
  assert (N < Int.two63) as HN.
  { unfold N, Int.i64, Int.two63, Int.two64.
    pose proof (Z.mod_pos_bound
      (MaxConcurrencyInThisWoker (CaseRunner.Info cr) + 2 ^ 63) (2 ^ 64)).
    lia. }
  destruct (Z.ltb_spec i N) as [Hlt|Hge]; cbn in Hrun.
  2:{ injection Hrun as <-. exists i. split_and!; try done; try lia. }
  destruct (await fuel w st) as [st1|] eqn:Hw; [|done].
  apply await_frame in Hw as (Hs1 & Ha1 & Hr1 & _ & _ & _ & Hp1).
  destruct (Launcher.IsRunning w (Launcher.reads st1)) eqn:Hflag;
    cbn in Hrun.
  - rewrite (i64_small (i + 1)) in Hrun by (unfold Int.two63 in *; lia).
    apply IH in Hrun as (k & Hk & Hs' & Ha' & Hr' & Hstop & Hp'); cbn.
    + exists k. cbn in Hr', Hstop, Hp'. split_and!; try done; try lia.
      * intros Hlt'. destruct (Hstop Hlt') as (n & Hn & Hf).
        exists n. split; [lia|done].
      * intros Hal. rewrite (Hp' Hal). by apply Hp1.
    + lia.
    + rewrite Hs1, Hs. by rewrite executors_upto_snoc.
    + rewrite Ha1, Ha. apply i64_small. unfold Int.two63 in *. lia.
  - injection Hrun as <-. cbn. exists i.
    split_and!; try done; try lia; try congruence.
    + intros _. exists (Launcher.reads st1). split; [lia|done].
    + intros Hal. by apply Hp1.
Qed.

Lemma goroutine_id_inj cr :
  Inj (=) (=) (fun i : Z => coroutineParams_of cr i !! InnerVarGoroutineId).
Proof.
  intros i j. unfold coroutineParams_of. rewrite !lookup_insert_eq.
  intros [= Heq].
  apply (inj (String.append _)) in Heq.
  apply (inj (String.append "-")) in Heq.
  unfold sprint in Heq. by apply (inj pretty) in Heq.
Qed.

(** The loop that starts the executors. When it ends it has started the
    executors 0 to [k - 1], in this order, each with the map of its own
    index, and [ActiveConcurrencyCount] is [k], for a [k] of at most the
    concurrency [N] of the worker (none when [N], as an [int], is
    negative); their [__goroutine_id] are distinct. It starts fewer than
    [N] only after it has read the flag of the case as false. *)
Theorem launch_starts_a_prefix rounds fuel w cr st' :
  let N := Int.i64 (MaxConcurrencyInThisWoker (CaseRunner.Info cr)) in
  launch rounds fuel w cr 0 Launcher.init = Some st' ->
  exists k,
    0 <= k <= Z.max 0 N /\
    Launcher.started st' = executors_upto cr k /\
    Launcher.ActiveConcurrencyCount st' = k /\
    NoDup ((fun x => x.2 !! InnerVarGoroutineId) <$> Launcher.started st') /\
    (k < N -> exists n, (n < Launcher.reads st')%nat /\
                        Launcher.IsRunning w n = false).
Proof.
  intros N Hrun.
  apply launch_invariant in Hrun as (k & Hk & Hs & Ha & _ & Hstop & _);
    [|done..].
  exists k. split_and!; [lia..|done|done| |].
  - rewrite Hs. unfold executors_upto. rewrite <- list_fmap_compose.
    apply NoDup_fmap_2; [apply goroutine_id_inj|apply NoDup_seqZ].
  - intros Hlt. destruct (Hstop Hlt) as (n & Hn & Hf). exists n.
    split; [lia|done].
Qed.
Lemma widen_more fuel N R :
  forall limit d l more,
    Ramp.widen fuel N R limit d = Some l ->
    Ramp.widen (fuel + more) N R limit d = Some l.
Proof.
  induction fuel as [|fuel IH]; intros limit d l more; [done|].
  cbn [Ramp.widen Nat.add]. destruct (0 <? limit); [done|]. apply IH.
Qed.

Lemma limiter_more fuel fuel' info l :
  (fuel <= fuel')%nat ->
  Ramp.limiter fuel info = Some l -> Ramp.limiter fuel' info = Some l.
Proof.
  intros Hle. replace fuel' with (fuel + (fuel' - fuel))%nat by lia.
  unfold Ramp.limiter. destruct (0 <? RampingSeconds info); [|done].
  apply widen_more.
Qed.

Lemma launch_ends rounds fuel w cr k :
  let N := Int.i64 (MaxConcurrencyInThisWoker (CaseRunner.Info cr)) in
  (forall n, (k <= n)%nat -> Launcher.IsRunning w n = false) ->
  forall i st,
    0 <= i -> (Z.to_nat (N - i) < rounds)%nat ->
    (k - Launcher.reads st < fuel)%nat ->
    is_Some (launch rounds fuel w cr i st).
Proof.
  intros N Hk. induction rounds as [|rounds IH]; intros i st Hi Hr Hf; [lia|].
  cbn [launch]. fold N.
  assert (N < Int.two63) as HN.
  { unfold N, Int.i64, Int.two63, Int.two64.
    pose proof (Z.mod_pos_bound
      (MaxConcurrencyInThisWoker (CaseRunner.Info cr) + 2 ^ 63) (2 ^ 64)).
    lia. }
  destruct (Z.ltb_spec i N) as [Hlt|Hge]; cbn; [|by eexists].
  destruct (await_ends fuel w k Hk st Hf) as [st1 Hw]. rewrite Hw.
  apply await_frame in Hw as (_ & _ & Hr1 & _).
  destruct (Launcher.IsRunning w (Launcher.reads st1)); cbn; [|by eexists].
  rewrite (i64_small (i + 1)) by (unfold Int.two63 in *; lia).
  apply IH; cbn; lia.
Qed.

Lemma launch_allowed rounds fuel w cr :
  let N := Int.i64 (MaxConcurrencyInThisWoker (CaseRunner.Info cr)) in
  (forall n, Launcher.ShouldAllow w n = true) ->
  forall i st,
    0 <= i -> (Z.to_nat (N - i) < rounds)%nat -> (0 < fuel)%nat ->
    is_Some (launch rounds fuel w cr i st).
Proof.
  intros N Hal. induction rounds as [|rounds IH]; intros i st Hi Hr Hf; [lia|].
  cbn [launch]. fold N.
  assert (N < Int.two63) as HN.
  { unfold N, Int.i64, Int.two63, Int.two64.
    pose proof (Z.mod_pos_bound
      (MaxConcurrencyInThisWoker (CaseRunner.Info cr) + 2 ^ 63) (2 ^ 64)).
    lia. }
  destruct (Z.ltb_spec i N) as [Hlt|Hge]; cbn; [|by eexists].
  destruct fuel as [|fuel]; [lia|]. cbn [await]. rewrite Hal.
  cbn. destruct (Launcher.IsRunning w _); cbn; [|by eexists].
  rewrite (i64_small (i + 1)) by (unfold Int.two63 in *; lia).
  apply IH; cbn; lia.
Qed.

Lemma CaseRunner_Run_setup rounds fuel w cr name
    (steps : list (TestStep U)) :
  let N := MaxConcurrencyInThisWoker (CaseRunner.Info cr) in
  let R := RampingSeconds (CaseRunner.Info cr) in
  CaseRunner.TestCase_of cr = foldl AddStep (NewTestCase name) steps ->
  1 <= N < Int.two63 -> 0 <= R <= 9223372036 ->
  (Z.to_nat R < fuel)%nat ->
  Int.i64 N = N /\
  exists l,
    Ramp.limiter fuel (CaseRunner.Info cr) = Some l /\
    CaseRunner_Run rounds fuel w cr =
      match launch rounds fuel w cr 0 Launcher.init with
      | None => OutOfFuel
      | Some st =>
          Done (mkLaunched
                  (limited_steps steps (CaseRunner.Info cr)
                     (CaseRunner.GlobalParams cr)) l st)
      end.
Proof.
  intros N R Htc HN HR Hfuel.
  split; [apply i64_small; unfold Int.two63 in *; lia|].
  assert (exists l, Ramp.limiter fuel (CaseRunner.Info cr) = Some l)
    as [l Hl].
  { destruct (decide (R = 0)) as [H0|Hne].
    - unfold Ramp.limiter. fold R. rewrite H0. by eexists.
    - destruct (limiter_reaches (CaseRunner.Info cr)) as (w' & _ & _ & Hlim);
        [done|fold R; lia|].
      fold R in Hlim. eexists.
      eapply limiter_more; [|exact Hlim]. lia. }
  exists l. split; [done|].
  unfold CaseRunner_Run. rewrite Htc.
  rewrite limiter_keys_built. by rewrite Hl.
Qed.

(** [CaseRunner.Run] on a case whose steps were registered with
    [AddStep], for a concurrency [N] of 1 to 2^63 - 1 and a ramp of at
    most 9223372036 seconds: while the case is not stopped and the ramp
    limiter grants every request, [Run] returns after it has started the
    [N] executors 0 to [N - 1] without a pause, and
    [ActiveConcurrencyCount] is [N]. *)
Theorem CaseRunner_Run_starts_all rounds fuel w cr name
    (steps : list (TestStep U)) :
  let N := MaxConcurrencyInThisWoker (CaseRunner.Info cr) in
  let R := RampingSeconds (CaseRunner.Info cr) in
  CaseRunner.TestCase_of cr = foldl AddStep (NewTestCase name) steps ->
  1 <= N < Int.two63 -> 0 <= R <= 9223372036 ->
  (forall n, Launcher.IsRunning w n = true) ->
  (forall n, Launcher.ShouldAllow w n = true) ->
  (Z.to_nat N < rounds)%nat -> (Z.to_nat R < fuel)%nat ->
  exists l st',
    CaseRunner_Run rounds fuel w cr =
      Done (mkLaunched
              (limited_steps steps (CaseRunner.Info cr)
                 (CaseRunner.GlobalParams cr)) l st') /\
    Ramp.limiter fuel (CaseRunner.Info cr) = Some l /\
    Launcher.started st' = executors_upto cr N /\
    Launcher.ActiveConcurrencyCount st' = N /\
    Launcher.pauses st' = 0%nat.
Proof.
  intros N R Htc HN HR Hrun Hal Hrounds Hfuel.
  destruct (CaseRunner_Run_setup rounds fuel w cr name steps Htc HN HR Hfuel)
    as (Hi64 & l & Hl & ->). fold N in Hi64.
  pose proof (launch_allowed rounds fuel w cr Hal 0 Launcher.init) as Hex.
  cbv zeta in Hex. fold N in Hex. rewrite Hi64 in Hex.
  destruct Hex as [st' Hst']; [done|lia|lia|].
  rewrite Hst'. exists l, st'. split_and!; [done|done|..].
  all: apply launch_invariant in Hst' as (k & Hk & Hs & Ha & _ & Hstop & Hp);
    [|done..].
  all: cbv zeta in Hk, Hstop; fold N in Hk, Hstop; rewrite Hi64 in Hk, Hstop.
  all: assert (k = N) as ->
    by (destruct (decide (k < N)) as [Hlt|];
        [destruct (Hstop Hlt) as (n & _ & Hf); by rewrite Hrun in Hf|lia]).
  all: try done.
  by apply Hp.
Qed.

(** [CaseRunner.Run] ends when the case is stopped, whatever the ramp
    limiter answers: once the flag stays cleared, the loop over the
    executors returns, having started the executors 0 to [j - 1] for
    some [j] of at most [N]. *)
Theorem CaseRunner_Run_returns_after_stop rounds fuel w cr name
    (steps : list (TestStep U)) k :
  let N := MaxConcurrencyInThisWoker (CaseRunner.Info cr) in
  let R := RampingSeconds (CaseRunner.Info cr) in
  CaseRunner.TestCase_of cr = foldl AddStep (NewTestCase name) steps ->
  1 <= N < Int.two63 -> 0 <= R <= 9223372036 ->
  (forall n, (k <= n)%nat -> Launcher.IsRunning w n = false) ->
  (Z.to_nat N < rounds)%nat -> (Z.to_nat R < fuel)%nat -> (k < fuel)%nat ->
  exists res j,
    CaseRunner_Run rounds fuel w cr = Done res /\
    0 <= j <= N /\
    Launcher.started (launcher res) = executors_upto cr j /\
    Launcher.ActiveConcurrencyCount (launcher res) = j.
Proof.
  intros N R Htc HN HR Hstop Hrounds Hfuel Hk.
  destruct (CaseRunner_Run_setup rounds fuel w cr name steps Htc HN HR Hfuel)
    as (Hi64 & l & Hl & ->). fold N in Hi64.
  pose proof (launch_ends rounds fuel w cr k Hstop 0 Launcher.init) as Hex.
  cbv zeta in Hex. fold N in Hex. rewrite Hi64 in Hex.
  destruct Hex as [st' Hst']; [done|lia|cbn; lia|].
  rewrite Hst'.
  apply launch_invariant in Hst' as (j & Hj & Hs & Ha & _); [|done..].
  cbv zeta in Hj. fold N in Hj. rewrite Hi64 in Hj.
  eexists _, j. split_and!; [done|lia|lia|done|done].
Qed.

End LauncherFacts.

(** ** The worker: registry, status push and polling *)

Section PollingFacts.
Context {U : Type}.
Implicit Types (rw : WorkerRunner.t U) (cr : CaseRunner.t U).

(** The ways in which [RealRun] ends. *)
Lemma RealRun_cases rsp rw :
  let rw' := (RealRun rsp rw).1 in
  let a := (RealRun rsp rw).2 in
  (rw' = rw /\ (a = WorkerRunner.NoAction \/ a = WorkerRunner.Recovered)) \/
  (exists rsp' wi,
     rsp = Some rsp' /\
     RspWorkerPushStatus.Worker_of rsp' ≫= Worker.BaseInfo = Some wi /\
     ((rw' = set_Index (WorkerBaseInfo.Index wi) rw /\
       ((a = WorkerRunner.NoAction /\
         (RspWorkerPushStatus.ShouldRunCase rsp' = false ->
          RspWorkerPushStatus.ShouldStopCase rsp' = true ->
          WorkerRunner.RunningCaseRunner rw = None)) \/
        (a = WorkerRunner.Recovered /\
         RspWorkerPushStatus.ShouldRunCase rsp' = true) \/
        (exists cr, a = WorkerRunner.StopRunChannel cr /\
           RspWorkerPushStatus.ShouldRunCase rsp' = false /\
           RspWorkerPushStatus.ShouldStopCase rsp' = true /\
           WorkerRunner.RunningCaseRunner rw = Some cr))) \/
      (exists cr tci b,
         a = WorkerRunner.Launch cr /\
         RspWorkerPushStatus.ShouldRunCase rsp' = true /\
         RspWorkerPushStatus.TestCaseInfo_of rsp' = Some tci /\
         TestCaseInfo.BaseInfo tci = Some b /\
         WorkerRunner.CaseMaps rw !! CaseBaseInfo.Name b =
           Some (CaseRunner.TestCase_of cr) /\
         rw' = set_RunningCaseRunner (Some cr)
                 (set_Status "running"
                    (set_Index (WorkerBaseInfo.Index wi) rw))))).
Proof.
  cbv zeta. unfold RealRun. destruct rsp as [rsp|]; [|left; auto].
  destruct (RspWorkerPushStatus.Worker_of rsp ≫= Worker.BaseInfo)
    as [wi|] eqn:Hwi; [|left; auto].
  right. exists rsp, wi. split; [done|]. split; [done|].
  destruct (RspWorkerPushStatus.ShouldRunCase rsp) eqn:Hshould.
  2:{ left. destruct (RspWorkerPushStatus.ShouldStopCase rsp) eqn:Hstop.
      - cbn [set_Index WorkerRunner.RunningCaseRunner].
        destruct (WorkerRunner.RunningCaseRunner rw) as [cr|] eqn:Hcr;
          cbn; split; [done| |done|]; eauto 8.
      - cbn. split; [done|]. left. split; [done|]. done. }
  destruct (RspWorkerPushStatus.TestCaseInfo_of rsp) as [tci|] eqn:Htci;
    [|left; cbn; auto].
  destruct (TestCaseInfo.BaseInfo tci) as [b|] eqn:Hb; [|left; cbn; auto].
  cbn [set_Index WorkerRunner.CaseMaps WorkerRunner.BaseInfo
       WorkerBaseInfo.Index].
  destruct (WorkerRunner.CaseMaps rw !! CaseBaseInfo.Name b) as [tc|] eqn:Htc.
  2:{ left. cbn. split; [done|]. left. split; [done|]. done. }
  destruct (Z.leb_spec
    (Int.i64 (Int.i64 (CaseBaseInfo.TotalMaxConcurrency b) -
              Int.i64 (Int.i64 (CaseBaseInfo.WorkerConcurrency b) *
                       WorkerBaseInfo.Index wi))) 0) as [|Hpos];
    cbv beta iota zeta.
  { left. cbn. split; [done|]. left. split; [done|]. done. }
  right. eexists _, tci, b. cbn [fst snd]. split_and!; try done.
Qed.

(** What the lines of [RealRun] after the status push leave as they
    are, whatever the answer of the coordinator. *)
Lemma RealRun_after_push rsp rw :
  let rw' := (RealRun rsp rw).1 in
  let a := (RealRun rsp rw).2 in
  WorkerRunner.CaseMaps rw' = WorkerRunner.CaseMaps rw /\
  WorkerRunner.CoordinatorApi rw' = WorkerRunner.CoordinatorApi rw /\
  WorkerBaseInfo.TestCases (WorkerRunner.BaseInfo rw') =
    WorkerBaseInfo.TestCases (WorkerRunner.BaseInfo rw) /\
  WorkerBaseInfo.Name (WorkerRunner.BaseInfo rw') =
    WorkerBaseInfo.Name (WorkerRunner.BaseInfo rw) /\
  WorkerBaseInfo.ID (WorkerRunner.BaseInfo rw') =
    WorkerBaseInfo.ID (WorkerRunner.BaseInfo rw) /\
  match a with
  | WorkerRunner.Launch cr =>
      WorkerRunner.RunningCaseRunner rw' = Some cr /\
      WorkerBaseInfo.Status (WorkerRunner.BaseInfo rw') = "running" /\
      exists name,
        WorkerRunner.CaseMaps rw !! name = Some (CaseRunner.TestCase_of cr)
  | WorkerRunner.StopRunChannel cr =>
      WorkerRunner.RunningCaseRunner rw = Some cr /\
      WorkerRunner.RunningCaseRunner rw' = Some cr /\
      WorkerBaseInfo.Status (WorkerRunner.BaseInfo rw') =
        WorkerBaseInfo.Status (WorkerRunner.BaseInfo rw) /\
      exists rsp', rsp = Some rsp' /\
        RspWorkerPushStatus.ShouldRunCase rsp' = false
  | _ =>
      WorkerRunner.RunningCaseRunner rw' = WorkerRunner.RunningCaseRunner rw /\
      WorkerBaseInfo.Status (WorkerRunner.BaseInfo rw') =
        WorkerBaseInfo.Status (WorkerRunner.BaseInfo rw)
  end.
Proof.
  intros rw' a. subst rw' a.
  destruct (RealRun_cases rsp rw)
    as [[-> [-> | ->]]
       |(rsp' & wi & -> & Hwi &
         [[-> [[-> _] | [[-> _] | (cr & -> & Hrun & _ & Hcr)]]]
         |(cr & tci & b & -> & _ & _ & _ & Htc & ->)])];
    cbn; split_and!; try done; eauto.
Qed.

Lemma summary_names_summarise name n (l : list TestCaseSummary.t) :
  TestCaseSummary.Name <$> (summarise name n <$> l) =
  TestCaseSummary.Name <$> l.
Proof.
  rewrite <- list_fmap_compose. apply list_fmap_ext. intros _ s _.
  unfold summarise. cbn. by destruct (String.eqb _ _).
Qed.

Lemma PushStatus_state post rw :
  let rw' := (PushStatus post rw).1 in
  let cr' :=
    match WorkerRunner.RunningCaseRunner rw with
    | Some cr => if CaseRunner.IsRunning cr then Some cr else None
    | None => None
    end in
  WorkerRunner.CaseMaps rw' = WorkerRunner.CaseMaps rw /\
  WorkerRunner.RunningCaseRunner rw' = cr' /\
  WorkerBaseInfo.Status (WorkerRunner.BaseInfo rw') =
    match WorkerRunner.RunningCaseRunner rw, cr' with
    | Some _, None => "idle"
    | _, _ => WorkerBaseInfo.Status (WorkerRunner.BaseInfo rw)
    end /\
  WorkerBaseInfo.TestCases (WorkerRunner.BaseInfo rw') =
    summarise
      (match cr' with
       | Some cr => CaseName (CaseRunner.TestCase_of cr)
       | None => EmptyString
       end)
      (match cr' with
       | Some cr => CaseRunner.ActiveConcurrencyCount cr
       | None => 0
       end) <$> WorkerBaseInfo.TestCases (WorkerRunner.BaseInfo rw) /\
  (PushStatus post rw).2 = post (WorkerRunner.BaseInfo rw') ≫= id.
Proof.
  cbv zeta. unfold PushStatus.
  destruct (WorkerRunner.RunningCaseRunner rw) as [cr|] eqn:Hcr.
  - destruct (CaseRunner.IsRunning cr) eqn:Hflag; cbn.
    + rewrite Hcr.
      destruct (post _) as [[?|]|] eqn:E; cbn; by rewrite ?E.
    + destruct (post _) as [[?|]|] eqn:E; cbn; by rewrite ?E.
  - rewrite Hcr. cbn.
    destruct (post _) as [[?|]|] eqn:E; cbn; by rewrite ?E.
Qed.

Lemma PushStatus_frame post rw :
  let rw' := (PushStatus post rw).1 in
  WorkerRunner.CoordinatorApi rw' = WorkerRunner.CoordinatorApi rw /\
  WorkerBaseInfo.Name (WorkerRunner.BaseInfo rw') =
    WorkerBaseInfo.Name (WorkerRunner.BaseInfo rw) /\
  WorkerBaseInfo.ID (WorkerRunner.BaseInfo rw') =
    WorkerBaseInfo.ID (WorkerRunner.BaseInfo rw) /\
  WorkerBaseInfo.Index (WorkerRunner.BaseInfo rw') =
    WorkerBaseInfo.Index (WorkerRunner.BaseInfo rw).
Proof.
  cbv zeta. unfold PushStatus.
  destruct (WorkerRunner.RunningCaseRunner rw) as [cr|] eqn:Hcr.
  - destruct (CaseRunner.IsRunning cr) eqn:Hflag; cbn.
    + rewrite Hcr. by destruct (post _) as [[?|]|].
    + by destruct (post _) as [[?|]|].
  - rewrite Hcr. cbn. by destruct (post _) as [[?|]|].
Qed.

(** One call of [RealRun], with the status push it starts with,
    whatever the coordinator answers. It never touches the registered
    cases, the name and the id of the worker and the address of the
    coordinator. The summaries keep their names and their order: the
    push rewrites the status and the count of each from the Case Runner
    that is still running, and the rest of the call leaves them so. The
    push drops a Case Runner whose flag is cleared and sets the status
    to "idle" then. After that the Case Runner held and the status
    change only when the call starts a Case Runner, which it takes from
    the registered cases; a call that starts one stops none, and a call
    that stops one stops the Case Runner that is still running and
    keeps it. *)
Theorem poll_keeps_the_registry post rw :
  let rw' := (poll post rw).1 in
  let a := (poll post rw).2 in
  let live :=
    match WorkerRunner.RunningCaseRunner rw with
    | Some cr => if CaseRunner.IsRunning cr then Some cr else None
    | None => None
    end in
  let pushed :=
    match WorkerRunner.RunningCaseRunner rw, live with
    | Some _, None => "idle"
    | _, _ => WorkerBaseInfo.Status (WorkerRunner.BaseInfo rw)
    end in
  WorkerRunner.CaseMaps rw' = WorkerRunner.CaseMaps rw /\
  WorkerRunner.CoordinatorApi rw' = WorkerRunner.CoordinatorApi rw /\
  WorkerBaseInfo.Name (WorkerRunner.BaseInfo rw') =
    WorkerBaseInfo.Name (WorkerRunner.BaseInfo rw) /\
  WorkerBaseInfo.ID (WorkerRunner.BaseInfo rw') =
    WorkerBaseInfo.ID (WorkerRunner.BaseInfo rw) /\
  summary_names rw' = summary_names rw /\
  WorkerBaseInfo.TestCases (WorkerRunner.BaseInfo rw') =
    summarise
      (match live with
       | Some cr => CaseName (CaseRunner.TestCase_of cr)
       | None => EmptyString
       end)
      (match live with
       | Some cr => CaseRunner.ActiveConcurrencyCount cr
       | None => 0
       end) <$> WorkerBaseInfo.TestCases (WorkerRunner.BaseInfo rw) /\
  match a with
  | WorkerRunner.Launch cr =>
      WorkerRunner.RunningCaseRunner rw' = Some cr /\
      WorkerBaseInfo.Status (WorkerRunner.BaseInfo rw') = "running" /\
      exists name,
        WorkerRunner.CaseMaps rw !! name = Some (CaseRunner.TestCase_of cr)
  | WorkerRunner.StopRunChannel cr =>
      live = Some cr /\
      WorkerRunner.RunningCaseRunner rw' = Some cr /\
      WorkerBaseInfo.Status (WorkerRunner.BaseInfo rw') = pushed /\
      exists rsp', (PushStatus post rw).2 = Some rsp' /\
        RspWorkerPushStatus.ShouldRunCase rsp' = false
  | _ =>
      WorkerRunner.RunningCaseRunner rw' = live /\
      WorkerBaseInfo.Status (WorkerRunner.BaseInfo rw') = pushed
  end.
Proof.
  intros rw' a live pushed. subst rw' a.
  destruct (PushStatus_state post rw) as (Hm & Hr & Hs & Ht & _).
  destruct (PushStatus_frame post rw) as (Hapi & Hname & Hid & _).
  fold live in Hr, Hs, Ht. fold pushed in Hs.
  unfold poll. destruct (PushStatus post rw) as [rw1 rsp] eqn:Hpush.
  cbn [fst snd] in *.
  destruct (RealRun_after_push rsp rw1) as (Hm' & Hapi' & Ht' & Hname' & Hid' & Ha).
  cbv zeta in Ha. unfold summary_names.
  rewrite Hm', Hapi', Ht', Hname', Hid', Hm, Hapi, Hname, Hid, Ht.
  split_and!; [done..|apply summary_names_summarise|done|].
  destruct (RealRun rsp rw1).2 as [|cr|cr|]; rewrite ?Hm, ?Hr, ?Hs in Ha.
  - by destruct Ha as (-> & ->).
  - done.
  - by destruct Ha as (Hlive & -> & -> & Hrsp).
  - by destruct Ha as (-> & ->).
Qed.

Lemma PushStatus_consistent post rw :
  consistent rw -> consistent (PushStatus post rw).1.
Proof.
  intros (Hnd & Hdom & Hname & Hcr & Hst).
  destruct (PushStatus_state post rw) as (Hm & Hr & Hs & Ht & _).
  unfold consistent, summary_names in *.
  rewrite Hm, Hr, Hs, Ht, summary_names_summarise.
  split_and!; [done..| |].
  - intros cr. destruct (WorkerRunner.RunningCaseRunner rw) as [cr0|];
      [|done]. destruct (CaseRunner.IsRunning cr0); [|done].
    intros [= <-]. by apply Hcr.
  - destruct (WorkerRunner.RunningCaseRunner rw) as [cr0|]; [|done].
    by destruct (CaseRunner.IsRunning cr0).
Qed.

Lemma RealRun_consistent rsp rw :
  consistent rw -> consistent (RealRun rsp rw).1.
Proof.
  intros (Hnd & Hdom & Hname & Hcr & Hst).
  destruct (RealRun_cases rsp rw)
    as [[-> _]
       |(rsp' & wi & -> & Hwi &
         [[-> _]|(cr & tci & b & _ & _ & _ & _ & Htc & ->)])];
    [done|done|].
  unfold consistent, summary_names in *. cbn. split_and!; [done..| |done].
  intros cr' [= <-]. by rewrite (Hname _ _ Htc).
Qed.

Lemma AddTestCase_consistent (tc : TestCase U) rw rw' :
  consistent rw -> AddTestCase tc rw = Some rw' -> consistent rw'.
Proof.
  intros (Hnd & Hdom & Hname & Hcr & Hst). unfold AddTestCase.
  destruct (WorkerRunner.CaseMaps rw !! CaseName tc) eqn:Hfresh; [done|].
  intros [= <-]. unfold consistent, summary_names in *. cbn.
  rewrite fmap_app. cbn.
  assert (CaseName tc ∉
          TestCaseSummary.Name <$>
            WorkerBaseInfo.TestCases (WorkerRunner.BaseInfo rw)) as Hnot.
  { intros Hel. apply Hdom in Hel as [? Hel]. congruence. }
  split_and!.
  - apply NoDup_app. split_and!; [done| |apply NoDup_singleton].
    intros x Hx ->%list_elem_of_singleton. done.
  - intros name. rewrite elem_of_app, list_elem_of_singleton, Hdom.
    destruct (decide (name = CaseName tc)) as [->|Hne].
    + rewrite lookup_insert_eq. split; [by eexists|auto].
    + rewrite lookup_insert_ne by done. split; [by intros [?|?]|auto].
  - intros name tc'. destruct (decide (name = CaseName tc)) as [->|Hne].
    + rewrite lookup_insert_eq. by intros [= <-].
    + rewrite lookup_insert_ne by done. apply Hname.
  - intros cr Hr. specialize (Hcr cr Hr).
    rewrite lookup_insert_ne; [done|]. intros Heq.
    rewrite <- Heq in Hcr. congruence.
  - done.
Qed.

Lemma NewWorkerRunner_consistent workerName coordinatorApi id :
  consistent (NewWorkerRunner (U := U) workerName coordinatorApi id).
Proof.
  unfold consistent, summary_names. cbn. split_and!; try done.
  - constructor.
  - intros n. rewrite lookup_empty. split; [by intros ?%elem_of_nil|].
    by intros [? ?].
Qed.

(** Every state of a worker is consistent: its cases have distinct
    names, each has one summary, and is registered under its own name;
    the Case Runner it holds runs a registered case; and its status is
    "running" exactly when it holds a Case Runner. *)
Theorem reachable_is_consistent rw : reachable rw -> consistent rw.
Proof.
  induction 1 as [name api id|tc rw rw' _ IH Hadd|post rw _ IH
                 |rw cr b n _ IH Hcr].
  - apply NewWorkerRunner_consistent.
  - by eapply AddTestCase_consistent.
  - unfold poll. destruct (PushStatus post rw) as [rw1 rsp] eqn:Hpush.
    apply RealRun_consistent.
    replace rw1 with (PushStatus post rw).1 by (by rewrite Hpush).
    by apply PushStatus_consistent.
  - destruct IH as (Hnd & Hdom & Hname & Hrun & Hst).
    unfold consistent, summary_names in *. cbn.
    split_and!; [done..| |by rewrite Hst, Hcr].
    intros cr' [= <-]. cbn. by apply Hrun.
Qed.

(** [AddTestCase]: a case is found again under its name, the cases
    registered before are found as before, and the case gets an idle
    summary at the end of the list; registering a name that is taken
    panics, so a registered case is never replaced. *)
Theorem AddTestCase_registers (tc : TestCase U) rw :
  (is_Some (WorkerRunner.CaseMaps rw !! CaseName tc) <->
   AddTestCase tc rw = None) /\
  (forall rw',
     AddTestCase tc rw = Some rw' ->
     WorkerRunner.CaseMaps rw' !! CaseName tc = Some tc /\
     (forall name, name <> CaseName tc ->
        WorkerRunner.CaseMaps rw' !! name = WorkerRunner.CaseMaps rw !! name) /\
     WorkerBaseInfo.TestCases (WorkerRunner.BaseInfo rw') =
       WorkerBaseInfo.TestCases (WorkerRunner.BaseInfo rw) ++
       [TestCaseSummary.mk (CaseName tc) "idle" 0 ""] /\
     (forall tc' : TestCase U,
        CaseName tc' = CaseName tc -> AddTestCase tc' rw' = None)).
Proof.
  unfold AddTestCase.
  destruct (WorkerRunner.CaseMaps rw !! CaseName tc) eqn:Hfresh.
  - split; [split; [done|by eexists]|done].
  - split; [split; [by intros [? ?]|done]|].
    intros rw' [= <-]. cbn. split_and!.
    + by rewrite lookup_insert_eq.
    + intros name Hne. by rewrite lookup_insert_ne.
    + done.
    + intros tc' ->. by rewrite lookup_insert_eq.
Qed.

(** What a status push reports. With a Case Runner whose flag is set,
    the summary of its case, and no other, says "running", with the
    count of executors of the runner; every other summary says "idle"
    with a count of 0. With no Case Runner, or one whose flag is
    cleared, the worker holds no runner afterwards and is idle, and
    every summary says "idle" with a count of 0, but for a case
    registered under the empty name, which is reported as running. The
    names and the order of the summaries stay; the coordinator is sent
    the base info so updated. *)
Theorem PushStatus_reports_the_running_case post rw :
  consistent rw ->
  let rw' := (PushStatus post rw).1 in
  let summaries := WorkerBaseInfo.TestCases (WorkerRunner.BaseInfo rw') in
  let live :=
    match WorkerRunner.RunningCaseRunner rw with
    | Some cr => if CaseRunner.IsRunning cr then Some cr else None
    | None => None
    end in
  consistent rw' /\
  summary_names rw' = summary_names rw /\
  (PushStatus post rw).2 = post (WorkerRunner.BaseInfo rw') ≫= id /\
  WorkerRunner.RunningCaseRunner rw' = live /\
  match live with
  | Some cr =>
      CaseName (CaseRunner.TestCase_of cr) ∈ summary_names rw' /\
      Forall (fun s =>
                if decide (TestCaseSummary.Name s =
                           CaseName (CaseRunner.TestCase_of cr))
                then TestCaseSummary.Status s = "running" /\
                     TestCaseSummary.ActiveConcurrencyCount s =
                       CaseRunner.ActiveConcurrencyCount cr
                else TestCaseSummary.Status s = "idle" /\
                     TestCaseSummary.ActiveConcurrencyCount s = 0)
        summaries
  | None =>
      WorkerBaseInfo.Status (WorkerRunner.BaseInfo rw') = "idle" /\
      Forall (fun s =>
                TestCaseSummary.ActiveConcurrencyCount s = 0 /\
                TestCaseSummary.Status s =
                  (if decide (TestCaseSummary.Name s = "")
                   then "running" else "idle"))
        summaries
  end.
Proof.
  intros Hc rw' summaries live.
  pose proof (PushStatus_consistent post rw Hc) as Hc'. fold rw' in Hc'.
  destruct (PushStatus_state post rw) as (Hm & Hr & Hs & Ht & Hp).
  fold rw' live in Hm, Hr, Hs, Ht, Hp. fold summaries in Ht.
  assert (summary_names rw' = summary_names rw) as Hnames.
  { unfold summary_names. fold summaries. rewrite Ht.
    apply summary_names_summarise. }
  split_and!; [done..|].
  destruct Hc' as (_ & Hdom' & _ & Hrun' & Hst').
  rewrite Hr in Hrun', Hst'.
  destruct live as [cr|].
  - split.
    + apply Hdom'. rewrite (Hrun' cr eq_refl). by eexists.
    + rewrite Ht. apply Forall_fmap, Forall_true. intros s. cbn.
      unfold summarise.
      destruct (String.eqb_spec (TestCaseSummary.Name s)
                  (CaseName (CaseRunner.TestCase_of cr))) as [Heq|Hne]; cbn.
      * by rewrite decide_True.
      * by rewrite decide_False.
  - split; [done|].
    rewrite Ht. apply Forall_fmap, Forall_true. intros s. cbn.
    unfold summarise.
    destruct (String.eqb_spec (TestCaseSummary.Name s) "") as [Heq|Hne];
      cbn.
    + by rewrite decide_True.
    + by rewrite decide_False.
Qed.

(** A stop request, in a round of polling that asks for no run. A Case
    Runner whose flag is set is handed to [StopRunChannel]; the worker
    goes on holding it and stays "running" until a later round finds the
    flag cleared. A Case Runner whose flag is cleared already was
    dropped by the status push of the round: nothing is stopped, and the
    worker is idle. Without a Case Runner nothing is stopped. The index
    of the answer is taken in each case. *)
Theorem poll_stop_request post rw rsp wi :
  consistent rw ->
  (PushStatus post rw).2 = Some rsp ->
  RspWorkerPushStatus.Worker_of rsp ≫= Worker.BaseInfo = Some wi ->
  RspWorkerPushStatus.ShouldRunCase rsp = false ->
  RspWorkerPushStatus.ShouldStopCase rsp = true ->
  let rw' := (poll post rw).1 in
  let a := (poll post rw).2 in
  WorkerBaseInfo.Index (WorkerRunner.BaseInfo rw') = WorkerBaseInfo.Index wi /\
  match WorkerRunner.RunningCaseRunner rw with
  | Some cr =>
      if CaseRunner.IsRunning cr
      then a = WorkerRunner.StopRunChannel cr /\
           WorkerRunner.RunningCaseRunner rw' = Some cr /\
           WorkerBaseInfo.Status (WorkerRunner.BaseInfo rw') = "running"
      else a = WorkerRunner.NoAction /\
           WorkerRunner.RunningCaseRunner rw' = None /\
           WorkerBaseInfo.Status (WorkerRunner.BaseInfo rw') = "idle"
  | None =>
      a = WorkerRunner.NoAction /\
      WorkerRunner.RunningCaseRunner rw' = None /\
      WorkerBaseInfo.Status (WorkerRunner.BaseInfo rw') = "idle"
  end.
Proof.
  intros Hc Hrsp Hwi Hrun Hstop rw' a. subst rw' a. unfold poll.
  pose proof (PushStatus_consistent post rw Hc) as (_ & _ & _ & _ & Hst').
  destruct (PushStatus_state post rw) as (_ & Hr & _ & _ & _).
  destruct (PushStatus post rw) as [rw1 rsp1]. cbn [fst snd] in *.
  subst rsp1. unfold RealRun. rewrite Hwi, Hrun, Hstop.
  cbn [set_Index WorkerRunner.RunningCaseRunner].
  rewrite Hr in Hst' |- *.
  destruct (WorkerRunner.RunningCaseRunner rw) as [cr|].
  - destruct (CaseRunner.IsRunning cr); cbn; by rewrite ?Hr.
  - cbn. by rewrite ?Hr.
Qed.

End PollingFacts.

Lemma runner_now_consistent {U} (rw : WorkerRunner.t U) cr isRunning n :
  consistent rw -> WorkerRunner.RunningCaseRunner rw = Some cr ->
  consistent (set_RunningCaseRunner (Some (runner_now isRunning n cr)) rw).
Proof.
  intros (Hnd & Hdom & Hname & Hrun & Hst) Hcr.
  unfold consistent, summary_names in *. cbn.
  split_and!; [done..| |by rewrite Hst, Hcr].
  intros cr' [= <-]. cbn. by apply Hrun.
Qed.

Lemma worker_with_case_consistent : consistent worker_with_case.
Proof.
  apply (AddTestCase_consistent (NewTestCase "api_test")
           (NewWorkerRunner "worker-1" "http://coordinator:8080" "id-1"));
    [apply NewWorkerRunner_consistent|reflexivity].
Qed.

Lemma reachable_is_consistent_witness :
  consistent (poll (fun _ => Some (Some (response 10 4 0 2)))
                worker_with_case).1.
Proof.
  apply reachable_is_consistent.
  apply reach_poll.
  apply (reach_add (NewTestCase "api_test")
           (NewWorkerRunner "worker-1" "http://coordinator:8080" "id-1")).
  - apply reach_new.
  - reflexivity.
Defined.

Lemma PushStatus_reports_the_running_case_witness :
  let rw' := (PushStatus (fun _ => None) worker_with_case).1 in
  consistent rw' /\
  WorkerBaseInfo.TestCases (WorkerRunner.BaseInfo rw') =
    [TestCaseSummary.mk "api_test" "idle" 0 ""].
Proof.
  cbv zeta. split; [|reflexivity].
  apply (PushStatus_reports_the_running_case (fun _ => None)
           worker_with_case).
  apply worker_with_case_consistent.
Defined.


Lemma poll_consistent {U} post (rw : WorkerRunner.t U) :
  consistent rw -> consistent (poll post rw).1.
Proof.
  intros Hc. unfold poll.
  destruct (PushStatus post rw) as [rw1 rsp] eqn:Hpush.
  apply RealRun_consistent.
  replace rw1 with (PushStatus post rw).1 by (by rewrite Hpush).
  by apply PushStatus_consistent.
Qed.

Lemma running_worker_consistent : consistent running_worker.
Proof.
  unfold running_worker.
  pose proof (poll_consistent (fun _ => Some (Some (response 10 4 0 2)))
                worker_with_case worker_with_case_consistent) as Hc.
  destruct (WorkerRunner.RunningCaseRunner _) as [cr|] eqn:Hcr; [|done].
  by apply runner_now_consistent.
Qed.

Lemma poll_stop_request_witness :
  let rw' := (poll (fun _ => Some (Some stop_response)) running_worker).1 in
  let a := (poll (fun _ => Some (Some stop_response)) running_worker).2 in
  WorkerBaseInfo.Index (WorkerRunner.BaseInfo rw') = 2 /\
  match WorkerRunner.RunningCaseRunner running_worker with
  | Some cr =>
      if CaseRunner.IsRunning cr
      then a = WorkerRunner.StopRunChannel cr /\
           WorkerRunner.RunningCaseRunner rw' = Some cr /\
           WorkerBaseInfo.Status (WorkerRunner.BaseInfo rw') = "running"
      else a = WorkerRunner.NoAction /\
           WorkerRunner.RunningCaseRunner rw' = None /\
           WorkerBaseInfo.Status (WorkerRunner.BaseInfo rw') = "idle"
  | None =>
      a = WorkerRunner.NoAction /\
      WorkerRunner.RunningCaseRunner rw' = None /\
      WorkerBaseInfo.Status (WorkerRunner.BaseInfo rw') = "idle"
  end.
Proof.
  apply (poll_stop_request (fun _ => Some (Some stop_response))
           running_worker stop_response
           (WorkerBaseInfo.mk "worker-1" "id-1" 2 "idle" []));
    [apply running_worker_consistent|reflexivity..].
Defined.

(** ** The batches of the aggregator *)

Section BatchFacts.
Context `{TDigestLib} {U : Type}.
Implicit Types (st : Agg) (k : CallTimeMapKey) (cr : CaseRunner.t U).

Lemma sketch_of_is_Some (l : list Z) : is_Some (sketch_of l) -> l <> [].
Proof. by destruct l; [intros [? ?]|]. Qed.

Lemma samples_for_source cr k rs :
  samples_for cr k rs <> [] -> exists r, r ∈ rs /\ k ∈ keys_of cr r.
Proof.
  unfold samples_for. intros Hne.
  destruct (filter (fun res => k ∈ keys_of cr res) rs) as [|r l] eqn:Hf;
    [done|].
  assert (r ∈ filter (fun res => k ∈ keys_of cr res) rs) as Hin
    by (rewrite Hf; left).
  apply list_elem_of_filter in Hin as [? ?]. eauto.
Qed.

Lemma window_sublist t0 (obs : list (Z * Result)) :
  (window t0 obs).2 ⊆ obs.
Proof.
  induction obs as [|o obs IH] using rev_ind; [done|].
  unfold window in *. rewrite foldl_snoc. unfold window_step at 1.
  destruct (decide _); cbn.
  - intros x ->%list_elem_of_singleton. apply elem_of_app. right. by left.
  - intros x [Hx| ->%list_elem_of_singleton]%elem_of_app;
      apply elem_of_app; [left; by apply IH|right; by left].
Qed.

Lemma observe_records c rs : (observe c rs).*2 = rs.
Proof.
  revert c. induction rs as [|r rs IH]; intros c; [done|].
  cbn. by rewrite IH.
Qed.

(** Every key of the map is a key of a record received. *)
Lemma fold_loop_keys cr rs c k :
  is_Some (callTimeMap (fold_loop cr rs c) !! k) ->
  exists r, r ∈ rs /\ k ∈ keys_of cr r.
Proof.
  destruct (fold_loop_invariant cr c rs) as (_ & _ & Hmap).
  rewrite Hmap. intros Hsome%sketch_of_is_Some.
  destruct (is_integral k); [by apply samples_for_source|].
  apply samples_for_source in Hsome as (r & Hr & Hk).
  exists r. split; [|done]. rewrite <- (observe_records
    (Time.mkClock (Time.readings c) (S (Time.cursor c))) rs).
  apply list_elem_of_fmap in Hr as ([t r'] & -> & Hr).
  apply list_elem_of_fmap. exists (t, r'). split; [done|].
  by apply (window_sublist _ _ _ Hr).
Qed.

Lemma keys_of_plain cr r k : k ∈ keys_of cr r -> Key.with_Ts 0 k = k.
Proof.
  unfold keys_of. rewrite !elem_of_cons, elem_of_nil.
  intros [->|[->|[->|[->|[]]]]]; reflexivity.
Qed.

Lemma batch_well_formed cr rs c ts :
  callTimeMap (fold_loop cr rs c) <> ∅ ->
  well_formed_batch cr rs (batch ts (callTimeMap (fold_loop cr rs c))).
Proof.
  set (m := callTimeMap (fold_loop cr rs c)). intros Hne.
  assert (forall k, k ∈ (map_to_list m).*1 ->
            exists r, r ∈ rs /\ k ∈ keys_of cr r) as Hkeys.
  { intros k ([k' v] & -> & Hin%elem_of_map_to_list)%list_elem_of_fmap.
    apply (fold_loop_keys cr rs c). by eexists. }
  unfold well_formed_batch, batch. split_and!.
  - intros Hnil%fmap_nil_inv. by apply map_to_list_empty_iff in Hnil.
  - rewrite <- list_fmap_compose.
    apply NoDup_fmap_2_strong; [|apply NoDup_map_to_list].
    intros [k1 v1] [k2 v2] Hk1 Hk2 Heq. cbn in Heq.
    destruct (Hkeys k1) as (r1 & _ & H1).
    { apply list_elem_of_fmap. by exists (k1, v1). }
    destruct (Hkeys k2) as (r2 & _ & H2).
    { apply list_elem_of_fmap. by exists (k2, v2). }
    assert (k1 = k2) as ->.
    { rewrite <- (keys_of_plain _ _ _ H1), <- (keys_of_plain _ _ _ H2).
      destruct k1, k2. cbn in *. by simplify_eq. }
    apply elem_of_map_to_list in Hk1, Hk2. congruence.
  - exists ts. apply Forall_fmap, Forall_forall. intros [k v] Hin. cbn.
    split; [done|].
    destruct (Hkeys k) as (r & Hr & Hk).
    { apply list_elem_of_fmap. by exists (k, v). }
    exists r. split; [done|].
    replace (Key.with_Ts 0 (Key.with_Ts ts k)) with (Key.with_Ts 0 k)
      by (by destruct k).
    by rewrite (keys_of_plain _ _ _ Hk).
Qed.

Lemma send_well_formed cr rs c ts chan :
  Forall (well_formed_batch cr rs) chan ->
  Forall (well_formed_batch cr rs)
    (send (batch ts (callTimeMap (fold_loop cr rs c))) chan).
Proof.
  intros Hall. unfold send. destruct (decide _) as [Hlen|]; [|done].
  apply Forall_app. split; [done|]. constructor; [|constructor].
  apply batch_well_formed. intros Hempty.
  rewrite Hempty in Hlen. unfold batch in Hlen.
  rewrite map_to_list_empty in Hlen. cbn in Hlen. lia.
Qed.

Lemma well_formed_batch_mono cr rs r b :
  well_formed_batch cr rs b -> well_formed_batch cr (rs ++ [r]) b.
Proof.
  intros (Hne & Hnd & ts & Hall). split_and!; [done..|].
  exists ts. eapply Forall_impl; [exact Hall|].
  intros metric (Hts & r' & Hr' & Hk). split; [done|].
  exists r'. split; [|done]. apply elem_of_app. by left.
Qed.

Lemma fold_loop_batches cr rs c :
  Forall (well_formed_batch cr rs) (MetricsChan (fold_loop cr rs c)).
Proof.
  induction rs as [|r rs IH] using rev_ind; [constructor|].
  unfold fold_loop. rewrite foldl_snoc. fold (fold_loop cr rs c).
  destruct (consume_spec cr (fold_loop cr rs c) r) as (_ & _ & _ & ->).
  assert (Forall (well_formed_batch cr (rs ++ [r]))
            (MetricsChan (fold_loop cr rs c))) as IH'.
  { eapply Forall_impl; [exact IH|]. intros b. apply well_formed_batch_mono. }
  destruct (decide _); [|done].
  eapply Forall_impl; [apply (send_well_formed cr rs c); exact IH|].
  intros b. apply well_formed_batch_mono.
Qed.

(** The batches that the aggregator sends during a run are well formed:
    none is empty, none holds two metrics under one key, the keys of a
    batch carry one and the same minute, and every key is a key of a
    record received. Without a record nothing is sent. *)
Theorem HandleOuput_batches_are_well_formed cr (rs : list Result)
    (c : Time.Clock) :
  Forall (well_formed_batch cr rs) (MetricsChan (HandleOuput cr rs c)) /\
  MetricsChan (HandleOuput cr [] c) = [].
Proof.
  split; [|reflexivity].
  unfold HandleOuput, final_flush, Time.UnixMilli.
  rewrite final_pass_spec. cbn [MetricsChan].
  apply send_well_formed, fold_loop_batches.
Qed.


End BatchFacts.

(** ** Calls and their samples; concrete runs *)

(** The sample of a call, on a clock that does not run backwards: with
    [Begin] and [End] it is the time from the one to the other; with
    [End] alone it counts from [AcquireResult]; with [Begin] and no
    [End] it is zero or negative, since [EndTime] is still the reading
    that [AcquireResult] took. *)
Theorem latency_of_a_call name (c : Time.Clock) :
  (forall n, Time.readings c n <= Time.readings c (S n)) ->
  (forall n, - 2 ^ 62 <= Time.readings c n < 2 ^ 62) ->
  let t := fun n => Time.readings c (Time.cursor c + n) in
  let r0 := (AcquireResult name c).1 in
  let c0 := (AcquireResult name c).2 in
  let r1 := (Result_Begin r0 c0).1 in
  let c1 := (Result_Begin r0 c0).2 in
  (latency (Result_End r1 c1).1 = t 3%nat - t 2%nat /\
   0 <= latency (Result_End r1 c1).1) /\
  (latency (Result_End r0 c0).1 = t 2%nat - t 0%nat /\
   0 <= latency (Result_End r0 c0).1) /\
  (latency r1 = t 1%nat - t 2%nat /\ latency r1 <= 0).
Proof.
  intros Hmono Hrange t r0 c0 r1 c1.
  subst t r0 c0 r1 c1. destruct c as [readings cursor].
  unfold latency, GetEndTime, GetBeginTime. cbn in *.
  pose proof (Hmono cursor). pose proof (Hmono (S cursor)).
  pose proof (Hmono (S (S cursor))).
  pose proof (Hrange cursor). pose proof (Hrange (S cursor)).
  pose proof (Hrange (S (S cursor))). pose proof (Hrange (S (S (S cursor)))).
  rewrite Nat.add_0_r.
  replace (cursor + 1)%nat with (S cursor) by lia.
  replace (cursor + 2)%nat with (S (S cursor)) by lia.
  replace (cursor + 3)%nat with (S (S (S cursor))) by lia.
  rewrite !i64_small by (unfold Int.two63; lia). lia.
Qed.

Lemma latency_of_a_call_witness :
  let c := Time.clock_of [100; 100; 110; 150] 150 in
  let r1 := (Result_Begin (AcquireResult "login" c).1
               (AcquireResult "login" c).2).1 in
  let c1 := (Result_Begin (AcquireResult "login" c).1
               (AcquireResult "login" c).2).2 in
  latency (Result_End r1 c1).1 = 150 - 110 /\
  0 <= latency (Result_End r1 c1).1.
Proof.
  apply (latency_of_a_call "login" (Time.clock_of [100; 100; 110; 150] 150)).
  - intros [|[|[|[|[|[|n]]]]]]; cbn; lia.
  - intros [|[|[|[|[|n]]]]]; cbn; lia.
Defined.

Lemma login_case_ready : Forall step_ready (Teststeps login_case).
Proof.
  constructor; [|constructor]. unfold step_ready, provides_results. cbn.
  split_and!.
  - eexists. split; [reflexivity|]. intros ? ?. by eexists.
  - eexists. split; [reflexivity|]. intros m [readings cursor].
    eexists. split; [reflexivity|]. by eexists.
  - by eexists.
  - by eexists.
  - by eexists.
Qed.

Lemma stopped_executor_returns_witness :
  (Run 4 login_case ∅ (coroutineParams_of (runner_of login_case) 0)
     (running_for 3) (info_of 4 0) start).1 = Done tt.
Proof.
  apply (stopped_executor_returns 4 login_case ∅
           (coroutineParams_of (runner_of login_case) 0)
           (running_for 3) (info_of 4 0) start 3).
  - intros n Hn. unfold running_for. cbn [IsRunning]. apply Nat.ltb_ge. lia.
  - cbn. lia.
  - apply login_case_ready.
Defined.

Lemma TearDown_once_at_the_end_witness :
  let cp := coroutineParams_of (runner_of teardown_case) 0 in
  let st' := (Run 4 teardown_case ∅ cp (running_for 3) (info_of 4 0)
                start).2 in
  teardowns (events_since start st') = [cp].
Proof.
  cbv zeta.
  apply (TearDown_once_at_the_end 4 teardown_case ∅
           (coroutineParams_of (runner_of teardown_case) 0)
           (running_for 3) (info_of 4 0) start (Done tt)).
  vm_compute. reflexivity.
Defined.

Lemma step_without_generator_or_plugin_witness :
  let ts' := registered 0 unfinished_step in
  let r := run_step (running_for 3) (params_of login_case) ts' start in
  plugin_calls (events_since start r.2) = [] /\
  (r.1 = Panicked \/
   exists flow, r.1 = Done flow /\ pre_calls (events_since start r.2) = []).
Proof.
  cbv zeta.
  apply (proj2 (step_without_generator_or_plugin (running_for 3)
                  (params_of login_case) (NewTestCase "api_test")
                  unfinished_step (registered 0 unfinished_step) start
                  _ _ eq_refl (surjective_pairing _))).
  reflexivity.
Defined.

Lemma declined_step_is_skipped_witness :
  let r := run_step (running_for 3) (params_of login_case) declined_step
             start in
  r.1 = Done Next /\
  length (events_since start r.2) = 2%nat.
Proof.
  cbv zeta.
  destruct (declined_step_is_skipped (running_for 3) (params_of login_case)
              declined_step start _ _
              (<[InnerVarExecutorIndex := "0"]>
                 (<[InnerVarGoroutineId := "api_test-0"]>
                    (<[InnerVarName := "login"]>
                       (<["username" := "test"]>
                          (<["password" := "123456"]> ∅)))))
              (surjective_pairing _)) as (Ho & Hev & _).
  - vm_compute. right. left.
  - split; [exact Ho|]. by rewrite Hev.
Defined.

Lemma AddStep_at_distinct_steps_witness :
  exists tc' : CaseAt Time.Clock,
    AddSteps_at [7; 3]%nat
      (mkCaseAt []
         (<[3%nat := step_of "pay" (status_plugin "pay" 200)]>
            (<[7%nat := step_of "create" (status_plugin "create" 500)]> ∅)))
    = Some tc' /\
    GetStepIndex <$> steps_at tc' = ["0"; "1"].
Proof.
  destruct (AddStep_at_distinct_steps "checkout" [7; 3]%nat
              (<[3%nat := step_of "pay" (status_plugin "pay" 200)]>
                 (<[7%nat := step_of "create" (status_plugin "create" 500)]>
                    ∅))) as (tc' & Hrun & _ & Hsteps & _).
  - apply NoDup_cons.
    split; [by intros ?%list_elem_of_singleton|apply NoDup_singleton].
  - intros p Hp. apply elem_of_cons in Hp as [->|Hp]; [by eexists|].
    apply list_elem_of_singleton in Hp as ->. by eexists.
  - exists tc'. split; [exact Hrun|]. rewrite Hsteps. reflexivity.
Defined.

Lemma AddStep_at_same_step_twice_witness :
  exists tc2 : CaseAt Time.Clock,
    at_steps tc2 = [7; 7]%nat /\
    GetStepIndex <$> steps_at tc2 = ["1"; "1"].
Proof.
  pose (σ := <[7%nat := step_of "create" (status_plugin "create" 500)]> ∅
             : gmap nat (TestStep Time.Clock)).
  destruct (AddStep_at 7 (mkCaseAt [] σ)) as [tc1|] eqn:H1; [|done].
  destruct (AddStep_at 7 tc1) as [tc2|] eqn:H2;
    [|by vm_compute in H1; injection H1 as <-].
  destruct (AddStep_at_same_step_twice 7 (mkCaseAt [] σ) tc1 tc2 H1 H2)
    as (Hs & _).
  exists tc2. split; [exact Hs|].
  vm_compute in H1. injection H1 as <-.
  vm_compute in H2. injection H2 as <-. reflexivity.
Defined.

Lemma launch_starts_a_prefix_witness :
  exists st' k,
    launch 5 1 unhindered (runner_of login_case) 0 Launcher.init = Some st' /\
    0 <= k <= 4 /\
    Launcher.started st' = executors_upto (runner_of login_case) k /\
    Launcher.ActiveConcurrencyCount st' = k.
Proof.
  destruct (launch 5 1 unhindered (runner_of login_case) 0 Launcher.init)
    as [st'|] eqn:Hrun; [|by vm_compute in Hrun].
  destruct (launch_starts_a_prefix 5 1 unhindered (runner_of login_case) st'
              Hrun) as (k & Hk & Hs & Ha & _).
  change (Z.max 0 _) with 4 in Hk.
  exists st', k. split_and!; [done|lia|lia|done|done].
Defined.

Lemma CaseRunner_Run_starts_all_witness :
  exists l st',
    CaseRunner_Run 5 1 unhindered (runner_of login_case) =
      Done (mkLaunched [] l st') /\
    Launcher.started st' = executors_upto (runner_of login_case) 4 /\
    Launcher.ActiveConcurrencyCount st' = 4.
Proof.
  destruct (CaseRunner_Run_starts_all 5 1 unhindered (runner_of login_case)
              "api_test" [step_of "login" (status_plugin "login" 200)])
    as (l & st' & Hrun & _ & Hs & Ha & _).
  - reflexivity.
  - unfold Int.two63. cbn. lia.
  - cbn. lia.
  - done.
  - done.
  - cbn. lia.
  - cbn. lia.
  - exists l, st'. split_and!; [exact Hrun|exact Hs|exact Ha].
Defined.

Lemma CaseRunner_Run_returns_after_stop_witness :
  exists res j,
    CaseRunner_Run 5 3 (stopped_after 2) (runner_of login_case) = Done res /\
    0 <= j <= 4 /\
    Launcher.started (launcher res) =
      executors_upto (runner_of login_case) j.
Proof.
  destruct (CaseRunner_Run_returns_after_stop 5 3 (stopped_after 2)
              (runner_of login_case) "api_test"
              [step_of "login" (status_plugin "login" 200)] 2)
    as (res & j & Hrun & Hj & Hs & _).
  - reflexivity.
  - unfold Int.two63. cbn. lia.
  - cbn. lia.
  - intros n Hn. unfold stopped_after. cbn [Launcher.IsRunning].
    apply Nat.ltb_ge. lia.
  - cbn. lia.
  - cbn. lia.
  - lia.
  - change (MaxConcurrencyInThisWoker _) with 4 in Hj.
    exists res, j. split_and!; [exact Hrun|lia..|exact Hs].
Defined.


Lemma registered_case_does_not_panic_witness :
  (Run 4 login_case ∅ (coroutineParams_of (runner_of login_case) 0)
     (running_for 9) (info_of 4 0) start).1 <> Panicked.
Proof.
  apply (registered_case_does_not_panic "api_test"
           [step_of "login" (status_plugin "login" 200)]).
  constructor; [|constructor]. split.
  - eexists. split; [reflexivity|]. intros ? ?. by eexists.
  - eexists. split; [reflexivity|]. intros m [readings cursor].
    eexists. split; [reflexivity|]. by eexists.
Defined.

(** ** The dispatcher of the rate limiter *)

Section DispatcherFacts.
Implicit Types (w : Dispatcher.World) (st : Dispatcher.St) (k : string).

(** One key: the queue loses its head or stays; the other queues stay. *)
Lemma serve_spec w st k :
  let st' := serve w st k in
  (forall k', k' <> k ->
     Dispatcher.QMap st' !! k' = Dispatcher.QMap st !! k') /\
  (Dispatcher.reads st <= Dispatcher.reads st')%nat /\
  ((Dispatcher.QMap st' = Dispatcher.QMap st /\
    Dispatcher.released st' = Dispatcher.released st /\
    Dispatcher.isHit st' = Dispatcher.isHit st /\
    (forall ch rest, Dispatcher.QMap st !! k = Some (ch :: rest) ->
       Dispatcher.ShouldAllow w k (Dispatcher.asked st) = false /\
       Dispatcher.IsRunning w (Dispatcher.reads st) = true)) \/
   (exists ch rest,
      Dispatcher.QMap st !! k = Some (ch :: rest) /\
      Dispatcher.QMap st' = <[k := rest]> (Dispatcher.QMap st) /\
      Dispatcher.released st' = Dispatcher.released st ++ [ch] /\
      Dispatcher.isHit st' = true /\
      (Dispatcher.ShouldAllow w k (Dispatcher.asked st) = true \/
       Dispatcher.IsRunning w (Dispatcher.reads st) = false))).
Proof.
  cbv zeta. unfold serve.
  destruct (Dispatcher.QMap st !! k) as [[|ch rest]|] eqn:Hq.
  - split_and!; [done|lia|]. left. split_and!; done.
  - destruct (Dispatcher.ShouldAllow w k (Dispatcher.asked st)) eqn:Haw;
      cbn.
    + split_and!; [by intros k' ?; rewrite lookup_insert_ne|lia|].
      right. exists ch, rest. split_and!; auto.
    + destruct (Dispatcher.IsRunning w (Dispatcher.reads st)) eqn:Hrun;
        cbn.
      * split_and!; [done|lia|]. left. split_and!; try done.
      * split_and!; [by intros k' ?; rewrite lookup_insert_ne|lia|].
        right. exists ch, rest. split_and!; auto.
  - split_and!; [done|lia|]. left. split_and!; done.
Qed.

(** The loop over the keys: every queue keeps its waiters but for the
    head, which it may lose when its key is visited; what is released
    is a head that its queue has lost. *)
Lemma serve_fold w (keys : list string) :
  NoDup keys ->
  forall st,
    let st' := foldl (serve w) st keys in
    (forall k q, Dispatcher.QMap st !! k = Some q ->
       Dispatcher.QMap st' !! k = Some q \/
       (k ∈ keys /\ exists ch rest,
          q = ch :: rest /\ Dispatcher.QMap st' !! k = Some rest /\
          ch ∈ Dispatcher.released st')) /\
    (forall k, Dispatcher.QMap st !! k = None ->
               Dispatcher.QMap st' !! k = None) /\
    (Dispatcher.reads st <= Dispatcher.reads st')%nat /\
    (exists l,
       Dispatcher.released st' = Dispatcher.released st ++ l /\
       (Dispatcher.isHit st' =
          Dispatcher.isHit st || bool_decide (l <> [])) /\
       forall ch, ch ∈ l ->
         exists k rest, k ∈ keys /\
           Dispatcher.QMap st !! k = Some (ch :: rest) /\
           Dispatcher.QMap st' !! k = Some rest) /\
    ((forall n, (Dispatcher.reads st <= n)%nat ->
                Dispatcher.IsRunning w n = false) ->
     forall k ch rest,
       k ∈ keys -> Dispatcher.QMap st !! k = Some (ch :: rest) ->
       Dispatcher.QMap st' !! k = Some rest) /\
    ((forall n, Dispatcher.IsRunning w n = true) ->
     (forall k n, Dispatcher.ShouldAllow w k n = false) ->
     Dispatcher.QMap st' = Dispatcher.QMap st /\
     Dispatcher.released st' = Dispatcher.released st).
Proof.
  induction keys as [|k0 keys IH]; intros Hnd st; cbn [foldl].
  - cbv zeta. split_and!.
    + intros k q Hk. by left.
    + done.
    + lia.
    + exists []. rewrite app_nil_r, orb_false_r. split_and!; [done..|].
      by intros ch ?%elem_of_nil.
    + by intros _ k ch rest ?%elem_of_nil.
    + done.
  - apply NoDup_cons in Hnd as [Hk0 Hnd].
    specialize (IH Hnd (serve w st k0)). cbv zeta in IH |- *.
    set (st1 := serve w st k0) in *.
    set (st' := foldl (serve w) st1 keys) in *.
    destruct IH
      as (Hq & Hnone & Hreads & (l & Hrel & Hhit & Hl) & Hstop & Hrun).
    destruct (serve_spec w st k0) as (Hother & Hr1 & Hcase).
    fold st1 in Hother, Hr1, Hcase.
    assert (forall k q, k ∉ keys -> Dispatcher.QMap st1 !! k = Some q ->
              Dispatcher.QMap st' !! k = Some q) as Hkeep.
    { intros k q Hk Hk1. destruct (Hq k q Hk1) as [?|(Hin & _)]; done. }
    destruct Hcase as [(Hm & Hrel1 & Hhit1 & Hdeny)
                      |(ch0 & rest0 & Hq0 & Hm & Hrel1 & Hhit1 & Hwhy)].
    + (* the queue of [k0] is left as it is *)
      rewrite Hm in *. split_and!.
      * intros k q Hk. destruct (Hq k q Hk) as [?|(Hin & ch & rest & ?)];
          [by left|right]. split; [by right|]. eauto.
      * done.
      * lia.
      * exists l. rewrite Hrel, Hrel1, Hhit, Hhit1. split_and!; [done..|].
        intros ch Hch. destruct (Hl ch Hch) as (k & rest & ? & ? & ?).
        exists k, rest. split_and!; [by right|done..].
      * intros Hfalse k ch rest Hk Hkq.
        apply elem_of_cons in Hk as [->|Hk].
        -- destruct (Hdeny ch rest Hkq) as [_ Hr].
           rewrite Hfalse in Hr by lia. done.
        -- apply (Hstop (fun n Hn => Hfalse n ltac:(lia)) k ch rest Hk Hkq).
      * intros Htrue Hdenyall. destruct (Hrun Htrue Hdenyall) as [-> ->].
        by rewrite Hrel1.
    + (* the queue of [k0] loses its head *)
      assert (Dispatcher.QMap st1 !! k0 = Some rest0) as Hk01
        by (by rewrite Hm, lookup_insert_eq).
      pose proof (Hkeep k0 rest0 Hk0 Hk01) as Hk0'.
      split_and!.
      * intros k q Hk. destruct (decide (k = k0)) as [->|Hne].
        -- right. split; [by left|]. exists ch0, rest0.
           rewrite Hq0 in Hk. injection Hk as <-. split_and!; [done..|].
           rewrite Hrel, Hrel1. apply elem_of_app. left.
           apply elem_of_app. right. by left.
        -- rewrite <- (Hother k Hne) in Hk.
           destruct (Hq k q Hk) as [?|(Hin & ch & rest & ?)]; [by left|right].
           split; [by right|]. eauto.
      * intros k Hk. apply Hnone. rewrite Hother; [done|].
        intros ->. congruence.
      * lia.
      * exists (ch0 :: l). rewrite Hrel, Hrel1, <- app_assoc. cbn.
        rewrite Hhit, Hhit1, orb_true_r. split_and!; [done| |].
        { done. }
        intros ch Hch. apply elem_of_cons in Hch as [->|Hch].
        -- exists k0, rest0. split_and!; [by left|done..].
        -- destruct (Hl ch Hch) as (k & rest & Hin & Hk1 & Hk').
           exists k, rest. split_and!; [by right| |done].
           rewrite <- (Hother k); [done|]. by intros ->.
      * intros Hfalse k ch rest Hk Hkq.
        apply elem_of_cons in Hk as [->|Hk].
        -- rewrite Hq0 in Hkq. by injection Hkq as <- <-.
        -- assert (k <> k0) as Hne by (by intros ->).
           apply (Hstop (fun n Hn => Hfalse n ltac:(lia)) k ch rest Hk).
           by rewrite (Hother k Hne).
      * intros Htrue Hdenyall. destruct Hwhy as [Haw|Hr].
        -- by rewrite Hdenyall in Haw.
        -- by rewrite Htrue in Hr.
Qed.

Lemma sweep_fold w st :
  let st0 :=
    Dispatcher.mkSt (Dispatcher.QMap st) (Dispatcher.released st)
      (Dispatcher.asked st) (Dispatcher.reads st) (Dispatcher.pauses st)
      false in
  let st1 := foldl (serve w) st0 (map_to_list (Dispatcher.QMap st)).*1 in
  Dispatcher.QMap (sweep w st) = Dispatcher.QMap st1 /\
  Dispatcher.released (sweep w st) = Dispatcher.released st1 /\
  Dispatcher.reads (sweep w st) = Dispatcher.reads st1 /\
  Dispatcher.pauses (sweep w st) =
    (if Dispatcher.isHit st1 then Dispatcher.pauses st1
     else S (Dispatcher.pauses st1)).
Proof. cbv zeta. unfold sweep. cbn. by destruct (Dispatcher.isHit _). Qed.

Lemma serve_pauses w st k :
  Dispatcher.pauses (serve w st k) = Dispatcher.pauses st.
Proof.
  unfold serve. destruct (Dispatcher.QMap st !! k) as [[|ch rest]|]; try done.
  destruct (Dispatcher.ShouldAllow _ _ _); cbn; [done|].
  by destruct (Dispatcher.IsRunning _ _).
Qed.

Lemma serve_fold_pauses w (keys : list string) st :
  Dispatcher.pauses (foldl (serve w) st keys) = Dispatcher.pauses st.
Proof.
  revert st. induction keys as [|k keys IH]; intros st; [done|].
  cbn. by rewrite IH, serve_pauses.
Qed.

Lemma queue_keys (m : gmap string (list nat)) k :
  k ∈ (map_to_list m).*1 <-> is_Some (m !! k).
Proof.
  rewrite list_elem_of_fmap. split.
  - intros ([k' q] & -> & Hin%elem_of_map_to_list). by eexists.
  - intros [q Hq]. exists (k, q). split; [done|].
    by apply elem_of_map_to_list.
Qed.

Lemma sweep_asked w st :
  Dispatcher.asked (sweep w st) =
  Dispatcher.asked
    (foldl (serve w)
       (Dispatcher.mkSt (Dispatcher.QMap st) (Dispatcher.released st)
          (Dispatcher.asked st) (Dispatcher.reads st) (Dispatcher.pauses st)
          false)
       (map_to_list (Dispatcher.QMap st)).*1).
Proof. unfold sweep. cbn. by destruct (Dispatcher.isHit _). Qed.

(** One key whose queue is not empty: the limiter is asked once, and the
    flag is read once when the limiter denies; the head leaves in the
    two cases of line 80 and in no other. *)
Lemma serve_why w st k ch rest :
  Dispatcher.QMap st !! k = Some (ch :: rest) ->
  let st' := serve w st k in
  Dispatcher.asked st' = S (Dispatcher.asked st) /\
  ((Dispatcher.QMap st' !! k = Some rest /\
    ((Dispatcher.ShouldAllow w k (Dispatcher.asked st) = true /\
      Dispatcher.reads st' = Dispatcher.reads st) \/
     (Dispatcher.ShouldAllow w k (Dispatcher.asked st) = false /\
      Dispatcher.IsRunning w (Dispatcher.reads st) = false /\
      Dispatcher.reads st' = S (Dispatcher.reads st)))) \/
   (Dispatcher.QMap st' !! k = Some (ch :: rest) /\
    Dispatcher.ShouldAllow w k (Dispatcher.asked st) = false /\
    Dispatcher.IsRunning w (Dispatcher.reads st) = true /\
    Dispatcher.reads st' = S (Dispatcher.reads st))).
Proof.
  intros Hq. cbv zeta. unfold serve. rewrite Hq.
  destruct (Dispatcher.ShouldAllow w k (Dispatcher.asked st)) eqn:Haw; cbn.
  - split; [done|]. left. rewrite lookup_insert_eq. auto.
  - destruct (Dispatcher.IsRunning w (Dispatcher.reads st)) eqn:Hrun; cbn.
    + split; [done|]. right. auto.
    + split; [done|]. left. rewrite lookup_insert_eq. auto.
Qed.

Lemma serve_counts w st k :
  (Dispatcher.asked st <= Dispatcher.asked (serve w st k))%nat /\
  (Dispatcher.reads st <= Dispatcher.reads (serve w st k))%nat.
Proof.
  unfold serve. destruct (Dispatcher.QMap st !! k) as [[|ch rest]|];
    [lia| |lia].
  destruct (Dispatcher.ShouldAllow _ _ _); cbn; [lia|].
  destruct (Dispatcher.IsRunning _ _); cbn; lia.
Qed.

Lemma serve_fold_counts w (keys : list string) st :
  (Dispatcher.asked st <= Dispatcher.asked (foldl (serve w) st keys))%nat /\
  (Dispatcher.reads st <= Dispatcher.reads (foldl (serve w) st keys))%nat.
Proof.
  revert st. induction keys as [|k keys IH]; intros st; cbn [foldl]; [lia|].
  destruct (IH (serve w st k)), (serve_counts w st k). lia.
Qed.

Lemma serve_fold_other w (keys : list string) st k :
  k ∉ keys ->
  Dispatcher.QMap (foldl (serve w) st keys) !! k = Dispatcher.QMap st !! k.
Proof.
  revert st. induction keys as [|k0 keys IH]; intros st Hk; [done|].
  apply not_elem_of_cons in Hk as [Hne Hk]. cbn [foldl].
  rewrite IH by done.
  by destruct (serve_spec w st k0) as (Hother & _); apply Hother.
Qed.

(** The loop over the keys, for a key whose queue is not empty: the
    limiter is asked for the key in the loop; the head leaves when the
    answer grants a token, or when it denies and the flag read in the
    loop is cleared; it stays when the answer denies and the flag read
    is set. *)
Lemma serve_fold_why w (keys : list string) :
  NoDup keys ->
  forall st k ch rest,
    let st' := foldl (serve w) st keys in
    k ∈ keys -> Dispatcher.QMap st !! k = Some (ch :: rest) ->
    (Dispatcher.QMap st' !! k = Some rest /\
     exists n,
       (Dispatcher.asked st <= n < Dispatcher.asked st')%nat /\
       (Dispatcher.ShouldAllow w k n = true \/
        (Dispatcher.ShouldAllow w k n = false /\
         exists m,
           (Dispatcher.reads st <= m < Dispatcher.reads st')%nat /\
           Dispatcher.IsRunning w m = false))) \/
    (Dispatcher.QMap st' !! k = Some (ch :: rest) /\
     exists n m,
       (Dispatcher.asked st <= n < Dispatcher.asked st')%nat /\
       (Dispatcher.reads st <= m < Dispatcher.reads st')%nat /\
       Dispatcher.ShouldAllow w k n = false /\
       Dispatcher.IsRunning w m = true).
Proof.
  induction keys as [|k0 keys IH]; intros Hnd st k ch rest;
    cbn [foldl]; cbv zeta.
  { by intros ?%elem_of_nil. }
  apply NoDup_cons in Hnd as [Hk0 Hnd].
  set (st1 := serve w st k0). set (st' := foldl (serve w) st1 keys).
  destruct (serve_counts w st k0) as [Ha1 Hr1]. fold st1 in Ha1, Hr1.
  destruct (serve_fold_counts w keys st1) as [Ha2 Hr2].
  fold st' in Ha2, Hr2.
  intros [->|Hk]%elem_of_cons Hq.
  - destruct (serve_why w st k0 ch rest Hq) as (Hasked & Hcase).
    fold st1 in Hasked, Hcase.
    unfold st'. rewrite (serve_fold_other w keys st1 k0 Hk0). fold st'.
    destruct Hcase
      as [(Hm & [(Haw & Hreads)|(Haw & Hrun & Hreads)])
         |(Hm & Haw & Hrun & Hreads)].
    + left. split; [done|]. exists (Dispatcher.asked st).
      split; [lia|]. by left.
    + left. split; [done|]. exists (Dispatcher.asked st).
      split; [lia|]. right. split; [done|].
      exists (Dispatcher.reads st). split; [lia|done].
    + right. split; [done|].
      exists (Dispatcher.asked st), (Dispatcher.reads st).
      split_and!; [lia..|done|done].
  - assert (k <> k0) as Hne by (by intros ->).
    destruct (serve_spec w st k0) as (Hother & _). fold st1 in Hother.
    rewrite <- (Hother k Hne) in Hq.
    pose proof (IH Hnd st1 k ch rest Hk Hq) as Hrec.
    cbv zeta in Hrec. fold st' in Hrec.
    destruct Hrec
      as [(Hm & n & Hn & Hwhy)|(Hm & n & m & Hn & Hm' & Haw & Hrun)].
    + left. split; [done|]. exists n. split; [lia|].
      destruct Hwhy as [?|(? & m & ? & ?)]; [by left|right].
      split; [done|]. exists m. split; [lia|done].
    + right. split; [done|]. exists n, m. split_and!; [lia..|done|done].
Qed.

(** One round of the dispatcher. Every queue keeps its waiters, in
    their order, but for its head, which is released when the limiter
    grants the step a token or the case is stopped: a step releases at
    most one executor per round, first come first served. The round
    releases nothing else, and pauses exactly when it has released
    nothing. While the case runs and the limiter grants nothing, no
    executor is released. Key by key: a queue loses its head only when
    the limiter, asked for its key in the round, grants a token, or
    denies it and the flag of the case, read in the round, is cleared;
    a queue that is not empty keeps its head only when the limiter,
    asked for its key in the round, denies and the flag read is set. *)
Theorem sweep_serves_the_heads w st :
  let st' := sweep w st in
  (forall k q, Dispatcher.QMap st !! k = Some q ->
     Dispatcher.QMap st' !! k = Some q \/
     exists ch rest,
       q = ch :: rest /\ Dispatcher.QMap st' !! k = Some rest /\
       ch ∈ Dispatcher.released st') /\
  (forall k, Dispatcher.QMap st !! k = None ->
             Dispatcher.QMap st' !! k = None) /\
  (exists l,
     Dispatcher.released st' = Dispatcher.released st ++ l /\
     Dispatcher.pauses st' =
       (if bool_decide (l <> []) then Dispatcher.pauses st
        else S (Dispatcher.pauses st)) /\
     forall ch, ch ∈ l ->
       exists k rest,
         Dispatcher.QMap st !! k = Some (ch :: rest) /\
         Dispatcher.QMap st' !! k = Some rest) /\
  ((forall n, Dispatcher.IsRunning w n = true) ->
   (forall k n, Dispatcher.ShouldAllow w k n = false) ->
   Dispatcher.QMap st' = Dispatcher.QMap st /\
   Dispatcher.released st' = Dispatcher.released st /\
   Dispatcher.pauses st' = S (Dispatcher.pauses st)) /\
  (forall k ch rest,
     Dispatcher.QMap st !! k = Some (ch :: rest) ->
     Dispatcher.QMap st' !! k = Some rest ->
     exists n,
       (Dispatcher.asked st <= n < Dispatcher.asked st')%nat /\
       (Dispatcher.ShouldAllow w k n = true \/
        (Dispatcher.ShouldAllow w k n = false /\
         exists m,
           (Dispatcher.reads st <= m < Dispatcher.reads st')%nat /\
           Dispatcher.IsRunning w m = false))) /\
  (forall k ch rest,
     Dispatcher.QMap st !! k = Some (ch :: rest) ->
     Dispatcher.QMap st' !! k = Some (ch :: rest) ->
     exists n m,
       (Dispatcher.asked st <= n < Dispatcher.asked st')%nat /\
       (Dispatcher.reads st <= m < Dispatcher.reads st')%nat /\
       Dispatcher.ShouldAllow w k n = false /\
       Dispatcher.IsRunning w m = true).
Proof.
  intros st'. subst st'.
  assert (forall k ch rest,
            Dispatcher.QMap st !! k = Some (ch :: rest) ->
            (Dispatcher.QMap (sweep w st) !! k = Some rest /\
             exists n,
               (Dispatcher.asked st <= n < Dispatcher.asked (sweep w st))%nat /\
               (Dispatcher.ShouldAllow w k n = true \/
                (Dispatcher.ShouldAllow w k n = false /\
                 exists m,
                   (Dispatcher.reads st <= m <
                    Dispatcher.reads (sweep w st))%nat /\
                   Dispatcher.IsRunning w m = false))) \/
            (Dispatcher.QMap (sweep w st) !! k = Some (ch :: rest) /\
             exists n m,
               (Dispatcher.asked st <= n < Dispatcher.asked (sweep w st))%nat /\
               (Dispatcher.reads st <= m < Dispatcher.reads (sweep w st))%nat /\
               Dispatcher.ShouldAllow w k n = false /\
               Dispatcher.IsRunning w m = true)) as Hwhy.
  { intros k ch rest Hk. rewrite sweep_asked.
    destruct (sweep_fold w st) as (-> & _ & -> & _).
    assert (k ∈ (map_to_list (Dispatcher.QMap st)).*1) as Hin
      by (apply queue_keys; by eexists).
    apply (serve_fold_why w _ (NoDup_fst_map_to_list _)
             (Dispatcher.mkSt (Dispatcher.QMap st) (Dispatcher.released st)
                (Dispatcher.asked st) (Dispatcher.reads st)
                (Dispatcher.pauses st) false) k ch rest Hin Hk). }
  assert (forall (ch : nat) rest, rest <> ch :: rest) as Hlen.
  { intros ch rest Heq. apply (f_equal length) in Heq. cbn in Heq. lia. }
  destruct (sweep_fold w st) as (-> & -> & _ & ->).
  set (st0 := Dispatcher.mkSt _ _ _ _ _ false).
  destruct (serve_fold w (map_to_list (Dispatcher.QMap st)).*1
              (NoDup_fst_map_to_list _) st0)
    as (Hq & Hnone & _ & (l & Hrel & Hhit & Hl) & _ & Hrun).
  cbn [Dispatcher.QMap Dispatcher.released Dispatcher.isHit st0] in *.
  rewrite serve_fold_pauses. cbn [Dispatcher.pauses st0].
  split_and!.
  - intros k q Hk. destruct (Hq k q Hk) as [?|(_ & ?)]; auto.
  - done.
  - exists l. rewrite Hhit. cbn. split_and!; [done|done|].
    intros ch Hch. destruct (Hl ch Hch) as (k & rest & _ & ? & ?). eauto.
  - intros Htrue Hdeny. destruct (Hrun Htrue Hdeny) as [Hm Hr].
    split_and!; [done..|].
    rewrite Hhit. rewrite Hr in Hrel.
    assert (l = []) as ->.
    { apply (app_inv_head (Dispatcher.released st)).
      by rewrite app_nil_r. }
    done.
  - intros k ch rest Hk Hk'.
    destruct (sweep_fold w st) as (Hmap & _). cbv zeta in Hmap.
    subst st0. rewrite <- Hmap in Hk'.
    destruct (Hwhy k ch rest Hk) as [(_ & ?)|(Hsame & _)]; [done|].
    rewrite Hk' in Hsame. injection Hsame as Hsame. by apply Hlen in Hsame.
  - intros k ch rest Hk Hk'.
    destruct (sweep_fold w st) as (Hmap & _). cbv zeta in Hmap.
    subst st0. rewrite <- Hmap in Hk'.
    destruct (Hwhy k ch rest Hk) as [(Hless & _)|(_ & ?)]; [|done].
    rewrite Hk' in Hless. injection Hless as Hless.
    symmetry in Hless. by apply Hlen in Hless.
Qed.

Lemma sweep_stopped w st :
  (forall n, (Dispatcher.reads st <= n)%nat ->
             Dispatcher.IsRunning w n = false) ->
  (Dispatcher.reads st <= Dispatcher.reads (sweep w st))%nat /\
  (forall ch, ch ∈ Dispatcher.released st ->
              ch ∈ Dispatcher.released (sweep w st)) /\
  forall k q, Dispatcher.QMap st !! k = Some q ->
    Dispatcher.QMap (sweep w st) !! k = Some (tail q) /\
    forall ch, head q = Some ch -> ch ∈ Dispatcher.released (sweep w st).
Proof.
  intros Hfalse.
  destruct (sweep_fold w st) as (-> & -> & -> & _).
  set (st0 := Dispatcher.mkSt _ _ _ _ _ false).
  destruct (serve_fold w (map_to_list (Dispatcher.QMap st)).*1
              (NoDup_fst_map_to_list _) st0)
    as (Hq & _ & Hreads & (l & Hrel & _) & Hstop & _).
  cbn [Dispatcher.QMap Dispatcher.released Dispatcher.reads st0] in *.
  split_and!; [done| |].
  - intros ch Hch. rewrite Hrel. apply elem_of_app. by left.
  - intros k q Hk. destruct q as [|ch rest].
    + split; [|done]. destruct (Hq k [] Hk) as [?|(_ & ? & ? & ? & _)]; done.
    + assert (k ∈ (map_to_list (Dispatcher.QMap st)).*1) as Hin
        by (apply queue_keys; by eexists).
      pose proof (Hstop Hfalse k ch rest Hin Hk) as Hrest.
      split; [done|]. intros ch' [= <-].
      destruct (Hq k _ Hk) as [Hsame|(_ & ch' & rest' & [= <- <-] & _ & ?)];
        [|done].
      rewrite Hrest in Hsame. injection Hsame as Hsame.
      apply (f_equal length) in Hsame. cbn in Hsame. lia.
Qed.

(** Once the case is stopped, the dispatcher releases every executor
    that waits, whatever the limiter answers: after [n] rounds every
    queue has lost its first [n] waiters, which were all released; so
    after as many rounds as the longest queue is long, every queue is
    empty. (No executor joins a queue meanwhile: an executor of a
    stopped case leaves its loop.) *)
Theorem dispatcher_drains_after_stop (n : nat) w st :
  (forall m, (Dispatcher.reads st <= m)%nat ->
             Dispatcher.IsRunning w m = false) ->
  let st' := sweeps n w st in
  (forall k q, Dispatcher.QMap st !! k = Some q ->
     Dispatcher.QMap st' !! k = Some (drop n q) /\
     forall ch, ch ∈ take n q -> ch ∈ Dispatcher.released st') /\
  ((forall k q, Dispatcher.QMap st !! k = Some q -> (length q <= n)%nat) ->
   forall k q, Dispatcher.QMap st !! k = Some q ->
     Dispatcher.QMap st' !! k = Some [] /\
     forall ch, ch ∈ q -> ch ∈ Dispatcher.released st').
Proof.
  intros Hfalse st'. subst st'.
  assert (forall n st,
            (forall m, (Dispatcher.reads st <= m)%nat ->
                       Dispatcher.IsRunning w m = false) ->
            (forall ch, ch ∈ Dispatcher.released st ->
                        ch ∈ Dispatcher.released (sweeps n w st)) /\
            forall k q, Dispatcher.QMap st !! k = Some q ->
              Dispatcher.QMap (sweeps n w st) !! k = Some (drop n q) /\
              forall ch, ch ∈ take n q ->
                         ch ∈ Dispatcher.released (sweeps n w st)) as Hgen.
  { clear. induction n as [|n IH]; intros st Hfalse.
    - cbn. split; [done|]. intros k q Hk. split; [done|].
      by intros ch ?%elem_of_nil.
    - cbn [sweeps].
      destruct (sweep_stopped w st Hfalse) as (Hreads & Hmono & Hq).
      destruct (IH (sweep w st)) as (Hmono' & Hq').
      { intros m Hm. apply Hfalse. lia. }
      split; [by auto|].
      intros k q Hk. destruct (Hq k q Hk) as (Hk1 & Hhead).
      destruct (Hq' k _ Hk1) as (Hk2 & Htake).
      split.
      + rewrite Hk2. destruct q; cbn; [by rewrite drop_nil|done].
      + intros ch Hch.
        destruct q as [|ch0 rest]; [by apply elem_of_nil in Hch|].
        cbn in Hch. apply elem_of_cons in Hch as [->|Hch].
        * apply Hmono', Hhead. done.
        * by apply Htake. }
  destruct (Hgen n st Hfalse) as (_ & Hq). split; [done|].
  intros Hlen k q Hk. destruct (Hq k q Hk) as (Hk' & Hrel).
  specialize (Hlen k q Hk).
  rewrite drop_ge in Hk' by done. rewrite take_ge in Hrel by done. done.
Qed.

End DispatcherFacts.

Lemma dispatcher_drains_after_stop_witness :
  let st :=
    Dispatcher.mkSt (<["0" := [11; 12]%nat]> (<["2" := [21]%nat]> ∅))
      [] 0 0 0 false in
  let st' := sweeps 2 (Dispatcher.mkWorld (fun _ _ => false) (fun _ => false))
               st in
  Dispatcher.QMap st' !! "0" = Some [] /\
  forall ch, ch ∈ [11; 12]%nat -> ch ∈ Dispatcher.released st'.
Proof.
  cbv zeta.
  apply (proj2 (dispatcher_drains_after_stop 2
                  (Dispatcher.mkWorld (fun _ _ => false) (fun _ => false))
                  (Dispatcher.mkSt
                     (<["0" := [11; 12]%nat]> (<["2" := [21]%nat]> ∅))
                     [] 0 0 0 false)
                  (fun _ _ => eq_refl))).
  - intros k q. cbn [Dispatcher.QMap].
    destruct (decide (k = "0")) as [->|H0].
    { rewrite lookup_insert_eq. intros [= <-]. cbn. lia. }
    rewrite lookup_insert_ne by done.
    destruct (decide (k = "2")) as [->|H2].
    { rewrite lookup_insert_eq. intros [= <-]. cbn. lia. }
    rewrite lookup_insert_ne by done. by rewrite lookup_empty.
  - reflexivity.
Defined.

Lemma sweep_serves_the_heads_witness :
  let w :=
    Dispatcher.mkWorld (fun k _ => String.eqb k "0") (fun _ => true) in
  let st :=
    Dispatcher.mkSt (<["0" := [11; 12]%nat]> (<["2" := [21]%nat]> ∅))
      [] 0 0 0 false in
  let st' := sweep w st in
  (exists n,
     (Dispatcher.asked st <= n < Dispatcher.asked st')%nat /\
     (Dispatcher.ShouldAllow w "0" n = true \/
      (Dispatcher.ShouldAllow w "0" n = false /\
       exists m,
         (Dispatcher.reads st <= m < Dispatcher.reads st')%nat /\
         Dispatcher.IsRunning w m = false))) /\
  (exists n m,
     (Dispatcher.asked st <= n < Dispatcher.asked st')%nat /\
     (Dispatcher.reads st <= m < Dispatcher.reads st')%nat /\
     Dispatcher.ShouldAllow w "2" n = false /\
     Dispatcher.IsRunning w m = true).
Proof.
  cbv zeta.
  pose proof (sweep_serves_the_heads
                (Dispatcher.mkWorld (fun k _ => String.eqb k "0")
                   (fun _ => true))
                (Dispatcher.mkSt
                   (<["0" := [11; 12]%nat]> (<["2" := [21]%nat]> ∅))
                   [] 0 0 0 false))
    as (_ & _ & _ & _ & Hlose & Hkeep).
  split.
  - apply (Hlose "0" 11%nat [12%nat]); by vm_compute.
  - apply (Hkeep "2" 21%nat []); by vm_compute.
Defined.

(** ** Serialised sketches *)

Section RoundTrip.
Context `{TDigestLib}.

Lemma ForEachCentroid_collect (cs : list (float64 * Z)) (acc : list TDNode) :
  ForEachCentroid cs
    (fun mean count rslice => (true, rslice ++ [mkTDNode mean count])) acc =
  acc ++ ((fun c => mkTDNode c.1 c.2) <$> cs).
Proof.
  revert acc. induction cs as [|[mean count] cs IH]; intros acc; cbn.
  - by rewrite app_nil_r.
  - by rewrite IH, <- app_assoc.
Qed.

(** What the round trip through the serialised form does: the sketch
    that [UnserializeTDigest] builds from the nodes of [SerializeTDigest]
    is the empty sketch of the library to which the centroids of the
    original were added, one [AddWeighted(mean, count)] each, in the
    order in which [ForEachCentroid] walks them. Whether this sketch
    has the centroids of the original is decided by the library. *)
Theorem round_trip_replays_the_centroids (td : TDigest) :
  UnserializeTDigest (SerializeTDigest td) =
  foldl (fun t c => tdigest_AddWeighted t c.1 c.2) tdigest_New
    (tdigest_Centroids td).
Proof.
  unfold UnserializeTDigest, SerializeTDigest.
  rewrite ForEachCentroid_collect. cbn [app].
  generalize tdigest_New.
  induction (tdigest_Centroids td) as [|[mean count] cs IH]; intros t0.
  - reflexivity.
  - cbn. apply IH.
Qed.

End RoundTrip.
